(** * tc_wakes: profile selection and time decoding of [plot_profiles.py]

    A shallow embedding of [src/plot_profiles.py] and the properties of its
    four stages: the time decoder [fractional_year_to_datetime], the
    collocation selector (mask, per-slot counts, argmax, where), the
    coordinate resolver and the profile assembler of [main].

    Numbers are modelled as the interpreter has them: Python [int] as [Z],
    [float] / [numpy.float64] as IEEE-754 binary64 through the Standard
    Library's [spec_float] (round to nearest, ties to even), exceptions as
    the [Err] branch of a result type.  The time values are taken to be
    float64, the index arrays integer arrays, and [datetime] to behave as
    CPython's implementation does. *)

From Stdlib Require Import ZArith List Bool Ascii String Lia Sorted.
From Stdlib Require Import Floats.SpecFloat.
From Stdlib Require Import Reals Lra.
From stdpp Require Import base option strings gmap pretty.

Local Open Scope Z_scope.

(** ** Exceptions and results *)

Inductive exn : Type :=
  | ValueError
  | OverflowError
  | IndexError.

Inductive result (A : Type) : Type :=
  | Ok (a : A)
  | Err (e : exn).

Arguments Ok {A} a.
Arguments Err {A} e.

#[global] Instance result_ret : MRet result := fun A a => Ok a.
#[global] Instance result_bind : MBind result := fun A B k r =>
  match r with
  | Ok a => k a
  | Err e => Err e
  end.

#[global] Instance result_fmap : FMap result := fun A B f r =>
  match r with
  | Ok a => Ok (f a)
  | Err e => Err e
  end.

(** ** binary64 floats *)

Module Float64.

Definition prec : Z := 53.
Definition emax : Z := 1024.

Definition float : Type := spec_float.

Definition sub : float -> float -> float := SFsub prec emax.
Definition add : float -> float -> float := SFadd prec emax.
Definition mul : float -> float -> float := SFmul prec emax.
Definition eqb : float -> float -> bool := SFeqb.
Definition leb : float -> float -> bool := SFleb.
Definition ltb : float -> float -> bool := SFltb.

(** The double nearest to [m * 2^e]; [of_int z] is the conversion of a
    Python [int] operand in mixed arithmetic. *)
Definition of_dyadic (m e : Z) : float := binary_normalize prec emax m e false.
Definition of_int (z : Z) : float := of_dyadic z 0.

(** The values of the machine format: [spec_float] also holds triples
    whose mantissa is not normalised, which no double is. *)
Definition valid (x : float) : bool := valid_binary prec emax x.

Definition is_finite (x : float) : bool :=
  match x with
  | S754_zero _ | S754_finite _ _ _ => true
  | _ => false
  end.

Definition is_zero (x : float) : bool :=
  match x with
  | S754_zero _ => true
  | _ => false
  end.

Definition sign (x : float) : bool :=
  match x with
  | S754_zero s | S754_infinity s | S754_finite s _ _ => s
  | S754_nan => false
  end.

(** [int(x)]: truncation toward zero; NaN raises [ValueError], an
    infinity raises [OverflowError]. *)
Definition to_int (x : float) : result Z :=
  match x with
  | S754_nan => Err ValueError
  | S754_infinity _ => Err OverflowError
  | S754_zero _ => Ok 0
  | S754_finite s m e => Ok (cond_Zopp s (Z.shiftl (Zpos m) e))
  end.

(** C's [modf]: the fractional part (a float with the sign of [x]) and
    the integral part, already converted as [PyLong_FromDouble] does. *)
Definition modf (x : float) : result (float * Z) :=
  match x with
  | S754_nan => Err ValueError
  | S754_infinity _ => Err OverflowError
  | S754_zero s => Ok (S754_zero s, 0)
  | S754_finite s m e =>
      if 0 <=? e then Ok (S754_zero s, cond_Zopp s (Z.shiftl (Zpos m) e))
      else
        let ip := Z.shiftl (Zpos m) e in
        let r := Zpos m mod 2 ^ (- e) in
        Ok (binary_normalize prec emax (cond_Zopp s r) e s, cond_Zopp s ip)
  end.

(** C's [round] on a finite float: nearest integer, halves away from
    zero. *)
Definition c_round (x : float) : Z :=
  match x with
  | S754_finite s m e =>
      if 0 <=? e then cond_Zopp s (Z.shiftl (Zpos m) e)
      else
        let ip := Z.shiftl (Zpos m) e in
        let r := Zpos m mod 2 ^ (- e) in
        cond_Zopp s (if 2 ^ (- e) <=? 2 * r then ip + 1 else ip)
  | _ => 0
  end.

(** [fabs(round(x) - x) == 0.5] *)
Definition is_half_way (x : float) : bool :=
  match x with
  | S754_finite s m e =>
      if 0 <=? e then false
      else 2 * (Zpos m mod 2 ^ (- e)) =? 2 ^ (- e)
  | _ => false
  end.

End Float64.

Import Float64.

(** ** [datetime.timedelta] and [datetime.datetime] *)

Definition MINYEAR : Z := 1.
Definition MAXYEAR : Z := 9999.
Definition MAXORDINAL : Z := 3652059.
Definition INT_MAX : Z := 2147483647.

Definition us_per_second : Z := 1000000.
Definition seconds_per_day : Z := 24 * 3600.
Definition us_per_day : Z := 86400000000.

Record timedelta : Type := mk_timedelta
  { td_days : Z; td_seconds : Z; td_microseconds : Z }.

(** A naive [datetime]: the proleptic Gregorian ordinal of its date
    (0001-01-01 is day 1), the second of the day and the microsecond. *)
Record datetime : Type := mk_datetime
  { dt_ordinal : Z; dt_second : Z; dt_microsecond : Z }.

(** One keyword argument of the [timedelta] constructor, as CPython's
    [accum] treats a float: [num * factor] microseconds are added to
    [sofar], the whole part exactly and the fractional part through one
    float product; what is left below one microsecond goes to [leftover]. *)
Definition accum (sofar : Z) (num : float) (factor : Z) (leftover : float)
  : result (Z * float) :=
  '(fracpart, intpart) ← modf num;
  let sum := sofar + intpart * factor in
  if is_zero fracpart then Ok (sum, leftover)
  else
    let dnum := mul (of_int factor) fracpart in
    '(fracpart', intpart') ← modf dnum;
    Ok (sum + intpart', add leftover fracpart').

(** Rounding of the leftover to whole microseconds: the nearest integer,
    and on an exact half the neighbour that makes the running sum [x]
    even. *)
Definition round_leftover (x : Z) (leftover_us : float) : Z :=
  if is_half_way leftover_us then
    let t := match to_int leftover_us with Ok t => t | Err _ => 0 end in
    if Z.even (x + t) then t
    else t + (if sign leftover_us then -1 else 1)
  else c_round leftover_us.

Definition microseconds_to_delta (us : Z) : result timedelta :=
  let s := us / us_per_second in
  let d := s / seconds_per_day in
  if Z.abs d <=? 999999999
  then Ok (mk_timedelta d (s mod seconds_per_day) (us mod us_per_second))
  else Err OverflowError.

(** [datetime.timedelta(days=day)] for a float [day]. *)
Definition timedelta_days (day : float) : result timedelta :=
  '(x, leftover_us) ← accum 0 day us_per_day (S754_zero false);
  let x := if is_zero leftover_us then x else x + round_leftover x leftover_us in
  microseconds_to_delta x.

Definition is_leap (year : Z) : bool :=
  (year mod 4 =? 0) && (negb (year mod 100 =? 0) || (year mod 400 =? 0)).

Definition days_before_year (year : Z) : Z :=
  let y := year - 1 in
  y * 365 + y / 4 - y / 100 + y / 400.

(** [datetime.datetime(year, 1, 1)] *)
Definition datetime_jan1 (year : Z) : result datetime :=
  if (year <? - INT_MAX - 1) || (INT_MAX <? year) then Err OverflowError
  else if (MINYEAR <=? year) && (year <=? MAXYEAR)
  then Ok (mk_datetime (days_before_year year + 1) 0 0)
  else Err ValueError.

(** [datetime + timedelta] *)
Definition datetime_add (d : datetime) (t : timedelta) : result datetime :=
  let us := dt_microsecond d + td_microseconds t in
  let s := dt_second d + td_seconds t + us / us_per_second in
  let o := dt_ordinal d + td_days t + s / seconds_per_day in
  if (0 <? o) && (o <=? MAXORDINAL)
  then Ok (mk_datetime o (s mod seconds_per_day) (us mod us_per_second))
  else Err OverflowError.

(** Comparison of two datetimes: field by field, as tuples. *)
Definition dt_cmp (a b : datetime) : comparison :=
  match dt_ordinal a ?= dt_ordinal b with
  | Eq =>
      match dt_second a ?= dt_second b with
      | Eq => dt_microsecond a ?= dt_microsecond b
      | c => c
      end
  | c => c
  end.

(** [a <= b] *)
Definition dt_leb (a b : datetime) : bool :=
  match dt_cmp a b with
  | Gt => false
  | _ => true
  end.

(** Microseconds since the midnight that starts ordinal day 0. *)
Definition dt_total_us (d : datetime) : Z :=
  (dt_ordinal d * seconds_per_day + dt_second d) * us_per_second
  + dt_microsecond d.

(** ** The time decoder *)

Definition fractional_year_to_datetime (year_frac : float) : result datetime :=
  year ← to_int year_frac;
  let frac := sub year_frac (of_int year) in
  let days := if is_leap year then 366 else 365 in
  jan1 ← datetime_jan1 year;
  delta ← timedelta_days (mul frac (of_int days));
  datetime_add jan1 delta.

(** ** numpy arrays *)

(** A 2-D array keeps its shape next to its rows, as numpy does: an array
    of shape (0, M) still has M columns. *)
Record ndarray2 (A : Type) : Type := mk_ndarray2
  { shape0 : nat; shape1 : nat; rows2 : list (list A) }.

Arguments mk_ndarray2 {A} _ _ _.
Arguments shape0 {A} _.
Arguments shape1 {A} _.
Arguments rows2 {A} _.

Definition wf2 {A : Type} (a : ndarray2 A) : Prop :=
  length (rows2 a) = shape0 a /\ Forall (fun r => length r = shape1 a) (rows2 a).

(** A 3-D array with dimensions (ni, nj, nk). *)
Record ndarray3 (A : Type) : Type := mk_ndarray3
  { dim_ni : nat; dim_nj : nat; dim_nk : nat; planes : list (list (list A)) }.

Arguments mk_ndarray3 {A} _ _ _ _.
Arguments dim_ni {A} _.
Arguments dim_nj {A} _.
Arguments dim_nk {A} _.
Arguments planes {A} _.

Definition wf3 {A : Type} (a : ndarray3 A) : Prop :=
  length (planes a) = dim_ni a
  /\ Forall (fun p => length p = dim_nj a
                      /\ Forall (fun r => length r = dim_nk a) p) (planes a).

(** An integer index into an axis of length [n]: negative indices count
    from the end, anything else out of range raises [IndexError]. *)
Definition norm_index (n : nat) (i : Z) : result nat :=
  if (0 <=? i) && (i <? Z.of_nat n) then Ok (Z.to_nat i)
  else if (- Z.of_nat n <=? i) && (i <? 0) then Ok (Z.to_nat (i + Z.of_nat n))
  else Err IndexError.

Definition lookup_or_raise {A : Type} (l : list A) (i : nat) : result A :=
  match l !! i with
  | Some x => Ok x
  | None => Err IndexError
  end.

(** [a[r, c]] *)
Definition getitem2 {A : Type} (a : ndarray2 A) (r c : Z) : result A :=
  r' ← norm_index (shape0 a) r;
  c' ← norm_index (shape1 a) c;
  row ← lookup_or_raise (rows2 a) r';
  lookup_or_raise row c'.

(** [a[:, c]] *)
Definition column {A : Type} (a : ndarray2 A) (c : Z) : result (list A) :=
  c' ← norm_index (shape1 a) c;
  mapM (M := result) (fun row => lookup_or_raise row c') (rows2 a).

(** [v != fill] on one element; every integer differs from [None]. *)
Definition differs (fill : option Z) (v : Z) : bool :=
  match fill with
  | Some f => negb (v =? f)
  | None => true
  end.

(** [a != fill], element by element. *)
Definition ne_scalar (a : ndarray2 Z) (fill : option Z) : ndarray2 bool :=
  mk_ndarray2 (shape0 a) (shape1 a) (map (map (differs fill)) (rows2 a)).

(** [a & b] on boolean arrays of one shape. *)
Definition mask_and (a b : ndarray2 bool) : ndarray2 bool :=
  mk_ndarray2 (shape0 a) (shape1 a)
    (zip_with (zip_with andb) (rows2 a) (rows2 b)).

(** The sum of a boolean vector, [True] counting as 1. *)
Fixpoint count_true (l : list bool) : Z :=
  match l with
  | [] => 0
  | b :: l' => (if b then 1 else 0) + count_true l'
  end.

(** [mask.sum(axis=0)]: one count per column. *)
Definition sum_axis0 (mask : ndarray2 bool) : list Z :=
  map (fun k => count_true (map (fun row => nth k row false) (rows2 mask)))
      (seq 0 (shape1 mask)).

(** [counts.argmax()]: the first index of the maximum; [ValueError] on an
    empty sequence. *)
Fixpoint argmax_from (best_i : nat) (best : Z) (i : nat) (l : list Z) : nat :=
  match l with
  | [] => best_i
  | x :: l' =>
      if best <? x then argmax_from i x (S i) l'
      else argmax_from best_i best (S i) l'
  end.

Definition argmax (l : list Z) : result nat :=
  match l with
  | [] => Err ValueError
  | x :: l' => Ok (argmax_from 0 x 1 l')
  end.

(** [np.where(v)[0]]: the indices of the true entries, ascending. *)
Fixpoint where_from (i : nat) (v : list bool) : list nat :=
  match v with
  | [] => []
  | b :: v' => if b then i :: where_from (S i) v' else where_from (S i) v'
  end.

Definition np_where (v : list bool) : list nat := where_from 0 v.

(** [da.isel(ni=slot, nk=k).values]: the 1-D slice along nj. *)
Definition isel_ni_nk {A : Type} (a : ndarray3 A) (slot k : Z) : result (list A) :=
  slot' ← norm_index (dim_ni a) slot;
  k' ← norm_index (dim_nk a) k;
  plane ← lookup_or_raise (planes a) slot';
  mapM (M := result) (fun row => lookup_or_raise row k') plane.

(** ** The dataset and the figure *)

Record dataset : Type := mk_dataset
  { time_values : list float;
    time_attrs : gmap string float;
    storm_grid_coord_i : ndarray2 Z;
    storm_grid_coord_i_attrs : gmap string Z;
    storm_grid_coord_j : ndarray2 Z;
    storm_grid_coord_j_attrs : gmap string Z;
    sea_surface_temperature : ndarray3 float;
    observation_level_in_pressure : ndarray3 float;
    lon2 : ndarray2 float;
    lat2 : ndarray2 float }.

(** One [ax.plot(x, y, label=...)] call. *)
Record curve : Type := mk_curve
  { curve_x : list float; curve_y : list float; curve_label : string }.

Record figure : Type := mk_figure
  { fig_curves : list curve;
    fig_ylim : Z * Z;
    fig_xlabel : string;
    fig_ylabel : string;
    fig_title : string;
    fig_saved : list string }.

(** ** The collocation selector (steps 2 and 3 of [main]) *)

Definition valid_mask (si sj : ndarray2 Z) (fill_i fill_j : option Z)
  : ndarray2 bool :=
  mask_and (ne_scalar si fill_i) (ne_scalar sj fill_j).

Definition select (si sj : ndarray2 Z) (fill_i fill_j : option Z)
  : result (nat * list nat) :=
  let mask := valid_mask si sj fill_i fill_j in
  let counts := sum_axis0 mask in
  k_max ← argmax counts;
  col ← column mask (Z.of_nat k_max);
  let slots := np_where col in
  Ok (k_max, slots).

(** ** The coordinate resolver (lines 65-67 of [main]) *)

Definition resolve (si sj : ndarray2 Z) (geo_lon geo_lat : ndarray2 float)
    (slot k_max : nat) : result (float * float) :=
  i_idx ← getitem2 si (Z.of_nat slot) (Z.of_nat k_max);
  j_idx ← getitem2 sj (Z.of_nat slot) (Z.of_nat k_max);
  lon ← getitem2 geo_lon j_idx i_idx;
  lat ← getitem2 geo_lat j_idx i_idx;
  Ok (lon, lat).

(** ** The time series (step 1 of [main]) *)

Definition fill_key : string := "_Fillvalue".

Definition decode_entry (tfill : option float) (tv : float)
  : result (option datetime) :=
  match tfill with
  | Some f =>
      if negb (eqb tv f) then Some <$> fractional_year_to_datetime tv
      else Ok None
  | None => Some <$> fractional_year_to_datetime tv
  end.

Definition decode_times (tvals : list float) (tfill : option float)
  : result (list (option datetime)) :=
  mapM (M := result) (decode_entry tfill) tvals.

(** ** [main] *)

Section Main.

(** The two formatting primitives of the interpreter that [main] calls:
    [f"{x:.2f}"] on a float and [strftime("%Y-%m-%d")] on a datetime. *)
Variable format_2f : float -> string.
Variable strftime_ymd : datetime -> string.

(** The body of the plotting loop: one curve per selected observation. *)
Definition plot_profile (ds : dataset) (k_max slot : nat) : result curve :=
  temp_profile ← isel_ni_nk (sea_surface_temperature ds)
                    (Z.of_nat slot) (Z.of_nat k_max);
  plev_profile ← isel_ni_nk (observation_level_in_pressure ds)
                    (Z.of_nat slot) (Z.of_nat k_max);
  '(lon, lat) ← resolve (storm_grid_coord_i ds) (storm_grid_coord_j ds)
                    (lon2 ds) (lat2 ds) slot k_max;
  Ok (mk_curve temp_profile plev_profile
        (format_2f lon +:+ "," +:+ format_2f lat)).

Definition assemble (ds : dataset) (k_max : nat) (slots : list nat)
  : result (list curve) :=
  mapM (M := result) (plot_profile ds k_max) slots.

Definition main (prefix : string) (ds : dataset) : result figure :=
  let tfill := time_attrs ds !! fill_key in
  times ← decode_times (time_values ds) tfill;
  let si := storm_grid_coord_i ds in
  let sj := storm_grid_coord_j ds in
  let fill_i := storm_grid_coord_i_attrs ds !! fill_key in
  let fill_j := storm_grid_coord_j_attrs ds !! fill_key in
  '(k_max, slots) ← select si sj fill_i fill_j;
  curves ← assemble ds k_max slots;
  t ← lookup_or_raise times k_max;
  let date_str :=
    match t with
    | Some d => strftime_ymd d
    | None => "unknown_date"
    end in
  let title :=
    prefix +:+ ": " +:+ pretty (length slots) +:+ " profiles on " +:+ date_str in
  Ok (mk_figure curves (200, 0) "Temperature (°C)" "Pressure (dbar)" title
        [prefix +:+ "_profiles.pdf"; prefix +:+ "_profiles.png"]).

End Main.

(** ** Reference notions used to state the properties *)

(** The cell of a 2-D array at (observation, slot), read directly. *)
Definition cell {A : Type} (d : A) (a : ndarray2 A) (obs slot : nat) : A :=
  nth slot (nth obs (rows2 a) []) d.

(** A cell is valid iff both of its coordinates differ from their
    sentinel; an absent sentinel excludes nothing. *)
Definition cell_valid (si sj : ndarray2 Z) (fill_i fill_j : option Z)
    (obs slot : nat) : bool :=
  match fill_i with
  | Some f => negb (cell 0 si obs slot =? f)
  | None => true
  end
  && match fill_j with
     | Some f => negb (cell 0 sj obs slot =? f)
     | None => true
     end.

(** The number of observations valid at a slot: how many of the
    observations 0 .. ni-1 have a valid cell there. *)
Definition valid_count (si sj : ndarray2 Z) (fill_i fill_j : option Z)
    (slot : nat) : Z :=
  Z.of_nat
    (length (List.filter (fun obs => cell_valid si sj fill_i fill_j obs slot)
                         (seq 0 (shape0 si)))).

(** The 1-D slice of a 3-D array at (observation, slot), read directly. *)
Definition slice3 {A : Type} (d : A) (a : ndarray3 A) (obs slot : nat) : list A :=
  map (fun row => nth slot row d) (nth obs (planes a) []).

(** The shape invariant of a dataset: every array is rectangular and a
    named dimension has one size in all the arrays that carry it. *)
Record dataset_wf (ds : dataset) : Prop := mk_dataset_wf
  { wf_si : wf2 (storm_grid_coord_i ds);
    wf_sj : wf2 (storm_grid_coord_j ds);
    wf_sj_ni : shape0 (storm_grid_coord_j ds) = shape0 (storm_grid_coord_i ds);
    wf_sj_nk : shape1 (storm_grid_coord_j ds) = shape1 (storm_grid_coord_i ds);
    wf_sst : wf3 (sea_surface_temperature ds);
    wf_sst_ni : dim_ni (sea_surface_temperature ds) = shape0 (storm_grid_coord_i ds);
    wf_sst_nk : dim_nk (sea_surface_temperature ds) = shape1 (storm_grid_coord_i ds);
    wf_press : wf3 (observation_level_in_pressure ds);
    wf_press_ni :
      dim_ni (observation_level_in_pressure ds) = shape0 (storm_grid_coord_i ds);
    wf_press_nk :
      dim_nk (observation_level_in_pressure ds) = shape1 (storm_grid_coord_i ds);
    wf_lon2 : wf2 (lon2 ds);
    wf_lat2 : wf2 (lat2 ds);
    wf_lat2_rows : shape0 (lat2 ds) = shape0 (lon2 ds);
    wf_lat2_cols : shape1 (lat2 ds) = shape1 (lon2 ds);
    wf_time : length (time_values ds) = shape1 (storm_grid_coord_i ds) }.

(** The grid indices stored at a cell address a cell of the geographic
    grid. *)
Definition in_grid (ds : dataset) (obs slot : nat) : Prop :=
  0 <= cell 0 (storm_grid_coord_i ds) obs slot < Z.of_nat (shape1 (lon2 ds))
  /\ 0 <= cell 0 (storm_grid_coord_j ds) obs slot < Z.of_nat (shape0 (lon2 ds)).

(** ** Sample inputs *)

Definition y2024_5 : float := of_dyadic 4049 (-1).
Definition y2023_5 : float := of_dyadic 4047 (-1).

(** Scenario A of the specification: two observations, two slots. *)
Definition grid_A : ndarray2 Z := mk_ndarray2 2 2 [[5; -1]; [-1; 7]].
Definition grid_A_j : ndarray2 Z := mk_ndarray2 2 2 [[3; -1]; [-1; 2]].
Definition grid_all_fill : ndarray2 Z := mk_ndarray2 2 2 [[-1; -1]; [-1; -1]].

(** An 8 x 8 geographic grid whose cells are pairwise distinct. *)
Definition geo (base : Z) : ndarray2 float :=
  mk_ndarray2 8 8
    (map (fun j => map (fun i => of_int (base + 10 * Z.of_nat j + Z.of_nat i))
                       (seq 0 8)) (seq 0 8)).

(** Two observations, three levels, two slots. *)
Definition cube (base : Z) : ndarray3 float :=
  mk_ndarray3 2 3 2
    (map (fun o => map (fun l => map (fun k =>
            of_int (base + 100 * Z.of_nat o + 10 * Z.of_nat l + Z.of_nat k))
          (seq 0 2)) (seq 0 3)) (seq 0 2)).

Definition sample (tvals : list float) (tattrs : gmap string float)
    (gi gj : ndarray2 Z) (gattrs : gmap string Z) : dataset :=
  mk_dataset tvals tattrs gi gattrs gj gattrs
             (cube 0) (cube 1000) (geo 0) (geo 500).

Definition ds_A : dataset :=
  sample [y2024_5; y2023_5] ∅ grid_A grid_A_j {[ "_Fillvalue" := -1 ]}.

Definition ds_all_fill : dataset :=
  sample [y2024_5; y2023_5] ∅ grid_all_fill grid_all_fill
         {[ "_Fillvalue" := -1 ]}.

Definition ds_time_fill : dataset :=
  sample [of_int (-9999); y2023_5] {[ "_Fillvalue" := of_int (-9999) ]}
         grid_A grid_A_j {[ "_Fillvalue" := -1 ]}.

(** Attribute maps that hold an entry under the conventional spelling
    only. *)
Definition attrs_conventional : gmap string Z := {[ "_FillValue" := -1 ]}.

(** The sentinels are declared under a key of the producer's own, which
    the loader leaves among the attributes together with the raw values. *)
Definition attrs_other_key : gmap string Z := {[ "fill_value" := -1 ]}.
Definition time_attrs_other_key : gmap string float :=
  {[ "fill_value" := of_int (-9999) ]}.

Definition ds_other_key : dataset :=
  sample [y2024_5; y2023_5] time_attrs_other_key
         (mk_ndarray2 2 2 [[5; -1]; [2; 7]]) (mk_ndarray2 2 2 [[3; 1]; [-1; 2]])
         attrs_other_key.

(** What the two sample time values decode to. *)
Definition times_sample : list (option datetime) :=
  [Some (mk_datetime 739069 0 0); Some (mk_datetime 738703 43200 0)].

Definition sample_format (x : float) : string :=
  match to_int x with
  | Ok z => pretty z
  | Err _ => "nan"
  end.

Definition sample_strftime (d : datetime) : string := pretty (dt_ordinal d).

(** ** Real values, rounding and the notions used for the decoder *)

(** The real number a finite float stands for: [m * 2^e]. *)
Definition bpow (e : Z) : R := powerRZ 2 e.
Definition F2R (m e : Z) : R := (IZR m * bpow e)%R.
Definition B2R (x : float) : R :=
  match x with
  | S754_finite s m e => F2R (cond_Zopp s (Zpos m)) e
  | _ => 0%R
  end.

(** The number of binary digits of a mantissa. *)
Definition digits (m : positive) : Z := Zpos (digits2_pos m).

(** Where a remainder [r] lies in an interval of [d] steps: at its start,
    below, at or above the middle. *)
Definition loc_of (r d : Z) : location :=
  if r =? 0 then loc_Exact else loc_Inexact (2 * r ?= d).

(** [K] is a nearest integer of [x], the even one on a tie. *)
Definition is_rne (x : R) (K : Z) : Prop :=
  (x - 1 / 2 <= IZR K <= x + 1 / 2)%R
  /\ ((IZR K = x - 1 / 2 \/ IZR K = x + 1 / 2)%R -> Z.even K = true).

(** [m / 2^n] rounded to the nearest integer, ties to even. *)
Definition rne_div (m n : Z) : Z :=
  let q := m / 2 ^ n in
  let r := m mod 2 ^ n in
  if r =? 0 then q
  else match 2 * r ?= 2 ^ n with
       | Lt => q
       | Eq => if Z.even q then q else q + 1
       | Gt => q + 1
       end.

(** The exponent binary64 gives to [m * 2^e], and the mantissa of its
    rounding at that exponent. *)
Definition cexp (m : positive) (e : Z) : Z := fexp prec emax (digits m + e).

Definition rnd_mant (m : positive) (e : Z) : Z :=
  if cexp m e <=? e then Zpos m * 2 ^ (e - cexp m e)
  else rne_div (Zpos m) (cexp m e - e).

(** Finite, with at most 53 digits and an exponent of the format. *)
Definition fits (x : float) : Prop :=
  match x with
  | S754_zero _ => True
  | S754_finite _ m e => digits m <= 53 /\ -1074 <= e <= 971
  | _ => False
  end.

(** [x] is the binary64 rounding of the non-negative real [v]. *)
Definition rounds_to (v : R) (x : float) : Prop :=
  fits x /\ sign x = false
  /\ ((v = 0%R /\ B2R x = 0%R)
      \/ exists m e, v = F2R (Zpos m) e
                     /\ B2R x = F2R (rnd_mant m e) (cexp m e)).

(** The microsecond count of a non-negative number [v] of days: the whole
    days exactly, the fraction of a day through one rounded product and a
    rounding to the nearest integer, ties to even. *)
Definition us_rel (v : R) (X : Z) : Prop :=
  exists (ip : Z) (f : R),
    v = (IZR ip + f)%R /\ 0 <= ip /\ (0 <= f < 1)%R
    /\ ((f = 0%R /\ X = ip * us_per_day)
        \/ ((0 < f)%R
            /\ exists q, rounds_to (IZR us_per_day * f) q
                         /\ is_rne (B2R q) (X - ip * us_per_day))).

(** [days] of [fractional_year_to_datetime]. *)
Definition days_in_year (year : Z) : Z := if is_leap year then 366 else 365.

(** January 1 (ordinal [o0], midnight) plus [X] microseconds. *)
Definition jan1_plus_us (o0 X : Z) : datetime :=
  mk_datetime (o0 + X / us_per_day)
    ((X / us_per_second) mod seconds_per_day) (X mod us_per_second).

(** The largest double below 10000. *)
Definition last_9999 : float := S754_finite false 5497558138879999 (-39).

(** ** The command line (lines 20-28 and 83-85 of [main]) *)

(** [p.rfind(c)]: the index of the last occurrence of [c], -1 when there
    is none. *)
Fixpoint rfind (c : ascii) (p : list ascii) : Z :=
  match p with
  | [] => -1
  | a :: p' =>
      let r := rfind c p' in
      if 0 <=? r then r + 1 else if Ascii.eqb a c then 0 else -1
  end.

(** [os.path.basename(p)]: [p[p.rfind('/') + 1:]] *)
Definition basename (p : list ascii) : list ascii :=
  skipn (Z.to_nat (rfind "/" p + 1)) p.

(** [os.path.splitext(p)]: the extension starts at the last dot, unless
    that dot is not after the last separator or only dots come before it
    in the file name. *)
Definition splitext (p : list ascii) : list ascii * list ascii :=
  let sepIndex := rfind "/" p in
  let dotIndex := rfind "." p in
  if (sepIndex <? dotIndex)
     && existsb (fun a => negb (Ascii.eqb a "."))
          (firstn (Z.to_nat (dotIndex - (sepIndex + 1)))
                  (skipn (Z.to_nat (sepIndex + 1)) p))
  then (firstn (Z.to_nat dotIndex) p, skipn (Z.to_nat dotIndex) p)
  else (p, []).

(** [prefix] of [main], and [base] of [plot.py]:
    [os.path.splitext(os.path.basename(infile))[0]] *)
Definition prefix_of (infile : string) : string :=
  string_of_list_ascii
    (fst (splitext (basename (list_ascii_of_string infile)))).

(** How a run of the script ends: [sys.exit] after a message, the figure
    saved and a message printed, an exception of [main]'s own steps, or a
    failure to open the input. *)
Inductive outcome : Type :=
  | Exited (status : Z) (printed : string)
  | Finished (fig : figure) (printed : string)
  | Raised (e : exn)
  | OpenFailed.

Section Script.

Variable format_2f : float -> string.
Variable strftime_ymd : datetime -> string.

(** [xr.open_dataset(infile, decode_times=False)]: the dataset stored
    under a path, if the file can be read. *)
Variable open_dataset : string -> option dataset.

(** The script on [sys.argv = argv0 :: args]. *)
Definition run (argv0 : string) (args : list string) : outcome :=
  match args with
  | [infile] =>
      let prefix := prefix_of infile in
      match open_dataset infile with
      | Some ds =>
          match main format_2f strftime_ymd prefix ds with
          | Ok fig =>
              Finished fig ("Saved " +:+ prefix +:+ "_profiles.pdf and "
                            +:+ prefix +:+ "_profiles.png")
          | Err e => Raised e
          end
      | None => OpenFailed
      end
  | _ =>
      Exited 1 ("Usage: "
                +:+ string_of_list_ascii (basename (list_ascii_of_string argv0))
                +:+ " <input.nc>")
  end.

End Script.

(** The stored indices address the geographic grid once numpy has wrapped
    negative ones. *)
Definition in_grid_wrapped (ds : dataset) (obs slot : nat) : Prop :=
  - Z.of_nat (shape1 (lon2 ds)) <= cell 0 (storm_grid_coord_i ds) obs slot
    < Z.of_nat (shape1 (lon2 ds))
  /\ - Z.of_nat (shape0 (lon2 ds)) <= cell 0 (storm_grid_coord_j ds) obs slot
     < Z.of_nat (shape0 (lon2 ds)).

(** The cell [a[r, c]] of in-range, possibly negative, indices. *)
Definition cell_wrapped {A : Type} (d : A) (a : ndarray2 A) (r c : Z) : A :=
  cell d a (Z.to_nat (r mod Z.of_nat (shape0 a)))
           (Z.to_nat (c mod Z.of_nat (shape1 a))).

(** The geographic coordinate of an observation at a slot, read directly:
    row [j], column [i] of the two coordinate grids. *)
Definition coordinate (d : float) (ds : dataset) (obs slot : nat) : float * float :=
  let i := cell 0 (storm_grid_coord_i ds) obs slot in
  let j := cell 0 (storm_grid_coord_j ds) obs slot in
  (cell_wrapped d (lon2 ds) j i, cell_wrapped d (lat2 ds) j i).

(** ** Further sample inputs *)

(** A NaN time at a slot that the selector does not choose. *)
Definition ds_nan_time : dataset :=
  sample [y2024_5; S754_nan] {[ "_Fillvalue" := S754_nan ]}
         grid_A grid_A_j {[ "_Fillvalue" := -1 ]}.

(** The stored column index 8 is one past the 8 x 8 geographic grid. *)
Definition ds_out_of_grid : dataset :=
  sample [y2024_5; y2023_5] ∅ (mk_ndarray2 2 2 [[8; -1]; [-1; 7]]) grid_A_j
         {[ "_Fillvalue" := -1 ]}.

(** Two observations and no slot at all. *)
Definition ds_no_slots : dataset :=
  mk_dataset [] ∅ (mk_ndarray2 2 0 [[]; []]) ∅ (mk_ndarray2 2 0 [[]; []]) ∅
             (mk_ndarray3 2 3 0 [[[]; []; []]; [[]; []; []]])
             (mk_ndarray3 2 3 0 [[[]; []; []]; [[]; []; []]])
             (geo 0) (geo 500).

(** A year fraction of year 0 at a slot that the selector does not
    choose. *)
Definition ds_year_zero : dataset :=
  sample [y2024_5; of_int 0] ∅ grid_A grid_A_j {[ "_Fillvalue" := -1 ]}.

(** The figure of scenario A under the prefix "storm". *)
Definition fig_A : figure :=
  mk_figure
    [mk_curve [of_int 0; of_int 10; of_int 20]
              [of_int 1000; of_int 1010; of_int 1020] "35,535"]
    (200, 0) "Temperature (°C)" "Pressure (dbar)"
    "storm: 1 profiles on 739069"
    ["storm_profiles.pdf"; "storm_profiles.png"].


(** A file system that holds scenario A under one path. *)
Definition sample_open (path : string) : option dataset :=
  if String.eqb path "/data/storm.nc" then Some ds_A else None.

(** ** [plot.py]: the middle of the storm track *)

Module PlotTrack.

(** What the indexing steps of [main] in [plot.py] read: the size of the
    dimension [nii], the track coordinates, and the two coordinate grids
    as their slices along [nii], in the order of that dimension. *)
Record track_dataset : Type := mk_track_dataset
  { nii : nat;
    lon1 : list float;
    lat1 : list float;
    lon2_nii : list (list float);
    lat2_nii : list (list float) }.

(** What those steps yield: the index, the cross-track line and the
    highlighted point, with the two legend labels. *)
Record track_selection : Type := mk_track_selection
  { sel_i0 : Z;
    cross_line : list float * list float;
    cross_label : string;
    selected_point : float * float;
    selected_label : string }.

(** [a[i]] on a 1-D array *)
Definition getitem1 {A : Type} (a : list A) (i : Z) : result A :=
  i' ← norm_index (length a) i;
  lookup_or_raise a i'.

(** [da.isel(nii=i).values] *)
Definition isel_nii (ds : track_dataset) (slices : list (list float)) (i : Z)
  : result (list float) :=
  i' ← norm_index (nii ds) i;
  lookup_or_raise slices i'.

(** Lines 20-29 and 69 of [main], in the order they run; the map extent
    and the drawing between them are left out. *)
Definition select_middle (ds : track_dataset) : result track_selection :=
  let n_track := Z.of_nat (nii ds) in
  let i0 := n_track / 2 in
  let track_lons := lon1 ds in
  let track_lats := lat1 ds in
  grid_lons ← isel_nii ds (lon2_nii ds) i0;
  grid_lats ← isel_nii ds (lat2_nii ds) i0;
  lon ← getitem1 track_lons i0;
  lat ← getitem1 track_lats i0;
  Ok (mk_track_selection i0 (grid_lons, grid_lats)
        ("Cross-Track @ i0=" +:+ pretty i0)
        (lon, lat)
        ("Selected Point i0=" +:+ pretty i0)).

(** Every array has the size of [nii] along that dimension. *)
Definition track_wf (ds : track_dataset) : Prop :=
  length (lon1 ds) = nii ds /\ length (lat1 ds) = nii ds
  /\ length (lon2_nii ds) = nii ds /\ length (lat2_nii ds) = nii ds.

Definition track_sample : track_dataset :=
  mk_track_dataset 5
    (map of_int [10; 11; 12; 13; 14]) (map of_int [20; 21; 22; 23; 24])
    (map (fun i => map of_int [i; i + 100]) [10; 11; 12; 13; 14])
    (map (fun i => map of_int [i; i + 100]) [20; 21; 22; 23; 24]).

End PlotTrack.

(** * Properties *)

(** ** The result monad and list access *)

Lemma bind_Ok {A B : Type} (a : A) (k : A -> result B) : Ok a ≫= k = k a.
Proof. reflexivity. Qed.

Lemma mapM_ok {A B : Type} (f : A -> result B) (g : A -> B) (l : list A) :
  (forall x, In x l -> f x = Ok (g x)) ->
  mapM (M := result) f l = Ok (map g l).
Proof.
  induction l as [|x l IH]; intros Hf; simpl; [reflexivity|].
  rewrite (Hf x (or_introl eq_refl)). simpl.
  rewrite IH by (intros y Hy; apply Hf; right; exact Hy).
  reflexivity.
Qed.

Lemma lookup_or_raise_nth {A : Type} (d : A) (l : list A) (i : nat) :
  (i < length l)%nat -> lookup_or_raise l i = Ok (nth i l d).
Proof.
  intros Hi. unfold lookup_or_raise.
  destruct (nth_lookup_or_length l i d) as [->|Hge]; [reflexivity|lia].
Qed.

Lemma norm_index_of_nat (n i : nat) :
  (i < n)%nat -> norm_index n (Z.of_nat i) = Ok i.
Proof.
  intros Hi. unfold norm_index.
  replace (0 <=? Z.of_nat i) with true by (symmetry; apply Z.leb_le; lia).
  replace (Z.of_nat i <? Z.of_nat n) with true by (symmetry; apply Z.ltb_lt; lia).
  simpl. rewrite Nat2Z.id. reflexivity.
Qed.

Lemma wf2_row_length {A : Type} (a : ndarray2 A) (o : nat) :
  wf2 a -> (o < shape0 a)%nat -> length (nth o (rows2 a) []) = shape1 a.
Proof.
  intros [Hlen Hrows] Ho.
  rewrite List.Forall_forall in Hrows. apply Hrows.
  apply nth_In. lia.
Qed.

Lemma getitem2_cell {A : Type} (d : A) (a : ndarray2 A) (o k : nat) :
  wf2 a -> (o < shape0 a)%nat -> (k < shape1 a)%nat ->
  getitem2 a (Z.of_nat o) (Z.of_nat k) = Ok (cell d a o k).
Proof.
  intros Hwf Ho Hk. unfold getitem2, cell.
  rewrite !norm_index_of_nat by assumption. simpl.
  rewrite (lookup_or_raise_nth []) by (destruct Hwf; lia). simpl.
  apply lookup_or_raise_nth. rewrite wf2_row_length; assumption.
Qed.

Lemma column_nth {A : Type} (d : A) (a : ndarray2 A) (k : nat) :
  wf2 a -> (k < shape1 a)%nat ->
  column a (Z.of_nat k) = Ok (map (fun row => nth k row d) (rows2 a)).
Proof.
  intros [Hlen Hrows] Hk. unfold column.
  rewrite norm_index_of_nat by assumption. simpl.
  apply mapM_ok. intros row Hin.
  apply lookup_or_raise_nth.
  rewrite List.Forall_forall in Hrows. rewrite (Hrows row Hin). exact Hk.
Qed.

(** ** The mask *)

Lemma valid_mask_shape si sj fi fj :
  shape0 (valid_mask si sj fi fj) = shape0 si
  /\ shape1 (valid_mask si sj fi fj) = shape1 si.
Proof. split; reflexivity. Qed.

Lemma zip_with_nth {A B C : Type} (f : A -> B -> C) (da : A) (db : B) (dc : C)
    (la : list A) (lb : list B) (i : nat) :
  (i < length la)%nat -> (i < length lb)%nat ->
  nth i (zip_with f la lb) dc = f (nth i la da) (nth i lb db).
Proof.
  revert lb i. induction la as [|x la IH]; intros [|y lb] [|i] Ha Hb;
    simpl in *; try lia; [reflexivity|].
  apply IH; lia.
Qed.

Lemma map_nth_lt {A B : Type} (f : A -> B) (d : A) (d' : B) (l : list A) (i : nat) :
  (i < length l)%nat -> nth i (map f l) d' = f (nth i l d).
Proof.
  intros Hi. rewrite (nth_indep _ d' (f d)) by (rewrite length_map; exact Hi).
  apply map_nth.
Qed.

Lemma valid_mask_wf si sj fi fj :
  wf2 si -> wf2 sj -> shape0 sj = shape0 si -> shape1 sj = shape1 si ->
  wf2 (valid_mask si sj fi fj).
Proof.
  intros [Hli Hri] [Hlj Hrj] H0 H1. unfold wf2, valid_mask, mask_and, ne_scalar.
  cbn [rows2 shape0 shape1]. split.
  - rewrite length_zip_with, !length_map. lia.
  - rewrite List.Forall_forall. intros r Hin.
    apply (In_nth _ _ []) in Hin. destruct Hin as (o & Ho & <-).
    rewrite length_zip_with, !length_map in Ho.
    rewrite (zip_with_nth _ [] [] []) by (rewrite length_map; lia).
    rewrite length_zip_with.
    change [] with (map (differs fi) []) at 1.
    change [] with (map (differs fj) []) at 2.
    rewrite !map_nth, !length_map.
    rewrite List.Forall_forall in Hri, Hrj.
    rewrite (Hri (nth o (rows2 si) [])) by (apply nth_In; lia).
    rewrite (Hrj (nth o (rows2 sj) [])) by (apply nth_In; lia).
    lia.
Qed.

Lemma valid_mask_cell si sj fi fj (o k : nat) :
  wf2 si -> wf2 sj -> shape0 sj = shape0 si -> shape1 sj = shape1 si ->
  (o < shape0 si)%nat -> (k < shape1 si)%nat ->
  cell false (valid_mask si sj fi fj) o k = cell_valid si sj fi fj o k.
Proof.
  intros Hwi Hwj H0 H1 Ho Hk. unfold cell, cell_valid, valid_mask, mask_and, ne_scalar.
  cbn [rows2].
  assert (Hli : length (rows2 si) = shape0 si) by apply Hwi.
  assert (Hlj : length (rows2 sj) = shape0 sj) by apply Hwj.
  rewrite (zip_with_nth _ [] [] []) by (rewrite length_map; lia).
  change [] with (map (differs fi) []) at 1.
  change [] with (map (differs fj) []) at 2.
  rewrite !map_nth.
  assert (Hri : length (nth o (rows2 si) []) = shape1 si)
    by (apply wf2_row_length; assumption).
  assert (Hrj : length (nth o (rows2 sj) []) = shape1 sj)
    by (apply wf2_row_length; [assumption|lia]).
  rewrite (zip_with_nth _ true true false) by (rewrite length_map; lia).
  rewrite !(map_nth_lt _ 0) by lia.
  reflexivity.
Qed.

(** ** Per-slot counts *)

Lemma map_nth_seq {A : Type} (d : A) (l : list A) :
  map (fun i => nth i l d) (seq 0 (length l)) = l.
Proof.
  induction l as [|x l IH]; [reflexivity|].
  cbn [length seq map nth]. f_equal.
  rewrite <- seq_shift, map_map. exact IH.
Qed.

Lemma count_true_filter {A : Type} (f : A -> bool) (l : list A) :
  count_true (map f l) = Z.of_nat (length (List.filter f l)).
Proof.
  induction l as [|x l IH]; [reflexivity|].
  cbn [map count_true List.filter]. rewrite IH.
  destruct (f x); cbn [length]; lia.
Qed.

Lemma sum_axis0_valid_count si sj fi fj :
  wf2 si -> wf2 sj -> shape0 sj = shape0 si -> shape1 sj = shape1 si ->
  sum_axis0 (valid_mask si sj fi fj)
  = map (valid_count si sj fi fj) (seq 0 (shape1 si)).
Proof.
  intros Hwi Hwj H0 H1. unfold sum_axis0.
  destruct (valid_mask_shape si sj fi fj) as [Hs0 Hs1]. rewrite Hs1.
  apply map_ext_in. intros k Hk. apply in_seq in Hk.
  unfold valid_count. rewrite <- count_true_filter. f_equal.
  pose proof (valid_mask_wf si sj fi fj Hwi Hwj H0 H1) as [Hlen _].
  rewrite Hs0 in Hlen.
  rewrite <- (map_nth_seq [] (rows2 (valid_mask si sj fi fj))) at 1.
  rewrite Hlen, map_map.
  apply map_ext_in. intros o Ho. apply in_seq in Ho.
  apply (valid_mask_cell si sj fi fj o k); try assumption; lia.
Qed.

(** ** argmax *)

Lemma argmax_from_spec (l pre : list Z) (bi : nat) (b : Z) :
  (bi < length pre)%nat ->
  nth bi pre 0 = b ->
  (forall j, (j < length pre)%nat -> nth j pre 0 <= b) ->
  (forall j, (j < bi)%nat -> nth j pre 0 < b) ->
  let r := argmax_from bi b (length pre) l in
  (r < length (pre ++ l))%nat
  /\ (forall j, (j < length (pre ++ l))%nat -> nth j (pre ++ l) 0 <= nth r (pre ++ l) 0)
  /\ (forall j, (j < r)%nat -> nth j (pre ++ l) 0 < nth r (pre ++ l) 0).
Proof.
  revert pre bi b. induction l as [|x l IH]; intros pre bi b Hbi Hb Hmax Hfirst; cbn zeta.
  - cbn [argmax_from]. rewrite app_nil_r. rewrite Hb. auto.
  - cbn [argmax_from].
    assert (Happ : pre ++ x :: l = (pre ++ [x]) ++ l) by (rewrite <- app_assoc; reflexivity).
    assert (Hlen : length (pre ++ [x]) = S (length pre)) by (rewrite length_app; simpl; lia).
    rewrite Happ. rewrite <- Hlen.
    destruct (b <? x) eqn:Hlt.
    + apply Z.ltb_lt in Hlt.
      replace (length pre) with (length (pre ++ [x]) - 1)%nat at 1 by lia.
      rewrite Hlen. replace (S (length pre) - 1)%nat with (length pre) by lia.
      rewrite <- Hlen. apply IH.
      * lia.
      * rewrite app_nth2 by lia. rewrite Nat.sub_diag. reflexivity.
      * intros j Hj. rewrite Hlen in Hj.
        destruct (Nat.eq_dec j (length pre)) as [->|Hne].
        -- rewrite app_nth2 by lia. rewrite Nat.sub_diag. simpl. lia.
        -- rewrite app_nth1 by lia. specialize (Hmax j ltac:(lia)). lia.
      * intros j Hj. rewrite app_nth1 by lia. specialize (Hmax j ltac:(lia)). lia.
    + apply Z.ltb_ge in Hlt. apply IH.
      * lia.
      * rewrite app_nth1 by lia. exact Hb.
      * intros j Hj. rewrite Hlen in Hj.
        destruct (Nat.eq_dec j (length pre)) as [->|Hne].
        -- rewrite app_nth2 by lia. rewrite Nat.sub_diag. simpl. lia.
        -- rewrite app_nth1 by lia. apply Hmax. lia.
      * intros j Hj. rewrite app_nth1 by lia. apply Hfirst. exact Hj.
Qed.

Lemma argmax_spec (l : list Z) :
  l <> [] ->
  exists r, argmax l = Ok r
    /\ (r < length l)%nat
    /\ (forall j, (j < length l)%nat -> nth j l 0 <= nth r l 0)
    /\ (forall j, (j < r)%nat -> nth j l 0 < nth r l 0).
Proof.
  destruct l as [|x l]; [congruence|]. intros _.
  exists (argmax_from 0 x 1 l). split; [reflexivity|].
  apply (argmax_from_spec l [x] 0%nat x).
  - simpl. lia.
  - reflexivity.
  - intros [|j] Hj; simpl in *; lia.
  - intros j Hj. lia.
Qed.

(** ** where *)

Lemma where_from_spec (v : list bool) (i o : nat) :
  In o (where_from i v) <-> (i <= o)%nat /\ nth (o - i) v false = true /\ (o - i < length v)%nat.
Proof.
  revert i. induction v as [|b v IH]; intros i; cbn [where_from].
  - simpl. split; [tauto|]. intros (_ & _ & H). lia.
  - assert (Hrec : In o (where_from (S i) v) <->
                   (i < o)%nat /\ nth (o - i) (b :: v) false = true
                   /\ (o - i < length (b :: v))%nat).
    { rewrite IH. split.
      - intros (H1 & H2 & H3). replace (o - i)%nat with (S (o - S i)) by lia.
        simpl. split; [lia|]. split; [exact H2|lia].
      - intros (H1 & H2 & H3). replace (o - i)%nat with (S (o - S i)) in H2, H3 by lia.
        simpl in H2, H3. split; [lia|]. split; [exact H2|lia]. }
    destruct b.
    + cbn [In]. rewrite Hrec. split.
      * intros [<-|(H1 & H2 & H3)].
        -- rewrite Nat.sub_diag. simpl. split; [lia|]. split; [reflexivity|lia].
        -- split; [lia|]. split; assumption.
      * intros (H1 & H2 & H3).
        destruct (Nat.eq_dec i o) as [->|Hne]; [left; reflexivity|].
        right. split; [lia|]. split; assumption.
    + rewrite Hrec. split.
      * intros (H1 & H2 & H3). split; [lia|]. split; assumption.
      * intros (H1 & H2 & H3). split; [|split; assumption].
        destruct (Nat.eq_dec i o) as [->|Hne]; [|lia].
        rewrite Nat.sub_diag in H2. simpl in H2. discriminate.
Qed.

Lemma where_from_sorted (v : list bool) (i : nat) :
  StronglySorted lt (where_from i v).
Proof.
  revert i. induction v as [|b v IH]; intros i; cbn [where_from].
  - constructor.
  - destruct b; [|apply IH].
    constructor; [apply IH|].
    apply List.Forall_forall. intros o Ho. apply where_from_spec in Ho. lia.
Qed.

(** ** The selector *)

Lemma select_correct si sj (fill_i fill_j : option Z) :
  wf2 si -> wf2 sj -> shape0 sj = shape0 si -> shape1 sj = shape1 si ->
  (1 <= shape1 si)%nat ->
  exists k obs,
    select si sj fill_i fill_j = Ok (k, obs)
    /\ (k < shape1 si)%nat
    /\ (forall k', (k' < shape1 si)%nat ->
          valid_count si sj fill_i fill_j k' <= valid_count si sj fill_i fill_j k)
    /\ (forall k', (k' < k)%nat ->
          valid_count si sj fill_i fill_j k' < valid_count si sj fill_i fill_j k)
    /\ StronglySorted lt obs
    /\ (forall o, In o obs <->
          (o < shape0 si)%nat /\ cell_valid si sj fill_i fill_j o k = true).
Proof.
  intros Hwi Hwj H0 H1 HM. unfold select.
  rewrite sum_axis0_valid_count by assumption.
  set (counts := map (valid_count si sj fill_i fill_j) (seq 0 (shape1 si))).
  assert (Hlen : length counts = shape1 si)
    by (unfold counts; rewrite length_map, length_seq; reflexivity).
  assert (Hnth : forall j, (j < shape1 si)%nat ->
                   nth j counts 0 = valid_count si sj fill_i fill_j j).
  { intros j Hj. unfold counts.
    rewrite (map_nth_lt _ 0%nat) by (rewrite length_seq; exact Hj).
    rewrite seq_nth by exact Hj. reflexivity. }
  destruct (argmax_spec counts) as (k & Hk & Hlt & Hmax & Hfirst).
  { intros Hnil. rewrite Hnil in Hlen. simpl in Hlen. lia. }
  rewrite Hlen in Hlt, Hmax.
  pose proof (valid_mask_wf si sj fill_i fill_j Hwi Hwj H0 H1) as Hwm.
  exists k, (np_where (map (fun row => nth k row false)
                           (rows2 (valid_mask si sj fill_i fill_j)))).
  rewrite Hk, bind_Ok.
  rewrite (column_nth false) by (assumption || exact Hlt). rewrite bind_Ok.
  split; [reflexivity|]. split; [exact Hlt|]. split; [|split; [|split]].
  - intros k' Hk'. rewrite <- !Hnth by assumption. apply Hmax. exact Hk'.
  - intros k' Hk'. rewrite <- !Hnth by lia. apply Hfirst. exact Hk'.
  - apply where_from_sorted.
  - intros o. unfold np_where. rewrite where_from_spec.
    rewrite Nat.sub_0_r, length_map.
    destruct Hwm as [Hlm _]. rewrite Hlm. cbn [valid_mask mask_and shape0 ne_scalar].
    split.
    + intros (_ & Hv & Ho). split; [exact Ho|].
      rewrite <- (valid_mask_cell si sj fill_i fill_j o k) by assumption.
      unfold cell. rewrite (map_nth_lt _ []) in Hv by (rewrite Hlm; exact Ho).
      exact Hv.
    + intros (Ho & Hv). split; [lia|]. split; [|exact Ho].
      rewrite (map_nth_lt _ []) by (rewrite Hlm; exact Ho).
      rewrite <- (valid_mask_cell si sj fill_i fill_j o k) in Hv by assumption.
      exact Hv.
Qed.

(** ** The coordinate resolver and the assembler *)

Lemma select_inv si sj (fill_i fill_j : option Z) (k : nat) (obs : list nat) :
  wf2 si -> wf2 sj -> shape0 sj = shape0 si -> shape1 sj = shape1 si ->
  select si sj fill_i fill_j = Ok (k, obs) ->
  (k < shape1 si)%nat
  /\ (forall o, In o obs ->
        (o < shape0 si)%nat /\ cell_valid si sj fill_i fill_j o k = true).
Proof.
  intros Hwi Hwj H0 H1 Hsel.
  destruct (Nat.eq_dec (shape1 si) 0%nat) as [Hz|Hnz].
  - unfold select, sum_axis0 in Hsel.
    destruct (valid_mask_shape si sj fill_i fill_j) as [_ Hs1].
    rewrite Hs1, Hz in Hsel. discriminate Hsel.
  - destruct (select_correct si sj fill_i fill_j Hwi Hwj H0 H1 ltac:(lia))
      as (k' & obs' & Hsel' & Hk & _ & _ & _ & Hin).
    rewrite Hsel in Hsel'. injection Hsel' as -> ->.
    split; [exact Hk|]. intros o Ho. apply Hin. exact Ho.
Qed.

Lemma getitem2_cell_Z {A : Type} (d : A) (a : ndarray2 A) (r c : Z) :
  wf2 a -> 0 <= r < Z.of_nat (shape0 a) -> 0 <= c < Z.of_nat (shape1 a) ->
  getitem2 a r c = Ok (cell d a (Z.to_nat r) (Z.to_nat c)).
Proof.
  intros Hwf Hr Hc.
  rewrite <- (Z2Nat.id r) at 1 by lia. rewrite <- (Z2Nat.id c) at 1 by lia.
  apply getitem2_cell; [assumption|lia|lia].
Qed.

Lemma resolve_cell (d : float) si sj (geo_lon geo_lat : ndarray2 float) (obs k : nat) :
  wf2 si -> wf2 sj -> shape0 sj = shape0 si -> shape1 sj = shape1 si ->
  wf2 geo_lon -> wf2 geo_lat ->
  shape0 geo_lat = shape0 geo_lon -> shape1 geo_lat = shape1 geo_lon ->
  (obs < shape0 si)%nat -> (k < shape1 si)%nat ->
  0 <= cell 0 si obs k < Z.of_nat (shape1 geo_lon) ->
  0 <= cell 0 sj obs k < Z.of_nat (shape0 geo_lon) ->
  resolve si sj geo_lon geo_lat obs k
  = Ok (cell d geo_lon (Z.to_nat (cell 0 sj obs k)) (Z.to_nat (cell 0 si obs k)),
        cell d geo_lat (Z.to_nat (cell 0 sj obs k)) (Z.to_nat (cell 0 si obs k))).
Proof.
  intros Hwi Hwj H0 H1 Hwlon Hwlat Hr Hc Ho Hk Hi Hj. unfold resolve.
  rewrite (getitem2_cell 0 si) by assumption. rewrite bind_Ok.
  rewrite (getitem2_cell 0 sj) by (assumption || lia). rewrite bind_Ok.
  rewrite (getitem2_cell_Z d geo_lon) by (assumption || lia). rewrite bind_Ok.
  rewrite (getitem2_cell_Z d geo_lat) by (assumption || lia). rewrite bind_Ok.
  reflexivity.
Qed.

Lemma wf3_plane {A : Type} (a : ndarray3 A) (o : nat) :
  wf3 a -> (o < dim_ni a)%nat ->
  length (nth o (planes a) []) = dim_nj a
  /\ Forall (fun r => length r = dim_nk a) (nth o (planes a) []).
Proof.
  intros [Hlen Hp] Ho. rewrite List.Forall_forall in Hp.
  apply Hp. apply nth_In. lia.
Qed.

Lemma isel_slice3 {A : Type} (d : A) (a : ndarray3 A) (o k : nat) :
  wf3 a -> (o < dim_ni a)%nat -> (k < dim_nk a)%nat ->
  isel_ni_nk a (Z.of_nat o) (Z.of_nat k) = Ok (slice3 d a o k).
Proof.
  intros Hwf Ho Hk. unfold isel_ni_nk, slice3.
  rewrite !norm_index_of_nat by assumption. rewrite !bind_Ok.
  rewrite (lookup_or_raise_nth []) by (destruct Hwf; lia). rewrite bind_Ok.
  apply mapM_ok. intros row Hin. apply lookup_or_raise_nth.
  destruct (wf3_plane a o Hwf Ho) as [_ Hrows].
  rewrite List.Forall_forall in Hrows. rewrite (Hrows row Hin). exact Hk.
Qed.

Section MainFacts.

Variable format_2f : float -> string.
Variable strftime_ymd : datetime -> string.

Lemma plot_profile_ok (d : float) (ds : dataset) (k o : nat) :
  dataset_wf ds ->
  (o < shape0 (storm_grid_coord_i ds))%nat ->
  (k < shape1 (storm_grid_coord_i ds))%nat ->
  in_grid ds o k ->
  exists label,
    plot_profile format_2f ds k o
    = Ok (mk_curve (slice3 d (sea_surface_temperature ds) o k)
                   (slice3 d (observation_level_in_pressure ds) o k) label).
Proof.
  intros Hwf Ho Hk [Hi Hj]. destruct Hwf. unfold plot_profile.
  rewrite (isel_slice3 d (sea_surface_temperature ds)) by (assumption || lia).
  rewrite bind_Ok.
  rewrite (isel_slice3 d (observation_level_in_pressure ds)) by (assumption || lia).
  rewrite bind_Ok.
  rewrite (resolve_cell d) by assumption. rewrite bind_Ok.
  eexists. reflexivity.
Qed.

Lemma assemble_ok (d : float) (ds : dataset) (k : nat) (obs : list nat) :
  dataset_wf ds ->
  (k < shape1 (storm_grid_coord_i ds))%nat ->
  (forall o, In o obs ->
     (o < shape0 (storm_grid_coord_i ds))%nat /\ in_grid ds o k) ->
  exists curves,
    assemble format_2f ds k obs = Ok curves
    /\ map curve_x curves
       = map (fun o => slice3 d (sea_surface_temperature ds) o k) obs
    /\ map curve_y curves
       = map (fun o => slice3 d (observation_level_in_pressure ds) o k) obs.
Proof.
  intros Hwf Hk. unfold assemble.
  induction obs as [|o obs IH]; intros Hobs.
  - exists []. repeat split.
  - destruct (Hobs o (or_introl eq_refl)) as [Ho Hg].
    destruct (plot_profile_ok d ds k o Hwf Ho Hk Hg) as [label Hc].
    destruct IH as (curves & Hcs & Hx & Hy).
    { intros o' Ho'. apply Hobs. right. exact Ho'. }
    eexists. cbn [mapM]. rewrite Hc, bind_Ok, Hcs, bind_Ok.
    split; [reflexivity|]. cbn [map curve_x curve_y].
    rewrite Hx, Hy. split; reflexivity.
Qed.

End MainFacts.

(** ** Traversals in the result monad *)

Lemma mapM_length {A B : Type} (f : A -> result B) (l : list A) (r : list B) :
  mapM (M := result) f l = Ok r -> length r = length l.
Proof.
  revert r. induction l as [|x l IH]; intros r Hr; cbn [mapM] in Hr.
  - injection Hr as <-. reflexivity.
  - destruct (f x) as [y|e]; [|discriminate Hr]. rewrite bind_Ok in Hr.
    destruct (mapM f l) as [r'|e]; [|discriminate Hr]. rewrite bind_Ok in Hr.
    injection Hr as <-. simpl. f_equal. apply IH. reflexivity.
Qed.

Lemma mapM_lookup {A B : Type} (f : A -> result B) (l : list A) (r : list B)
    (n : nat) (x : A) :
  mapM (M := result) f l = Ok r -> l !! n = Some x ->
  exists y, f x = Ok y /\ r !! n = Some y.
Proof.
  revert r n. induction l as [|x' l IH]; intros r n Hr Hx; [discriminate Hx|].
  cbn [mapM] in Hr.
  destruct (f x') as [y'|e] eqn:Hfx; [|discriminate Hr]. rewrite bind_Ok in Hr.
  destruct (mapM f l) as [r'|e]; [|discriminate Hr]. rewrite bind_Ok in Hr.
  injection Hr as <-.
  destruct n as [|n]; simpl in Hx.
  - injection Hx as <-. exists y'. split; [exact Hfx|reflexivity].
  - apply (IH r' n eq_refl Hx).
Qed.

Lemma lookup_or_raise_Some {A : Type} (l : list A) (i : nat) (x : A) :
  l !! i = Some x -> lookup_or_raise l i = Ok x.
Proof. intros H. unfold lookup_or_raise. rewrite H. reflexivity. Qed.

Section MainFacts2.

Variable format_2f : float -> string.
Variable strftime_ymd : datetime -> string.

Lemma main_steps (prefix : string) (ds : dataset) times k slots curves t :
  decode_times (time_values ds) (time_attrs ds !! fill_key) = Ok times ->
  select (storm_grid_coord_i ds) (storm_grid_coord_j ds)
    (storm_grid_coord_i_attrs ds !! fill_key)
    (storm_grid_coord_j_attrs ds !! fill_key) = Ok (k, slots) ->
  assemble format_2f ds k slots = Ok curves ->
  times !! k = Some t ->
  main format_2f strftime_ymd prefix ds
  = Ok (mk_figure curves (200, 0) "Temperature (°C)" "Pressure (dbar)"
          (prefix +:+ ": " +:+ pretty (length slots) +:+ " profiles on "
           +:+ match t with Some d => strftime_ymd d | None => "unknown_date" end)
          [prefix +:+ "_profiles.pdf"; prefix +:+ "_profiles.png"]).
Proof.
  intros Ht Hs Ha Hk. unfold main.
  rewrite Ht, bind_Ok, Hs, bind_Ok, Ha, bind_Ok.
  rewrite (lookup_or_raise_Some _ _ _ Hk), bind_Ok. reflexivity.
Qed.

End MainFacts2.

(** * The collocation selector *)

(** C1. On equal-shaped index arrays with at least one slot and sentinels
    [fill_i], [fill_j], the selector returns a slot whose count of valid
    cells is at least every slot's count and strictly above the count of
    every earlier slot (the smallest slot among the maxima), with the
    observations valid at that slot in ascending order. *)
Theorem select_first_max (si sj : ndarray2 Z) (fill_i fill_j : Z) :
  wf2 si -> wf2 sj -> shape0 sj = shape0 si -> shape1 sj = shape1 si ->
  (1 <= shape1 si)%nat ->
  exists k obs,
    select si sj (Some fill_i) (Some fill_j) = Ok (k, obs)
    /\ (k < shape1 si)%nat
    /\ (forall k', (k' < shape1 si)%nat ->
          valid_count si sj (Some fill_i) (Some fill_j) k'
          <= valid_count si sj (Some fill_i) (Some fill_j) k)
    /\ (forall k', (k' < k)%nat ->
          valid_count si sj (Some fill_i) (Some fill_j) k'
          < valid_count si sj (Some fill_i) (Some fill_j) k)
    /\ StronglySorted lt obs
    /\ (forall o, In o obs <->
          (o < shape0 si)%nat
          /\ negb (cell 0 si o k =? fill_i) && negb (cell 0 sj o k =? fill_j) = true).
Proof.
  intros Hwi Hwj H0 H1 HM.
  exact (select_correct si sj (Some fill_i) (Some fill_j) Hwi Hwj H0 H1 HM).
Qed.

Lemma select_first_max_witness :
  exists k obs,
    select grid_A grid_A_j (Some (-1)) (Some (-1)) = Ok (k, obs)
    /\ (k < 2)%nat
    /\ (forall k', (k' < 2)%nat ->
          valid_count grid_A grid_A_j (Some (-1)) (Some (-1)) k'
          <= valid_count grid_A grid_A_j (Some (-1)) (Some (-1)) k)
    /\ (forall k', (k' < k)%nat ->
          valid_count grid_A grid_A_j (Some (-1)) (Some (-1)) k'
          < valid_count grid_A grid_A_j (Some (-1)) (Some (-1)) k)
    /\ StronglySorted lt obs
    /\ (forall o, In o obs <->
          (o < 2)%nat
          /\ negb (cell 0 grid_A o k =? -1) && negb (cell 0 grid_A_j o k =? -1) = true).
Proof.
  apply (select_first_max grid_A grid_A_j (-1) (-1)).
  - split; [reflexivity|repeat constructor].
  - split; [reflexivity|repeat constructor].
  - reflexivity.
  - reflexivity.
  - simpl. lia.
Defined.

(** Scenario A of the specification: both slots hold one valid
    observation, and the tie goes to slot 0. *)
Example select_scenario_A :
  select grid_A grid_A (Some (-1)) (Some (-1)) = Ok (0%nat, [0%nat]).
Proof. reflexivity. Qed.

(** * The coordinate resolver *)

(** C2. For an observation and slot chosen by the selector whose stored
    indices i, j lie in the geographic grid, the resolver returns exactly
    (geo_lon[j, i], geo_lat[j, i]): row j, column i. *)
Theorem resolve_row_j_column_i (d : float) (si sj : ndarray2 Z)
    (fill_i fill_j : option Z) (geo_lon geo_lat : ndarray2 float)
    (k : nat) (obs : list nat) (o : nat) :
  wf2 si -> wf2 sj -> shape0 sj = shape0 si -> shape1 sj = shape1 si ->
  wf2 geo_lon -> wf2 geo_lat ->
  shape0 geo_lat = shape0 geo_lon -> shape1 geo_lat = shape1 geo_lon ->
  select si sj fill_i fill_j = Ok (k, obs) ->
  In o obs ->
  0 <= cell 0 si o k < Z.of_nat (shape1 geo_lon) ->
  0 <= cell 0 sj o k < Z.of_nat (shape0 geo_lon) ->
  resolve si sj geo_lon geo_lat o k
  = Ok (cell d geo_lon (Z.to_nat (cell 0 sj o k)) (Z.to_nat (cell 0 si o k)),
        cell d geo_lat (Z.to_nat (cell 0 sj o k)) (Z.to_nat (cell 0 si o k))).
Proof.
  intros Hwi Hwj H0 H1 Hwlon Hwlat Hr Hc Hsel Ho Hi Hj.
  destruct (select_inv si sj fill_i fill_j k obs Hwi Hwj H0 H1 Hsel) as [Hk Hobs].
  destruct (Hobs o Ho) as [Hlt _].
  apply resolve_cell; assumption.
Qed.

Lemma resolve_row_j_column_i_witness :
  resolve grid_A grid_A_j (geo 0) (geo 500) 0 0
  = Ok (of_int 35, of_int 535).
Proof.
  apply (resolve_row_j_column_i S754_nan grid_A grid_A_j (Some (-1)) (Some (-1))
           (geo 0) (geo 500) 0%nat [0%nat] 0%nat).
  - split; [reflexivity|repeat constructor].
  - split; [reflexivity|repeat constructor].
  - reflexivity.
  - reflexivity.
  - split; [reflexivity|repeat constructor].
  - split; [reflexivity|repeat constructor].
  - reflexivity.
  - reflexivity.
  - reflexivity.
  - simpl. left. reflexivity.
  - vm_compute. split; [discriminate|reflexivity].
  - vm_compute. split; [discriminate|reflexivity].
Defined.

(** On the sample grid the stored pair is i = 5, j = 3: the resolver reads
    row 3, column 5, and the cell at row 5, column 3 holds another value. *)
Example resolve_axes_sample :
  resolve grid_A grid_A_j (geo 0) (geo 500) 0 0 = Ok (of_int 35, of_int 535)
  /\ cell S754_nan (geo 0) 5 3 = of_int 53
  /\ of_int 35 <> of_int 53.
Proof. split; [reflexivity|]. split; [reflexivity|]. vm_compute. discriminate. Qed.

(** * Absent and all-sentinel fill values *)

Lemma count_true_all_false (l : list bool) :
  (forall b, In b l -> b = false) -> count_true l = 0.
Proof.
  induction l as [|b l IH]; intros Hl; [reflexivity|].
  cbn [count_true]. rewrite (Hl b (or_introl eq_refl)).
  rewrite IH; [reflexivity|]. intros b' Hb'. apply Hl. right. exact Hb'.
Qed.

Section Pipeline.

Variable format_2f : float -> string.
Variable strftime_ymd : datetime -> string.

(** C4. When every cell of both index arrays equals its sentinel, the
    selector returns slot 0 with no observation, and [main] completes
    with no curve and a title that reads "0 profiles". *)
Theorem all_sentinel_zero_profiles (prefix : string) (ds : dataset)
    (fill_i fill_j : Z) (times : list (option datetime)) :
  dataset_wf ds ->
  (1 <= shape1 (storm_grid_coord_i ds))%nat ->
  storm_grid_coord_i_attrs ds !! fill_key = Some fill_i ->
  storm_grid_coord_j_attrs ds !! fill_key = Some fill_j ->
  (forall o k, (o < shape0 (storm_grid_coord_i ds))%nat ->
               (k < shape1 (storm_grid_coord_i ds))%nat ->
               cell 0 (storm_grid_coord_i ds) o k = fill_i
               /\ cell 0 (storm_grid_coord_j ds) o k = fill_j) ->
  decode_times (time_values ds) (time_attrs ds !! fill_key) = Ok times ->
  select (storm_grid_coord_i ds) (storm_grid_coord_j ds)
    (Some fill_i) (Some fill_j) = Ok (0%nat, [])
  /\ exists fig date_str,
       main format_2f strftime_ymd prefix ds = Ok fig
       /\ fig_curves fig = []
       /\ fig_title fig = prefix +:+ ": 0 profiles on " +:+ date_str.
Proof.
  intros Hwf HM Hfi Hfj Hall Htimes.
  set (si := storm_grid_coord_i ds) in *. set (sj := storm_grid_coord_j ds) in *.
  assert (Hinvalid : forall o k, (o < shape0 si)%nat -> (k < shape1 si)%nat ->
             cell_valid si sj (Some fill_i) (Some fill_j) o k = false).
  { intros o k Ho Hk. destruct (Hall o k Ho Hk) as [Hi _].
    unfold cell_valid, differs. rewrite Hi, Z.eqb_refl. reflexivity. }
  assert (Hcount : forall k, (k < shape1 si)%nat ->
             valid_count si sj (Some fill_i) (Some fill_j) k = 0).
  { intros k Hk. unfold valid_count. rewrite <- count_true_filter. apply count_true_all_false.
    intros b Hb. apply in_map_iff in Hb. destruct Hb as (o & <- & Ho).
    apply in_seq in Ho. apply Hinvalid; [lia|exact Hk]. }
  destruct (select_correct si sj (Some fill_i) (Some fill_j))
    as (k & obs & Hsel & Hk & _ & Hfirst & _ & Hin);
    try (apply Hwf); [exact HM|].
  assert (Hk0 : k = 0%nat).
  { destruct k as [|k]; [reflexivity|].
    specialize (Hfirst 0%nat ltac:(lia)).
    rewrite !Hcount in Hfirst by lia. lia. }
  assert (Hobs : obs = []).
  { destruct obs as [|o obs]; [reflexivity|].
    destruct (proj1 (Hin o) (or_introl eq_refl)) as [Ho Hv].
    rewrite Hinvalid in Hv by assumption. discriminate Hv. }
  subst k obs. split; [exact Hsel|].
  assert (Hlen : length times = shape1 si).
  { unfold decode_times in Htimes. apply mapM_length in Htimes.
    rewrite Htimes. apply Hwf. }
  destruct (times !! 0%nat) as [t|] eqn:Ht.
  2:{ apply lookup_ge_None in Ht. lia. }
  eexists. exists (match t with Some d => strftime_ymd d | None => "unknown_date" end).
  split.
  - apply (main_steps format_2f strftime_ymd prefix ds times 0%nat [] [] t).
    + exact Htimes.
    + fold si sj. rewrite Hfi, Hfj. exact Hsel.
    + reflexivity.
    + exact Ht.
  - split; reflexivity.
Qed.

(** C6. For a selection produced by the selector (whose cells address
    the geographic grid) the assembler emits one curve per selected
    observation, in the selector's order, whose quantity and vertical
    sequences are the unmodified slices at (observation, slot). *)
Theorem assemble_passthrough (d : float) (ds : dataset)
    (fill_i fill_j : option Z) (k : nat) (obs : list nat) :
  dataset_wf ds ->
  select (storm_grid_coord_i ds) (storm_grid_coord_j ds) fill_i fill_j
    = Ok (k, obs) ->
  (forall o, In o obs -> in_grid ds o k) ->
  exists curves,
    assemble format_2f ds k obs = Ok curves
    /\ length curves = length obs
    /\ map curve_x curves
       = map (fun o => slice3 d (sea_surface_temperature ds) o k) obs
    /\ map curve_y curves
       = map (fun o => slice3 d (observation_level_in_pressure ds) o k) obs.
Proof.
  intros Hwf Hsel Hgrid.
  destruct (select_inv _ _ fill_i fill_j k obs
              (wf_si ds Hwf) (wf_sj ds Hwf) (wf_sj_ni ds Hwf) (wf_sj_nk ds Hwf) Hsel)
    as [Hk Hobs].
  destruct (assemble_ok format_2f d ds k obs Hwf Hk) as (curves & Hc & Hx & Hy).
  { intros o Ho. split; [apply (Hobs o Ho)|apply (Hgrid o Ho)]. }
  exists curves. split; [exact Hc|]. split; [|split; assumption].
  rewrite <- (length_map curve_x), Hx, length_map. reflexivity.
Qed.

End Pipeline.

(** C5. When the fill-value attribute of an index array is absent, every
    cell of that array counts as non-sentinel: validity of a cell is then
    decided by the other array alone, and with both attributes absent
    every cell is valid. *)
Theorem absent_fill_all_valid (a b : ndarray2 Z) (attrs_a attrs_b : gmap string Z)
    (o k : nat) :
  wf2 a -> wf2 b -> shape0 b = shape0 a -> shape1 b = shape1 a ->
  (o < shape0 a)%nat -> (k < shape1 a)%nat ->
  attrs_a !! fill_key = None ->
  cell false (ne_scalar a (attrs_a !! fill_key)) o k = true
  /\ cell false (valid_mask a b (attrs_a !! fill_key) (attrs_b !! fill_key)) o k
     = differs (attrs_b !! fill_key) (cell 0 b o k)
  /\ cell false (valid_mask b a (attrs_b !! fill_key) (attrs_a !! fill_key)) o k
     = differs (attrs_b !! fill_key) (cell 0 b o k)
  /\ (attrs_b !! fill_key = None ->
      cell false (valid_mask a b (attrs_a !! fill_key) (attrs_b !! fill_key)) o k
      = true).
Proof.
  intros Hwa Hwb H0 H1 Ho Hk Hnone. rewrite Hnone.
  split; [|split; [|split]].
  - unfold cell, ne_scalar. cbn [rows2].
    rewrite (map_nth_lt _ []) by (destruct Hwa; lia).
    rewrite (map_nth_lt _ 0) by (rewrite wf2_row_length; assumption).
    reflexivity.
  - rewrite valid_mask_cell by assumption. reflexivity.
  - rewrite valid_mask_cell by (assumption || lia || (symmetry; assumption)).
    unfold cell_valid. cbn [differs]. apply andb_true_r.
  - intros ->. rewrite valid_mask_cell by assumption. reflexivity.
Qed.

Lemma absent_fill_all_valid_witness :
  cell false (ne_scalar grid_A (attrs_conventional !! fill_key)) 0 1 = true
  /\ cell false (valid_mask grid_A grid_A_j (attrs_conventional !! fill_key)
                   (attrs_conventional !! fill_key)) 0 1
     = differs (attrs_conventional !! fill_key) (cell 0 grid_A_j 0 1)
  /\ cell false (valid_mask grid_A_j grid_A (attrs_conventional !! fill_key)
                   (attrs_conventional !! fill_key)) 0 1
     = differs (attrs_conventional !! fill_key) (cell 0 grid_A_j 0 1)
  /\ (attrs_conventional !! fill_key = None ->
      cell false (valid_mask grid_A grid_A_j (attrs_conventional !! fill_key)
                    (attrs_conventional !! fill_key)) 0 1
      = true).
Proof.
  apply (absent_fill_all_valid grid_A grid_A_j attrs_conventional
           attrs_conventional 0%nat 1%nat).
  - split; [reflexivity|repeat constructor].
  - split; [reflexivity|repeat constructor].
  - reflexivity.
  - reflexivity.
  - simpl. lia.
  - simpl. lia.
  - vm_compute. reflexivity.
Defined.

(** * The time decoder: rejected inputs *)

Lemma datetime_jan1_nonpos (year : Z) :
  year <= 0 -> exists e, datetime_jan1 year = Err e.
Proof.
  intros Hy. unfold datetime_jan1.
  destruct ((year <? - INT_MAX - 1) || (INT_MAX <? year)); [eexists; reflexivity|].
  replace (MINYEAR <=? year) with false
    by (symmetry; apply Z.leb_gt; unfold MINYEAR; lia).
  eexists. reflexivity.
Qed.

(** C7. A negative or non-finite year fraction is rejected: the decoder
    raises instead of returning a date. *)
Theorem decode_rejects_negative_nonfinite (year_frac : float) :
  is_finite year_frac = false \/ ltb year_frac (S754_zero false) = true ->
  exists e, fractional_year_to_datetime year_frac = Err e.
Proof.
  intros H. unfold fractional_year_to_datetime.
  destruct year_frac as [s|s| |s m e].
  - destruct H as [H|H]; [discriminate H|]. destruct s; discriminate H.
  - eexists. reflexivity.
  - eexists. reflexivity.
  - destruct H as [H|H]; [discriminate H|].
    destruct s; [|discriminate H].
    cbn [to_int cond_Zopp]. rewrite bind_Ok.
    destruct (datetime_jan1_nonpos (- Z.shiftl (Z.pos m) e)) as [err Herr].
    { pose proof (proj2 (Z.shiftl_nonneg (Z.pos m) e)) as Hn. lia. }
    rewrite Herr. eexists. reflexivity.
Qed.

Lemma decode_rejects_negative_nonfinite_witness :
  exists e, fractional_year_to_datetime (of_dyadic (-3) (-1)) = Err e.
Proof.
  apply (decode_rejects_negative_nonfinite (of_dyadic (-3) (-1))).
  right. vm_compute. reflexivity.
Defined.

(** * Sentinels in the time series and the fill-value key *)

Section Sentinels.

Variable format_2f : float -> string.
Variable strftime_ymd : datetime -> string.



End Sentinels.

(** * Instances on the sample datasets *)

Ltac solve_shape :=
  first [ reflexivity
        | split; [reflexivity | repeat constructor] ].

Ltac solve_dataset_wf := constructor; solve_shape.

Ltac enum_cells o k :=
  destruct o as [|[|o]]; destruct k as [|[|k]]; cbn in *; try lia.

Lemma all_sentinel_zero_profiles_witness :
  select grid_all_fill grid_all_fill (Some (-1)) (Some (-1)) = Ok (0%nat, [])
  /\ exists fig date_str,
       main sample_format sample_strftime "storm" ds_all_fill = Ok fig
       /\ fig_curves fig = []
       /\ fig_title fig = "storm" +:+ ": 0 profiles on " +:+ date_str.
Proof.
  apply (all_sentinel_zero_profiles sample_format sample_strftime "storm"
           ds_all_fill (-1) (-1) times_sample).
  - solve_dataset_wf.
  - simpl. lia.
  - vm_compute. reflexivity.
  - vm_compute. reflexivity.
  - intros o k Ho Hk. enum_cells o k; split; reflexivity.
  - vm_compute. reflexivity.
Defined.

Lemma assemble_passthrough_witness :
  exists curves,
    assemble sample_format ds_A 0 [0%nat] = Ok curves
    /\ length curves = 1%nat
    /\ map curve_x curves = [[of_int 0; of_int 10; of_int 20]]
    /\ map curve_y curves = [[of_int 1000; of_int 1010; of_int 1020]].
Proof.
  apply (assemble_passthrough sample_format S754_nan ds_A
           (Some (-1)) (Some (-1)) 0%nat [0%nat]).
  - solve_dataset_wf.
  - vm_compute. reflexivity.
  - intros o [<-|[]]. vm_compute. repeat split; discriminate.
Defined.


(** * Real values of binary64 floats *)

Lemma bpow_gt_0 (e : Z) : (0 < bpow e)%R.
Proof. apply powerRZ_lt. lra. Qed.

Lemma bpow_add (a b : Z) : bpow (a + b) = (bpow a * bpow b)%R.
Proof. apply powerRZ_add. lra. Qed.

Lemma bpow_0 : bpow 0 = 1%R.
Proof. reflexivity. Qed.

Lemma bpow_1 : bpow 1 = 2%R.
Proof. unfold bpow. simpl. lra. Qed.

Lemma bpow_IZR (n : Z) : 0 <= n -> bpow n = IZR (2 ^ n).
Proof.
  intros Hn. unfold bpow. destruct n as [|p|p]; [reflexivity| |lia].
  rewrite <- Zpower_pos_powerRZ. reflexivity.
Qed.

Lemma bpow_ge_1 (n : Z) : 0 <= n -> (1 <= bpow n)%R.
Proof.
  intros Hn. rewrite bpow_IZR by exact Hn. apply IZR_le.
  pose proof (Z.pow_pos_nonneg 2 n ltac:(lia) Hn). lia.
Qed.

Lemma bpow_le (a b : Z) : a <= b -> (bpow a <= bpow b)%R.
Proof.
  intros Hab. replace b with (a + (b - a)) by lia. rewrite bpow_add.
  pose proof (bpow_gt_0 a). pose proof (bpow_ge_1 (b - a) ltac:(lia)). nra.
Qed.

Lemma bpow_lt (a b : Z) : a < b -> (bpow a < bpow b)%R.
Proof.
  intros Hab. replace b with (a + 1 + (b - a - 1)) by lia. rewrite !bpow_add.
  pose proof (bpow_gt_0 a). pose proof (bpow_ge_1 (b - a - 1) ltac:(lia)).
  rewrite bpow_1. nra.
Qed.

Lemma bpow_lt_inv (a b : Z) : (bpow a < bpow b)%R -> a < b.
Proof.
  intros H. destruct (Z_lt_le_dec a b) as [Hlt|Hle]; [exact Hlt|].
  apply bpow_le in Hle. lra.
Qed.

Lemma bpow_opp (a : Z) : (bpow (- a) * bpow a = 1)%R.
Proof. rewrite <- bpow_add. replace (- a + a) with 0 by lia. reflexivity. Qed.

Lemma F2R_scale (m e n : Z) : 0 <= n -> F2R (m * 2 ^ n) e = F2R m (e + n).
Proof.
  intros Hn. unfold F2R. rewrite mult_IZR, <- bpow_IZR by exact Hn.
  rewrite bpow_add. ring.
Qed.

Lemma F2R_le (m1 m2 e : Z) : m1 <= m2 -> (F2R m1 e <= F2R m2 e)%R.
Proof.
  intros H. unfold F2R. apply IZR_le in H. pose proof (bpow_gt_0 e). nra.
Qed.

Lemma F2R_lt (m1 m2 e : Z) : m1 < m2 -> (F2R m1 e < F2R m2 e)%R.
Proof.
  intros H. unfold F2R. apply IZR_lt in H. pose proof (bpow_gt_0 e). nra.
Qed.

Lemma F2R_le_inv (m1 m2 e : Z) : (F2R m1 e <= F2R m2 e)%R -> m1 <= m2.
Proof.
  intros H. destruct (Z_lt_le_dec m2 m1) as [Hlt|Hle]; [|exact Hle].
  apply (F2R_lt _ _ e) in Hlt. lra.
Qed.

Lemma F2R_lt_inv (m1 m2 e : Z) : (F2R m1 e < F2R m2 e)%R -> m1 < m2.
Proof.
  intros H. destruct (Z_lt_le_dec m1 m2) as [Hlt|Hle]; [exact Hlt|].
  apply (F2R_le _ _ e) in Hle. lra.
Qed.

Lemma F2R_0 (e : Z) : F2R 0 e = 0%R.
Proof. unfold F2R. ring. Qed.

Lemma F2R_bpow (n e : Z) : 0 <= n -> F2R (2 ^ n) e = bpow (n + e).
Proof. intros Hn. unfold F2R. rewrite <- bpow_IZR by exact Hn. rewrite bpow_add. ring. Qed.

(** ** Digits *)

Lemma digits2_pos_size (m : positive) : digits2_pos m = Pos.size m.
Proof. induction m; simpl; congruence. Qed.

Lemma digits_bounds (m : positive) :
  2 ^ (digits m - 1) <= Zpos m < 2 ^ digits m.
Proof.
  unfold digits. rewrite digits2_pos_size. split.
  - pose proof (Pos.size_le m) as H.
    assert (H2 : 2 ^ Zpos (Pos.size m) <= 2 * Zpos m).
    { rewrite <- Pos2Z.inj_pow. change (2 * Zpos m) with (Zpos m~0). exact H. }
    replace (Zpos (Pos.size m)) with (Zpos (Pos.size m) - 1 + 1) in H2 by lia.
    rewrite Z.pow_add_r in H2 by lia. change (2 ^ 1) with 2 in H2. lia.
  - pose proof (Pos.size_gt m) as H. rewrite <- Pos2Z.inj_pow. exact H.
Qed.

Lemma digits_pos (m : positive) : 0 < digits m.
Proof. unfold digits. lia. Qed.

(** The magnitude of [m * 2^e] is [digits m + e]. *)
Lemma mag_bounds (m : positive) (e : Z) :
  (bpow (digits m + e - 1) <= F2R (Zpos m) e < bpow (digits m + e))%R.
Proof.
  pose proof (digits_bounds m) as [Hlo Hhi]. pose proof (digits_pos m).
  split.
  - replace (digits m + e - 1) with ((digits m - 1) + e) by lia.
    rewrite <- F2R_bpow by lia. apply F2R_le. exact Hlo.
  - rewrite <- F2R_bpow by lia. apply F2R_lt. exact Hhi.
Qed.

Lemma mag_le (m1 m2 : positive) (e1 e2 : Z) :
  (F2R (Zpos m1) e1 <= F2R (Zpos m2) e2)%R -> digits m1 + e1 <= digits m2 + e2.
Proof.
  intros H. pose proof (mag_bounds m1 e1) as [H1 _].
  pose proof (mag_bounds m2 e2) as [_ H2].
  assert (Hlt : (bpow (digits m1 + e1 - 1) < bpow (digits m2 + e2))%R) by lra.
  apply bpow_lt_inv in Hlt. lia.
Qed.

Lemma digits_unique (m : positive) (d : Z) :
  2 ^ (d - 1) <= Zpos m < 2 ^ d -> 0 < d -> digits m = d.
Proof.
  intros [Hlo Hhi] Hd. pose proof (digits_bounds m) as [Hlo' Hhi'].
  pose proof (digits_pos m).
  destruct (Z.lt_trichotomy (digits m) d) as [Hlt|[Heq|Hgt]]; [|exact Heq|].
  - assert (2 ^ digits m <= 2 ^ (d - 1)) by (apply Z.pow_le_mono_r; lia). lia.
  - assert (2 ^ d <= 2 ^ (digits m - 1)) by (apply Z.pow_le_mono_r; lia). lia.
Qed.

(** ** Right shifts with round and sticky bits *)

Lemma iter_pos_nat {A : Type} (f : A -> A) (p : positive) (x : A) :
  SpecFloat.iter_pos f p x = Nat.iter (Pos.to_nat p) f x.
Proof.
  revert x. induction p as [p IH|p IH|]; intros x; cbn [SpecFloat.iter_pos].
  - rewrite !IH. rewrite Pos2Nat.inj_xI.
    replace (S (2 * Pos.to_nat p)) with (Pos.to_nat p + (Pos.to_nat p + 1))%nat by lia.
    rewrite !Nat.iter_add. reflexivity.
  - rewrite !IH. rewrite Pos2Nat.inj_xO.
    replace (2 * Pos.to_nat p)%nat with (Pos.to_nat p + Pos.to_nat p)%nat by lia.
    rewrite Nat.iter_add. reflexivity.
  - reflexivity.
Qed.

Lemma shr_1_nonneg (m : Z) (r s : bool) :
  0 <= m ->
  shr_1 (Build_shr_record m r s) = Build_shr_record (m / 2) (Z.odd m) (r || s).
Proof.
  intros Hm. rewrite <- Z.div2_div.
  destruct m as [|p|p]; [reflexivity| |lia].
  destruct p; reflexivity.
Qed.

Lemma loc_of_shr_record_exact (mrs : shr_record) :
  loc_of_shr_record mrs = loc_Exact <-> shr_r mrs || shr_s mrs = false.
Proof. destruct mrs as [m [|] [|]]; simpl; split; congruence. Qed.

Lemma shr_iter_spec (n : nat) (m : Z) :
  0 <= m ->
  let mrs := Nat.iter n shr_1 (Build_shr_record m false false) in
  shr_m mrs = m / 2 ^ Z.of_nat n
  /\ loc_of_shr_record mrs = loc_of (m mod 2 ^ Z.of_nat n) (2 ^ Z.of_nat n).
Proof.
  intros Hm. induction n as [|n IH]; cbn zeta.
  - simpl. rewrite Z.div_1_r, Z.mod_1_r. split; reflexivity.
  - rewrite Nat.iter_succ. cbn zeta in IH.
    destruct (Nat.iter n shr_1 (Build_shr_record m false false)) as [M r s] eqn:Hit.
    cbn [shr_m] in IH. destruct IH as [HM Hloc].
    assert (Hp : 0 < 2 ^ Z.of_nat n) by (apply Z.pow_pos_nonneg; lia).
    assert (HM0 : 0 <= M) by (rewrite HM; apply Z.div_pos; lia).
    rewrite shr_1_nonneg by exact HM0. cbn [shr_m].
    rewrite Nat2Z.inj_succ, Z.pow_succ_r by lia.
    assert (Hdiv : M / 2 = m / (2 * 2 ^ Z.of_nat n)).
    { rewrite HM, Z.div_div by lia. f_equal. lia. }
    assert (Hmod : m mod (2 * 2 ^ Z.of_nat n)
                   = m mod 2 ^ Z.of_nat n + 2 ^ Z.of_nat n * (M mod 2)).
    { rewrite HM. rewrite (Z.mul_comm 2). apply Z.rem_mul_r; lia. }
    split; [exact Hdiv|].
    rewrite Hmod.
    pose proof (Z.mod_pos_bound m (2 ^ Z.of_nat n) Hp) as Hr.
    set (r0 := m mod 2 ^ Z.of_nat n) in *.
    assert (Hs : r || s = negb (r0 =? 0)).
    { unfold loc_of in Hloc. destruct (r0 =? 0) eqn:Hz.
      - apply loc_of_shr_record_exact in Hloc. exact Hloc.
      - destruct r, s; simpl in *; try reflexivity. discriminate Hloc. }
    rewrite Hs. rewrite Zmod_odd. unfold loc_of.
    destruct (Z.odd M); destruct (r0 =? 0) eqn:Hz; cbn [negb loc_of_shr_record];
      [apply Z.eqb_eq in Hz|apply Z.eqb_neq in Hz
      |apply Z.eqb_eq in Hz|apply Z.eqb_neq in Hz];
      match goal with
      | |- _ = (if ?c then _ else _) => destruct c eqn:Hc
      end;
      try (apply Z.eqb_eq in Hc; lia); try reflexivity;
      apply Z.eqb_neq in Hc; try lia; f_equal; symmetry.
    + apply Z.compare_eq_iff. lia.
    + apply Z.compare_gt_iff. lia.
    + apply Z.compare_lt_iff. lia.
Qed.

Lemma shr_spec (m e n : Z) :
  0 <= m -> 0 < n ->
  exists mrs,
    shr (Build_shr_record m false false) e n = (mrs, e + n)
    /\ shr_m mrs = m / 2 ^ n
    /\ loc_of_shr_record mrs = loc_of (m mod 2 ^ n) (2 ^ n).
Proof.
  intros Hm Hn. destruct n as [|p|p]; try lia.
  unfold shr. rewrite iter_pos_nat. eexists. split; [reflexivity|].
  rewrite <- (positive_nat_Z p). apply shr_iter_spec. exact Hm.
Qed.

(** ** Round to nearest, ties to even, on integers *)

Lemma is_rne_mono (x y : R) (K L : Z) :
  (x <= y)%R -> is_rne x K -> is_rne y L -> K <= L.
Proof.
  intros Hxy [[HK1 HK2] HKe] [[HL1 HL2] HLe].
  destruct (Z_lt_le_dec L K) as [Hlt|Hle]; [|exact Hle]. exfalso.
  assert (H1 : (IZR L + 1 <= IZR K)%R).
  { rewrite <- plus_IZR. apply IZR_le. lia. }
  assert (HKv : IZR K = (x + 1 / 2)%R) by lra.
  assert (HLv : IZR L = (y - 1 / 2)%R) by lra.
  assert (HKL : K = L + 1).
  { apply eq_IZR. rewrite plus_IZR. lra. }
  specialize (HKe (or_intror HKv)). specialize (HLe (or_introl HLv)).
  rewrite HKL, Z.even_add, HLe in HKe. discriminate HKe.
Qed.

Lemma is_rne_IZR (z : Z) : is_rne (IZR z) z.
Proof. split; [lra|]. intros [H|H]; lra. Qed.

Lemma round_nearest_even_loc_of (q r d : Z) :
  round_nearest_even q (loc_of r d)
  = if r =? 0 then q
    else match 2 * r ?= d with
         | Lt => q
         | Eq => if Z.even q then q else q + 1
         | Gt => q + 1
         end.
Proof.
  unfold loc_of. destruct (r =? 0); [reflexivity|].
  destruct (2 * r ?= d); reflexivity.
Qed.

Lemma rne_div_is_rne (m n : Z) (x : R) :
  0 <= n -> (x * IZR (2 ^ n) = IZR m)%R -> is_rne x (rne_div m n).
Proof.
  intros Hn Hx.
  assert (Hp : 0 < 2 ^ n) by (apply Z.pow_pos_nonneg; lia).
  pose proof (Z.div_mod m (2 ^ n) ltac:(lia)) as Hdm.
  pose proof (Z.mod_pos_bound m (2 ^ n) Hp) as Hr.
  unfold rne_div. set (q := m / 2 ^ n) in *. set (r := m mod 2 ^ n) in *.
  assert (HpR : (0 < IZR (2 ^ n))%R) by (apply IZR_lt; exact Hp).
  assert (Hval : (x * IZR (2 ^ n) = IZR q * IZR (2 ^ n) + IZR r)%R).
  { rewrite Hx, Hdm, plus_IZR, mult_IZR. ring. }
  assert (Hr0 : (0 <= IZR r)%R) by (apply IZR_le; lia).
  assert (Hr1 : (IZR r < IZR (2 ^ n))%R) by (apply IZR_lt; lia).
  destruct (r =? 0) eqn:Hz.
  - apply Z.eqb_eq in Hz. rewrite Hz in Hval.
    assert (x = IZR q) by nra. subst x. apply is_rne_IZR.
  - apply Z.eqb_neq in Hz.
    assert (Hrpos : (0 < IZR r)%R) by (apply IZR_lt; lia).
    destruct (2 * r ?= 2 ^ n) eqn:Hc.
    + apply Z.compare_eq_iff in Hc.
      assert (HcR : (2 * IZR r = IZR (2 ^ n))%R).
      { rewrite <- Hc, mult_IZR. reflexivity. }
      assert (Hxq : (x = IZR q + 1 / 2)%R) by nra.
      destruct (Z.even q) eqn:He.
      * split; [lra|]. intros _. exact He.
      * split; [rewrite plus_IZR; lra|]. intros _.
        rewrite Z.even_add, He. reflexivity.
    + apply Z.compare_lt_iff in Hc.
      assert (HcR : (2 * IZR r < IZR (2 ^ n))%R).
      { rewrite <- (mult_IZR 2). apply IZR_lt. exact Hc. }
      split; [split; nra|]. intros [H|H]; nra.
    + apply Z.compare_gt_iff in Hc.
      assert (HcR : (IZR (2 ^ n) < 2 * IZR r)%R).
      { rewrite <- (mult_IZR 2). apply IZR_lt. exact Hc. }
      unfold is_rne. rewrite plus_IZR. split; [split; nra|]. intros [H|H]; nra.
Qed.

Lemma rne_div_bounds (m n : Z) :
  0 <= n -> 0 <= m -> m / 2 ^ n <= rne_div m n <= m / 2 ^ n + 1.
Proof.
  intros Hn Hm. unfold rne_div.
  destruct (m mod 2 ^ n =? 0); [lia|].
  destruct (2 * (m mod 2 ^ n) ?= 2 ^ n); [destruct (Z.even _)| |]; lia.
Qed.

(** ** Rounding a positive dyadic number to binary64 *)

Lemma fexp_eq (x : Z) : fexp prec emax x = Z.max (x - 53) (-1074).
Proof. reflexivity. Qed.

Lemma cexp_ge (m : positive) (e : Z) : -1074 <= cexp m e /\ digits m + e - 53 <= cexp m e.
Proof. unfold cexp. rewrite fexp_eq. lia. Qed.

Lemma rnd_mant_rne (m : positive) (e : Z) :
  is_rne (F2R (Zpos m) e * bpow (- cexp m e)) (rnd_mant m e).
Proof.
  unfold rnd_mant. set (E := cexp m e).
  destruct (E <=? e) eqn:Hc.
  - apply Z.leb_le in Hc.
    replace (F2R (Zpos m) e * bpow (- E))%R with (IZR (Zpos m * 2 ^ (e - E))).
    + apply is_rne_IZR.
    + unfold F2R. rewrite mult_IZR, <- bpow_IZR by lia.
      replace (e - E) with (e + - E) by lia. rewrite bpow_add. ring.
  - apply Z.leb_gt in Hc. apply rne_div_is_rne; [lia|].
    unfold F2R. rewrite <- bpow_IZR by lia.
    replace (E - e) with (- e + E) by lia. rewrite bpow_add.
    pose proof (bpow_opp e). pose proof (bpow_opp E).
    transitivity (IZR (Zpos m) * (bpow (- e) * bpow e) * (bpow (- E) * bpow E))%R;
      [ring|]. rewrite H, H0. ring.
Qed.

Lemma rnd_mant_nonneg (m : positive) (e : Z) : 0 <= rnd_mant m e.
Proof.
  unfold rnd_mant. destruct (cexp m e <=? e) eqn:Hc.
  - apply Z.leb_le in Hc.
    pose proof (Z.pow_pos_nonneg 2 (e - cexp m e) ltac:(lia) ltac:(lia)). nia.
  - apply Z.leb_gt in Hc.
    pose proof (rne_div_bounds (Zpos m) (cexp m e - e) ltac:(lia) ltac:(lia)) as [H _].
    pose proof (Z.pow_pos_nonneg 2 (cexp m e - e) ltac:(lia) ltac:(lia)) as Hp.
    pose proof (Z.div_pos (Zpos m) (2 ^ (cexp m e - e)) ltac:(lia) Hp). lia.
Qed.

(** The rounded value is monotone in the exact value. *)
Lemma rnd_mono (m1 m2 : positive) (e1 e2 : Z) :
  (F2R (Zpos m1) e1 <= F2R (Zpos m2) e2)%R ->
  (F2R (rnd_mant m1 e1) (cexp m1 e1) <= F2R (rnd_mant m2 e2) (cexp m2 e2))%R.
Proof.
  intros Hv.
  pose proof (mag_le m1 m2 e1 e2 Hv) as Hmag.
  pose proof (rnd_mant_rne m1 e1) as Hr1. pose proof (rnd_mant_rne m2 e2) as Hr2.
  pose proof (mag_bounds m1 e1) as [_ Hhi1]. pose proof (mag_bounds m2 e2) as [Hlo2 _].
  set (E1 := cexp m1 e1) in *. set (E2 := cexp m2 e2) in *.
  assert (HE : E1 <= E2) by (unfold E1, E2, cexp; rewrite !fexp_eq; lia).
  destruct (Z.eq_dec E1 E2) as [Heq|Hne].
  - rewrite <- Heq in *. apply F2R_le.
    apply (is_rne_mono (F2R (Zpos m1) e1 * bpow (- E1))%R
             (F2R (Zpos m2) e2 * bpow (- E1))%R); try assumption.
    pose proof (bpow_gt_0 (- E1)). nra.
  - assert (HE2 : E2 = digits m2 + e2 - 53)
      by (unfold E1, E2, cexp in *; rewrite !fexp_eq in *; lia).
    assert (Hmag' : digits m1 + e1 <= digits m2 + e2 - 1)
      by (unfold E1, E2, cexp in *; rewrite !fexp_eq in *; lia).
    set (g := digits m2 + e2 - 1) in *.
    apply Rle_trans with (bpow g).
    + (* below the binade boundary *)
      assert (Hk : rnd_mant m1 e1 <= 2 ^ (g - E1)).
      { apply (is_rne_mono (F2R (Zpos m1) e1 * bpow (- E1))%R
             (IZR (2 ^ (g - E1)))); [|exact Hr1|apply is_rne_IZR].
        rewrite <- bpow_IZR by lia. replace (g - E1) with (g + - E1) by lia.
        rewrite bpow_add. pose proof (bpow_gt_0 (- E1)).
        pose proof (bpow_le _ _ Hmag'). nra. }
      apply (F2R_le _ _ E1) in Hk. rewrite F2R_bpow in Hk by lia.
      replace (g - E1 + E1) with g in Hk by lia. exact Hk.
    + assert (Hk : 2 ^ 52 <= rnd_mant m2 e2).
      { apply (is_rne_mono (IZR (2 ^ 52))
             (F2R (Zpos m2) e2 * bpow (- E2))%R); [|apply is_rne_IZR|exact Hr2].
        rewrite <- bpow_IZR by lia. replace 52 with (g + - E2) by lia.
        rewrite bpow_add. pose proof (bpow_gt_0 (- E2)). nra. }
      apply (F2R_le _ _ E2) in Hk. rewrite F2R_bpow in Hk by lia.
      replace (52 + E2) with g in Hk by lia. exact Hk.
Qed.

(** A number that fits the format is not changed. *)
Lemma rnd_exact (m : positive) (e : Z) :
  digits m <= 53 -> -1074 <= e ->
  F2R (rnd_mant m e) (cexp m e) = F2R (Zpos m) e.
Proof.
  intros Hd He. unfold rnd_mant.
  assert (Hc : cexp m e <= e) by (unfold cexp; rewrite fexp_eq; lia).
  replace (cexp m e <=? e) with true by (symmetry; apply Z.leb_le; exact Hc).
  rewrite F2R_scale by lia. f_equal. lia.
Qed.

(** ** [binary_round_aux] computes the rounding *)

Lemma shr_nonpos (mrs : shr_record) (e n : Z) : n <= 0 -> shr mrs e n = (mrs, e).
Proof. intros Hn. destruct n; [reflexivity|lia|reflexivity]. Qed.

Lemma Zdigits2_digits (m : positive) : Zdigits2 (Zpos m) = digits m.
Proof. reflexivity. Qed.

Lemma digits_le_53 (k : positive) : Zpos k < 2 ^ 53 -> digits k <= 53.
Proof.
  intros Hk. pose proof (digits_bounds k) as [Hlo _]. pose proof (digits_pos k).
  destruct (Z_lt_le_dec 53 (digits k)) as [Hgt|Hle]; [|exact Hle].
  assert (2 ^ 53 <= 2 ^ (digits k - 1)) by (apply Z.pow_le_mono_r; lia). lia.
Qed.

Lemma shr_fexp_small (k E : Z) :
  0 <= k < 2 ^ 53 -> -1074 <= E ->
  shr_fexp prec emax k E loc_Exact = (Build_shr_record k false false, E).
Proof.
  intros Hk HE. unfold shr_fexp. cbn [shr_record_of_loc].
  apply shr_nonpos. rewrite fexp_eq.
  destruct k as [|k|k]; [simpl; lia| |lia].
  rewrite Zdigits2_digits. pose proof (digits_le_53 k ltac:(lia)). lia.
Qed.

Lemma shr_fexp_carry (E : Z) :
  -1074 <= E ->
  shr_fexp prec emax (2 ^ 53) E loc_Exact
  = (Build_shr_record (2 ^ 52) false false, E + 1).
Proof.
  intros HE. unfold shr_fexp. cbn [shr_record_of_loc].
  replace (Zdigits2 (2 ^ 53)) with 54 by reflexivity.
  rewrite fexp_eq. replace (Z.max (54 + E - 53) (-1074) - E) with 1 by lia.
  reflexivity.
Qed.

Lemma rnd_mant_le_2p53 (m : positive) (e : Z) :
  e < cexp m e -> 0 <= rnd_mant m e <= 2 ^ 53.
Proof.
  intros Hc. split; [apply rnd_mant_nonneg|].
  unfold rnd_mant. replace (cexp m e <=? e) with false by (symmetry; apply Z.leb_gt; exact Hc).
  pose proof (rne_div_bounds (Zpos m) (cexp m e - e) ltac:(lia) ltac:(lia)) as [_ Hhi].
  pose proof (cexp_ge m e) as [_ Hge]. pose proof (digits_bounds m) as [_ Hm].
  set (n := cexp m e - e) in *.
  assert (Hq : Zpos m / 2 ^ n < 2 ^ 53).
  { apply Z.div_lt_upper_bound; [apply Z.pow_pos_nonneg; lia|].
    rewrite <- Z.pow_add_r by lia.
    apply Z.lt_le_trans with (2 ^ digits m); [exact Hm|].
    apply Z.pow_le_mono_r; lia. }
  lia.
Qed.

Lemma binary_round_aux_spec (s : bool) (m : positive) (e : Z) :
  e <= 971 -> digits m + e <= 1023 ->
  let x := binary_round_aux prec emax s (Zpos m) e loc_Exact in
  fits x /\ sign x = s
  /\ B2R x = F2R (cond_Zopp s (rnd_mant m e)) (cexp m e).
Proof.
  intros He Hmag. cbn zeta. unfold binary_round_aux.
  pose proof (cexp_ge m e) as [HE1 HE2]. pose proof (digits_pos m) as Hd.
  assert (HEhi : cexp m e <= 970) by (unfold cexp; rewrite fexp_eq; lia).
  destruct (Z_le_gt_dec (cexp m e) e) as [Hc|Hc].
  - (* the mantissa already has the right exponent *)
    assert (Hs : shr_fexp prec emax (Zpos m) e loc_Exact
                 = (Build_shr_record (Zpos m) false false, e)).
    { unfold shr_fexp. cbn [shr_record_of_loc]. apply shr_nonpos.
      rewrite Zdigits2_digits. fold (cexp m e). lia. }
    rewrite Hs. cbn [shr_m loc_of_shr_record round_nearest_even]. rewrite Hs.
    cbn [shr_m]. replace (e <=? emax - prec) with true by (symmetry; apply Z.leb_le; unfold emax, prec; lia).
    cbn [fits sign B2R]. split; [|split; [reflexivity|]].
    + split; [|lia]. unfold cexp in Hc. rewrite fexp_eq in Hc. lia.
    + unfold rnd_mant. replace (cexp m e <=? e) with true by (symmetry; apply Z.leb_le; lia).
      destruct s; cbn [cond_Zopp].
      * rewrite <- Z.mul_opp_l. rewrite F2R_scale by lia. f_equal. lia.
      * rewrite F2R_scale by lia. f_equal. lia.
  - (* bits are shifted out and rounded *)
    set (E := cexp m e) in *.
    assert (Hs : exists mrs, shr_fexp prec emax (Zpos m) e loc_Exact = (mrs, E)
                   /\ round_nearest_even (shr_m mrs) (loc_of_shr_record mrs)
                      = rnd_mant m e).
    { unfold shr_fexp. cbn [shr_record_of_loc]. rewrite Zdigits2_digits.
      fold (cexp m e). fold E.
      destruct (shr_spec (Zpos m) e (E - e) ltac:(lia) ltac:(lia)) as (mrs & H1 & H2 & H3).
      exists mrs. split; [rewrite H1; f_equal; lia|].
      rewrite H2, H3, round_nearest_even_loc_of. unfold rnd_mant. fold E.
      replace (E <=? e) with false by (symmetry; apply Z.leb_gt; lia).
      reflexivity. }
    destruct Hs as (mrs & Hs & Hr). rewrite Hs, Hr.
    pose proof (rnd_mant_le_2p53 m e ltac:(fold E; lia)) as [Hk0 Hk1].
    set (k := rnd_mant m e) in *.
    destruct (Z.eq_dec k (2 ^ 53)) as [Hcarry|Hnc].
    + rewrite Hcarry, shr_fexp_carry by lia. cbn [shr_m].
      change (2 ^ 52) with (Zpos (2 ^ 52)).
      replace (E + 1 <=? emax - prec) with true
        by (symmetry; apply Z.leb_le; unfold emax, prec; lia).
      cbn [fits sign B2R]. split; [|split; [reflexivity|]].
      * split; [vm_compute; discriminate|lia].
      * destruct s; cbn [cond_Zopp].
        -- change (- Z.pos (2 ^ 52)) with (- 2 ^ 52). change (- 2 ^ 53) with (- 2 ^ 52 * 2 ^ 1).
           rewrite F2R_scale by lia. reflexivity.
        -- change (Z.pos (2 ^ 52)) with (2 ^ 52). change (2 ^ 53) with (2 ^ 52 * 2 ^ 1).
           rewrite F2R_scale by lia. reflexivity.
    + rewrite shr_fexp_small by lia. cbn [shr_m].
      destruct k as [|k'|k'] eqn:Hk; [| |lia].
      * cbn [fits sign B2R]. split; [exact I|]. split; [reflexivity|].
        destruct s; cbn [cond_Zopp]; rewrite F2R_0; reflexivity.
      * replace (E <=? emax - prec) with true
          by (symmetry; apply Z.leb_le; unfold emax, prec; lia).
        cbn [fits sign B2R]. split; [|split; reflexivity].
        split; [apply digits_le_53; lia|lia].
Qed.

(** ** Alignment and normalisation *)

Lemma pos_iter_xO (m d : positive) : Zpos (Pos.iter xO m d) = Zpos m * 2 ^ Zpos d.
Proof.
  induction d as [|d IH] using Pos.peano_ind.
  - simpl. lia.
  - rewrite Pos.iter_succ, Pos2Z.inj_xO, IH, Pos2Z.inj_succ, Z.pow_succ_r by lia.
    lia.
Qed.

Lemma shl_align_spec (m : positive) (e e' : Z) :
  Zpos (fst (shl_align m e e')) = Zpos m * 2 ^ (e - Z.min e e')
  /\ snd (shl_align m e e') = Z.min e e'.
Proof.
  unfold shl_align. destruct (e' - e) as [|d|d] eqn:Hd; cbn [fst snd].
  - replace (Z.min e e') with e by lia. rewrite Z.sub_diag. simpl. lia.
  - replace (Z.min e e') with e by lia. rewrite Z.sub_diag. simpl. lia.
  - replace (Z.min e e') with e' by lia. rewrite pos_iter_xO.
    replace (e - e') with (Zpos d) by lia. split; reflexivity.
Qed.

Lemma digits_shift (m m' : positive) (n : Z) :
  0 <= n -> Zpos m' = Zpos m * 2 ^ n -> digits m' = digits m + n.
Proof.
  intros Hn Hm'. pose proof (digits_bounds m) as [Hlo Hhi]. pose proof (digits_pos m).
  assert (Hp : 0 < 2 ^ n) by (apply Z.pow_pos_nonneg; lia).
  apply digits_unique; [|lia]. rewrite Hm'. split.
  - replace (digits m + n - 1) with (digits m - 1 + n) by lia.
    rewrite Z.pow_add_r by lia. nia.
  - rewrite Z.pow_add_r by lia. nia.
Qed.

Lemma binary_round_spec (s : bool) (m : positive) (e : Z) :
  digits m + e <= 1023 ->
  let x := binary_round prec emax s m e in
  fits x /\ sign x = s
  /\ B2R x = F2R (cond_Zopp s (rnd_mant m e)) (cexp m e).
Proof.
  intros Hmag. cbn zeta. unfold binary_round.
  change (Z.pos (digits2_pos m)) with (digits m). fold (cexp m e).
  pose proof (shl_align_spec m e (cexp m e)) as [Hm He].
  destruct (shl_align m e (cexp m e)) as [mz ez]. cbn [fst snd] in Hm, He.
  pose proof (cexp_ge m e) as [HE1 HE2]. pose proof (digits_pos m).
  assert (HEhi : cexp m e <= 970) by (unfold cexp; rewrite fexp_eq; lia).
  assert (Hdz : digits mz + ez = digits m + e).
  { rewrite (digits_shift m mz (e - Z.min e (cexp m e))) by (lia || exact Hm). lia. }
  assert (Hcz : cexp mz ez = cexp m e) by (unfold cexp; rewrite Hdz; reflexivity).
  pose proof (binary_round_aux_spec s mz ez ltac:(lia) ltac:(lia)) as (Hf & Hs & Hv).
  split; [exact Hf|]. split; [exact Hs|]. rewrite Hv, Hcz. do 2 f_equal.
  unfold rnd_mant. rewrite Hcz.
  destruct (cexp m e <=? e) eqn:Hc.
  - apply Z.leb_le in Hc.
    replace (cexp m e <=? ez) with true by (symmetry; apply Z.leb_le; lia).
    rewrite Hm. replace (Z.min e (cexp m e)) with (cexp m e) by lia.
    replace (ez - cexp m e) with 0 by lia. simpl. lia.
  - apply Z.leb_gt in Hc.
    assert (Hez : ez = e) by lia. rewrite Hez in *.
    replace (cexp m e <=? e) with false by (symmetry; apply Z.leb_gt; lia).
    replace (Zpos mz) with (Zpos m); [reflexivity|].
    rewrite Hm. replace (e - Z.min e (cexp m e)) with 0 by lia. simpl. lia.
Qed.

(** ** Roundings of non-negative reals *)

Lemma F2R_pos_gt_0 (m : positive) (e : Z) : (0 < F2R (Zpos m) e)%R.
Proof.
  unfold F2R. pose proof (bpow_gt_0 e).
  assert (0 < IZR (Zpos m))%R by (apply IZR_lt; lia). nra.
Qed.

Lemma F2R_nonneg (k e : Z) : 0 <= k -> (0 <= F2R k e)%R.
Proof.
  intros Hk. unfold F2R. pose proof (bpow_gt_0 e). apply IZR_le in Hk. nra.
Qed.

Lemma rounds_to_nonneg (v : R) (x : float) : rounds_to v x -> (0 <= B2R x)%R.
Proof.
  intros (_ & _ & [[_ H]|(m & e & _ & H)]); rewrite H; [lra|].
  apply F2R_nonneg, rnd_mant_nonneg.
Qed.

Lemma rounds_to_mono (v1 v2 : R) (x1 x2 : float) :
  rounds_to v1 x1 -> rounds_to v2 x2 -> (v1 <= v2)%R -> (B2R x1 <= B2R x2)%R.
Proof.
  intros H1 H2 Hv. pose proof (rounds_to_nonneg _ _ H2) as Hn2.
  destruct H1 as (_ & _ & [[_ H1]|(m1 & e1 & Hv1 & H1)]); [rewrite H1; exact Hn2|].
  destruct H2 as (_ & _ & [[Hv2 _]|(m2 & e2 & Hv2 & H2)]).
  - pose proof (F2R_pos_gt_0 m1 e1). lra.
  - rewrite H1, H2. apply rnd_mono. lra.
Qed.

Lemma rounds_to_exact (m : positive) (e : Z) (x : float) :
  digits m <= 53 -> -1074 <= e ->
  rounds_to (F2R (Zpos m) e) x -> B2R x = F2R (Zpos m) e.
Proof.
  intros Hd He (_ & _ & [[Hv _]|(m' & e' & Hv & Hx)]).
  - pose proof (F2R_pos_gt_0 m e). lra.
  - rewrite Hx, <- (rnd_exact m e Hd He).
    apply Rle_antisym; apply rnd_mono; lra.
Qed.

Lemma rounds_to_le (v : R) (x : float) (m : positive) (e : Z) :
  digits m <= 53 -> -1074 <= e ->
  rounds_to v x -> (v <= F2R (Zpos m) e)%R -> (B2R x <= F2R (Zpos m) e)%R.
Proof.
  intros Hd He (_ & _ & [[_ Hx]|(m' & e' & Hv & Hx)]) Hle; rewrite Hx.
  - pose proof (F2R_pos_gt_0 m e). lra.
  - rewrite <- (rnd_exact m e Hd He). apply rnd_mono. lra.
Qed.

(** ** The float operations of the decoder *)

Lemma bpow_le_inv (a b : Z) : (bpow a <= bpow b)%R -> a <= b.
Proof.
  intros H. destruct (Z_le_gt_dec a b) as [Hle|Hgt]; [exact Hle|].
  apply Z.gt_lt, bpow_lt in Hgt. lra.
Qed.

Lemma mag_le_bpow (m : positive) (e g : Z) :
  (F2R (Zpos m) e <= bpow g)%R -> digits m + e <= g + 1.
Proof.
  intros H. pose proof (mag_bounds m e) as [Hlo _].
  assert (Hb : (bpow (digits m + e - 1) <= bpow g)%R) by lra.
  apply bpow_le_inv in Hb. lia.
Qed.

Lemma digits_mul (m1 m2 : positive) : digits (m1 * m2) <= digits m1 + digits m2.
Proof.
  pose proof (digits_bounds m1) as [_ H1]. pose proof (digits_bounds m2) as [_ H2].
  pose proof (digits_bounds (m1 * m2)) as [H3 _].
  pose proof (digits_pos m1). pose proof (digits_pos m2). pose proof (digits_pos (m1 * m2)).
  destruct (Z_le_gt_dec (digits (m1 * m2)) (digits m1 + digits m2)) as [Hle|Hgt];
    [exact Hle|].
  assert (Hp : 2 ^ (digits m1 + digits m2) <= 2 ^ (digits (m1 * m2) - 1))
    by (apply Z.pow_le_mono_r; lia).
  rewrite Z.pow_add_r in Hp by lia. rewrite Pos2Z.inj_mul in H3. nia.
Qed.

Lemma F2R_mul (m1 m2 e1 e2 : Z) :
  F2R (m1 * m2) (e1 + e2) = (F2R m1 e1 * F2R m2 e2)%R.
Proof. unfold F2R. rewrite mult_IZR, bpow_add. ring. Qed.

Lemma rounds_to_zero : rounds_to 0 (S754_zero false).
Proof. split; [exact I|]. split; [reflexivity|]. left. split; reflexivity. Qed.

Lemma binary_round_rounds_to (m : positive) (e : Z) :
  digits m + e <= 1023 ->
  rounds_to (F2R (Zpos m) e) (binary_round prec emax false m e).
Proof.
  intros Hmag. pose proof (binary_round_spec false m e Hmag) as (Hf & Hs & Hv).
  split; [exact Hf|]. split; [exact Hs|]. right. exists m, e. split; [reflexivity|exact Hv].
Qed.

Lemma of_int_spec (z : Z) :
  0 < z < 2 ^ 53 ->
  fits (of_int z) /\ sign (of_int z) = false /\ B2R (of_int z) = IZR z.
Proof.
  intros Hz. destruct z as [|p|p]; try lia.
  unfold of_int, of_dyadic. cbn [binary_normalize].
  pose proof (digits_le_53 p ltac:(lia)) as Hd.
  pose proof (binary_round_rounds_to p 0 ltac:(lia)) as Hr.
  pose proof (rounds_to_exact p 0 _ Hd ltac:(lia) Hr) as Hv.
  destruct Hr as (Hf & Hs & _). split; [exact Hf|]. split; [exact Hs|].
  rewrite Hv. unfold F2R. rewrite bpow_0. ring.
Qed.

Lemma mul_spec (x y : float) :
  fits x -> sign x = false -> fits y -> sign y = false ->
  (B2R x <= bpow 64)%R -> (B2R y <= bpow 64)%R ->
  rounds_to (B2R x * B2R y) (mul x y).
Proof.
  intros Hfx Hsx Hfy Hsy Hbx Hby.
  destruct x as [sx|sx| |sx mx ex]; try contradiction;
    destruct y as [sy|sy| |sy my ey]; try contradiction;
    cbn [sign] in Hsx, Hsy; subst sx sy; cbn [mul SFmul xorb B2R cond_Zopp].
  - rewrite Rmult_0_l. apply rounds_to_zero.
  - rewrite Rmult_0_l. apply rounds_to_zero.
  - rewrite Rmult_0_r. apply rounds_to_zero.
  - cbn [B2R cond_Zopp] in Hbx, Hby.
    pose proof (mag_le_bpow mx ex 64 Hbx). pose proof (mag_le_bpow my ey 64 Hby).
    pose proof (digits_mul mx my). pose proof (digits_pos mx). pose proof (digits_pos my).
    pose proof (binary_round_aux_spec false (mx * my) (ex + ey) ltac:(lia) ltac:(lia))
      as (Hf & Hs & Hv).
    split; [exact Hf|]. split; [exact Hs|]. right.
    exists (mx * my)%positive, (ex + ey). split; [|exact Hv].
    rewrite Pos2Z.inj_mul. apply eq_sym, F2R_mul.
Qed.

Lemma sub_spec (sa : bool) (ma my : positive) (ea ey : Z) :
  (F2R (Zpos my) ey <= F2R (Zpos ma) ea)%R -> (F2R (Zpos ma) ea <= bpow 64)%R ->
  rounds_to (F2R (Zpos ma) ea - F2R (Zpos my) ey)
            (sub (S754_finite false ma ea) (S754_finite false my ey)).
Proof.
  intros Hle Hb. cbn [sub SFsub cond_Zopp].
  set (ez := Z.min ea ey).
  pose proof (shl_align_spec ma ea ez) as [Ha _].
  pose proof (shl_align_spec my ey ez) as [Hy _].
  replace (Z.min ea ez) with ez in Ha by lia. replace (Z.min ey ez) with ez in Hy by lia.
  set (ma' := Zpos (fst (shl_align ma ea ez))) in *.
  set (my' := Zpos (fst (shl_align my ey ez))) in *.
  assert (Hva : F2R ma' ez = F2R (Zpos ma) ea).
  { rewrite Ha, F2R_scale by lia. f_equal. lia. }
  assert (Hvy : F2R my' ez = F2R (Zpos my) ey).
  { rewrite Hy, F2R_scale by lia. f_equal. lia. }
  assert (Hz : F2R (ma' - my') ez = (F2R (Zpos ma) ea - F2R (Zpos my) ey)%R).
  { rewrite <- Hva, <- Hvy. unfold F2R. rewrite minus_IZR. ring. }
  assert (Hz0 : 0 <= ma' - my').
  { apply (F2R_le_inv _ _ ez). rewrite F2R_0, Hz. lra. }
  destruct (ma' - my') as [|z|z] eqn:Hd; [| |lia]; cbn [binary_normalize].
  - rewrite <- Hz, F2R_0. apply rounds_to_zero.
  - rewrite <- Hz. apply binary_round_rounds_to.
    assert (Hzb : (F2R (Zpos z) ez <= bpow 64)%R).
    { rewrite Hz. pose proof (F2R_pos_gt_0 my ey). lra. }
    pose proof (mag_le_bpow z ez 64 Hzb). lia.
Qed.

Lemma shiftl_floor (m : positive) (e : Z) :
  0 <= Z.shiftl (Zpos m) e
  /\ (IZR (Z.shiftl (Zpos m) e) <= F2R (Zpos m) e < IZR (Z.shiftl (Zpos m) e) + 1)%R.
Proof.
  destruct (Z_le_gt_dec 0 e) as [He|He].
  - rewrite Z.shiftl_mul_pow2 by exact He.
    assert (Hp : 0 < 2 ^ e) by (apply Z.pow_pos_nonneg; lia).
    split; [nia|].
    replace (F2R (Zpos m) e) with (IZR (Zpos m * 2 ^ e)); [lra|].
    unfold F2R. rewrite mult_IZR, bpow_IZR by exact He. reflexivity.
  - rewrite Z.shiftl_div_pow2 by lia.
    assert (Hp : 0 < 2 ^ (- e)) by (apply Z.pow_pos_nonneg; lia).
    pose proof (Z.div_mod (Zpos m) (2 ^ (- e)) ltac:(lia)) as Hdm.
    pose proof (Z.mod_pos_bound (Zpos m) (2 ^ (- e)) Hp) as Hr.
    set (q := Zpos m / 2 ^ (- e)) in *. set (r := Zpos m mod 2 ^ (- e)) in *.
    split; [apply Z.div_pos; lia|].
    assert (Hq : IZR q = F2R (q * 2 ^ (- e)) e).
    { rewrite F2R_scale by lia. replace (e + - e) with 0 by lia.
      unfold F2R. rewrite bpow_0. ring. }
    assert (Hq1 : (IZR q + 1)%R = F2R ((q + 1) * 2 ^ (- e)) e).
    { rewrite F2R_scale by lia. replace (e + - e) with 0 by lia.
      unfold F2R. rewrite bpow_0, plus_IZR. ring. }
    rewrite Hq1, Hq. split; [apply F2R_le|apply F2R_lt]; lia.
Qed.

Lemma floor_unique (v : R) (y y' : Z) :
  (IZR y <= v < IZR y + 1)%R -> (IZR y' <= v < IZR y' + 1)%R -> y = y'.
Proof.
  intros [H1 H2] [H3 H4].
  assert (Ha : (IZR y < IZR (y' + 1))%R) by (rewrite plus_IZR; lra).
  assert (Hb : (IZR y' < IZR (y + 1))%R) by (rewrite plus_IZR; lra).
  apply lt_IZR in Ha, Hb. lia.
Qed.

Lemma is_zero_B2R (x : float) :
  fits x -> sign x = false -> (is_zero x = true <-> B2R x = 0%R).
Proof.
  intros Hf Hs. destruct x as [s|s| |s m e]; try contradiction; cbn [is_zero B2R].
  - tauto.
  - cbn [sign] in Hs. subst s. cbn [cond_Zopp].
    pose proof (F2R_pos_gt_0 m e). split; [discriminate|lra].
Qed.

Lemma modf_spec (x : float) :
  fits x -> sign x = false ->
  exists fp ip,
    modf x = Ok (fp, ip)
    /\ 0 <= ip /\ fits fp /\ sign fp = false
    /\ B2R x = (IZR ip + B2R fp)%R /\ (0 <= B2R fp < 1)%R.
Proof.
  intros Hf Hs. destruct x as [s|s| |s m e]; try contradiction;
    cbn [sign] in Hs; subst s; cbn [modf].
  - exists (S754_zero false), 0. cbn [B2R fits sign].
    repeat split; try reflexivity; try lia; lra.
  - destruct Hf as [Hd He]. cbn [cond_Zopp B2R].
    pose proof (shiftl_floor m e) as [Hn Hfl].
    destruct (0 <=? e) eqn:Hc.
    + apply Z.leb_le in Hc. exists (S754_zero false), (Z.shiftl (Zpos m) e).
      cbn [B2R fits sign].
      split; [reflexivity|]. split; [exact Hn|]. split; [exact I|]. split; [reflexivity|].
      split; [|lra].
      rewrite Z.shiftl_mul_pow2 by exact Hc.
      unfold F2R. rewrite mult_IZR, bpow_IZR by exact Hc. ring.
    + apply Z.leb_gt in Hc.
      assert (Hp : 0 < 2 ^ (- e)) by (apply Z.pow_pos_nonneg; lia).
      pose proof (Z.div_mod (Zpos m) (2 ^ (- e)) ltac:(lia)) as Hdm.
      pose proof (Z.mod_pos_bound (Zpos m) (2 ^ (- e)) Hp) as Hr.
      rewrite Z.shiftl_div_pow2 in * by lia.
      set (q := Zpos m / 2 ^ (- e)) in *. set (r := Zpos m mod 2 ^ (- e)) in *.
      assert (Hsplit : F2R (Zpos m) e = (IZR q + F2R r e)%R).
      { rewrite Hdm. unfold F2R. rewrite plus_IZR, mult_IZR, <- bpow_IZR by lia.
        transitivity (IZR q * (bpow (- e) * bpow e) + IZR r * bpow e)%R; [ring|].
        rewrite bpow_opp. ring. }
      assert (Hr1 : (F2R r e < 1)%R).
      { replace 1%R with (F2R (2 ^ (- e)) e).
        - apply F2R_lt. lia.
        - rewrite F2R_bpow by lia. replace (- e + e) with 0 by lia. reflexivity. }
      eexists _, q. split; [reflexivity|]. split; [exact Hn|].
      destruct r as [|r'|r'] eqn:Hr'; [| |lia]; cbn [binary_normalize].
      * cbn [fits sign B2R]. rewrite F2R_0 in Hsplit.
        split; [exact I|]. split; [reflexivity|]. split; [lra|lra].
      * assert (Hdr : digits r' <= 53).
        { apply digits_le_53. pose proof (digits_bounds m) as [_ Hm].
          assert (2 ^ digits m <= 2 ^ 53) by (apply Z.pow_le_mono_r; lia).
          assert (Zpos r' <= Zpos m) by (rewrite Hdm; nia). lia. }
        pose proof (binary_round_rounds_to r' e ltac:(lia)) as Hrt.
        pose proof (rounds_to_exact r' e _ Hdr ltac:(lia) Hrt) as Hv.
        destruct Hrt as (Hft & Hst & _).
        split; [exact Hft|]. split; [exact Hst|]. rewrite Hv.
        pose proof (F2R_pos_gt_0 r' e). split; [exact Hsplit|lra].
Qed.

(** ** [timedelta(days=...)] on a non-negative float *)

Lemma round_leftover_rne (x : Z) (m : positive) (e : Z) :
  is_rne (IZR x + F2R (Zpos m) e)
         (x + round_leftover x (S754_finite false m e)).
Proof.
  unfold round_leftover, is_half_way, c_round. cbn [to_int sign cond_Zopp].
  destruct (0 <=? e) eqn:Hc.
  - apply Z.leb_le in Hc. rewrite Z.shiftl_mul_pow2 by exact Hc.
    replace (IZR x + F2R (Zpos m) e)%R with (IZR (x + Zpos m * 2 ^ e)).
    + apply is_rne_IZR.
    + rewrite plus_IZR, mult_IZR. unfold F2R. rewrite bpow_IZR by exact Hc. reflexivity.
  - apply Z.leb_gt in Hc.
    assert (Hp : 0 < 2 ^ (- e)) by (apply Z.pow_pos_nonneg; lia).
    pose proof (Z.div_mod (Zpos m) (2 ^ (- e)) ltac:(lia)) as Hdm.
    pose proof (Z.mod_pos_bound (Zpos m) (2 ^ (- e)) Hp) as Hr.
    rewrite Z.shiftl_div_pow2 by lia.
    set (q := Zpos m / 2 ^ (- e)) in *. set (r := Zpos m mod 2 ^ (- e)) in *.
    set (d := 2 ^ (- e)) in *.
    assert (HdR : (0 < IZR d)%R) by (apply IZR_lt; exact Hp).
    assert (Hv : (F2R (Zpos m) e * IZR d = IZR q * IZR d + IZR r)%R).
    { rewrite Hdm. unfold F2R, d. rewrite plus_IZR, mult_IZR, <- bpow_IZR by lia.
      transitivity ((bpow (- e) * IZR q + IZR r) * (bpow (- e) * bpow e))%R; [ring|].
      rewrite bpow_opp. ring. }
    set (v := F2R (Zpos m) e) in *.
    assert (Hr0 : (0 <= IZR r)%R) by (apply IZR_le; lia).
    assert (Hr1 : (IZR r < IZR d)%R) by (apply IZR_lt; lia).
    unfold is_rne. destruct (2 * r =? d) eqn:Hh.
    + apply Z.eqb_eq in Hh.
      assert (HhR : (2 * IZR r = IZR d)%R) by (rewrite <- Hh, mult_IZR; reflexivity).
      assert (Hvq : (v = IZR q + 1 / 2)%R) by nra.
      destruct (Z.even (x + q)) eqn:He.
      * rewrite plus_IZR. split; [lra|]. intros _. exact He.
      * rewrite !plus_IZR. split; [lra|]. intros _.
        rewrite Z.add_assoc, Z.even_add, He. reflexivity.
    + apply Z.eqb_neq in Hh. destruct (d <=? 2 * r) eqn:Hg.
      * apply Z.leb_le in Hg.
        assert (HgR : (IZR d < 2 * IZR r)%R)
          by (rewrite <- (mult_IZR 2); apply IZR_lt; lia).
        rewrite !plus_IZR. split; [split; nra|]. intros [H|H]; nra.
      * apply Z.leb_gt in Hg.
        assert (HgR : (2 * IZR r < IZR d)%R)
          by (rewrite <- (mult_IZR 2); apply IZR_lt; lia).
        rewrite !plus_IZR. split; [split; nra|]. intros [H|H]; nra.
Qed.

Lemma is_rne_shift (x : R) (K z : Z) :
  Z.even z = true -> is_rne (IZR z + x) (z + K) -> is_rne x K.
Proof.
  intros Hz [[H1 H2] H3]. rewrite plus_IZR in H1, H2. split; [lra|].
  intros Hh.
  assert (He : Z.even (z + K) = true).
  { apply H3. rewrite plus_IZR. destruct Hh as [Hh|Hh]; [left|right]; lra. }
  rewrite Z.even_add, Hz in He. destruct (Z.even K); [reflexivity|discriminate He].
Qed.

Lemma us_per_day_repr : IZR us_per_day = F2R (Zpos 86400000000) 0.
Proof. unfold F2R. rewrite bpow_0. unfold us_per_day. ring. Qed.

Lemma us_rel_bounds (v : R) (X : Z) :
  us_rel v X ->
  exists ip, (IZR ip <= v < IZR ip + 1)%R /\ 0 <= ip
             /\ ip * us_per_day <= X <= (ip + 1) * us_per_day
             /\ (v = IZR ip -> X = ip * us_per_day).
Proof.
  intros (ip & f & Hv & Hip & Hf & Hcase). exists ip.
  split; [lra|]. split; [exact Hip|].
  destruct Hcase as [[Hf0 HX]|(Hfpos & q & Hq & HK)].
  - split; [unfold us_per_day in *; lia|]. intros _. exact HX.
  - split; [|intros Hvi; lra].
    pose proof (rounds_to_nonneg _ _ Hq) as Hq0.
    assert (Hq1 : (B2R q <= IZR us_per_day)%R).
    { rewrite us_per_day_repr.
      apply (rounds_to_le (IZR us_per_day * f)); [vm_compute; discriminate|lia|exact Hq|].
      rewrite <- us_per_day_repr.
      assert (0 < IZR us_per_day)%R by (apply IZR_lt; reflexivity). nra. }
    pose proof (is_rne_mono 0 (B2R q) 0 _ Hq0 (is_rne_IZR 0) HK).
    pose proof (is_rne_mono (B2R q) (IZR us_per_day) _ us_per_day Hq1 HK
                  (is_rne_IZR us_per_day)).
    lia.
Qed.

Lemma us_rel_mono (v1 v2 : R) (X1 X2 : Z) :
  (v1 <= v2)%R -> us_rel v1 X1 -> us_rel v2 X2 -> X1 <= X2.
Proof.
  intros Hv H1 H2.
  destruct (us_rel_bounds _ _ H1) as (i1 & Hfl1 & Hi1 & Hb1 & _).
  destruct (us_rel_bounds _ _ H2) as (i2 & Hfl2 & Hi2 & Hb2 & _).
  destruct H1 as (ip1 & f1 & Hv1 & Hip1 & Hf1 & Hc1).
  destruct H2 as (ip2 & f2 & Hv2 & Hip2 & Hf2 & Hc2).
  assert (ip1 = i1) by (apply (floor_unique v1); lra).
  assert (ip2 = i2) by (apply (floor_unique v2); lra).
  subst i1 i2.
  assert (Hle : ip1 <= ip2).
  { assert (H : (IZR ip1 < IZR (ip2 + 1))%R) by (rewrite plus_IZR; lra).
    apply lt_IZR in H. lia. }
  destruct (Z.eq_dec ip1 ip2) as [Heq|Hne].
  - subst ip2. assert (Hf : (f1 <= f2)%R) by lra.
    destruct Hc1 as [[Hz1 HX1]|(Hp1 & q1 & Hq1 & HK1)]; [lia|].
    destruct Hc2 as [[Hz2 HX2]|(Hp2 & q2 & Hq2 & HK2)]; [lra|].
    assert (Hq : (B2R q1 <= B2R q2)%R).
    { apply (rounds_to_mono _ _ _ _ Hq1 Hq2).
      assert (0 < IZR us_per_day)%R by (apply IZR_lt; reflexivity). nra. }
    pose proof (is_rne_mono _ _ _ _ Hq HK1 HK2). lia.
  - unfold us_per_day in *. nia.
Qed.

Lemma add_zero_l (x : float) :
  fits x -> sign x = false -> add (S754_zero false) x = x.
Proof.
  intros Hf Hs. destruct x as [s|s| |s m e]; try contradiction;
    cbn [sign] in Hs; subst s; reflexivity.
Qed.

Lemma timedelta_days_us (p : float) :
  fits p -> sign p = false ->
  exists X, timedelta_days p = microseconds_to_delta X /\ us_rel (B2R p) X.
Proof.
  intros Hf Hs. unfold timedelta_days, accum.
  destruct (modf_spec p Hf Hs) as (fp & ip & Hm & Hip & Hffp & Hsfp & Hv & Hfr).
  rewrite Hm, bind_Ok. cbn beta iota. rewrite Z.add_0_l.
  destruct (is_zero fp) eqn:Hz.
  - rewrite bind_Ok. cbn beta iota. cbn [is_zero].
    exists (ip * us_per_day). split; [reflexivity|].
    exists ip, (B2R fp). split; [exact Hv|]. split; [exact Hip|]. split; [exact Hfr|].
    left. split; [apply (is_zero_B2R fp Hffp Hsfp); exact Hz|reflexivity].
  - assert (Hfpos : (0 < B2R fp)%R).
    { destruct (Req_dec (B2R fp) 0) as [H0|H0]; [|lra].
      apply (is_zero_B2R fp Hffp Hsfp) in H0. congruence. }
    destruct (of_int_spec us_per_day ltac:(unfold us_per_day; lia)) as (HfU & HsU & HvU).
    assert (Hq : rounds_to (IZR us_per_day * B2R fp) (mul (of_int us_per_day) fp)).
    { rewrite <- HvU. apply mul_spec; try assumption.
      - rewrite HvU. rewrite (bpow_IZR 64) by lia. apply IZR_le.
        unfold us_per_day. vm_compute. discriminate.
      - pose proof (bpow_ge_1 64 ltac:(lia)). lra. }
    set (q := mul (of_int us_per_day) fp) in *.
    destruct Hq as (Hfq & Hsq & Hrq).
    destruct (modf_spec q Hfq Hsq) as (fq & iq & Hmq & Hiq & Hffq & Hsfq & Hvq & Hfrq).
    rewrite Hmq, !bind_Ok. cbn beta iota.
    rewrite (add_zero_l fq Hffq Hsfq).
    eexists. split; [reflexivity|].
    exists ip, (B2R fp). split; [exact Hv|]. split; [exact Hip|]. split; [exact Hfr|].
    right. split; [exact Hfpos|]. exists q.
    split; [split; [exact Hfq|split; [exact Hsq|exact Hrq]]|].
    rewrite Hvq.
    destruct fq as [s|s| |s m e]; try contradiction; cbn [sign] in Hsfq; subst s.
    + cbn [is_zero B2R]. rewrite Rplus_0_r.
      replace (ip * us_per_day + iq - ip * us_per_day) with iq by lia.
      apply is_rne_IZR.
    + cbn [is_zero B2R cond_Zopp].
      apply (is_rne_shift _ _ (ip * us_per_day)).
      { rewrite Z.even_mul. unfold us_per_day. apply orb_true_r. }
      match goal with
      | |- is_rne ?v ?K =>
          replace K with (ip * us_per_day + iq
                          + round_leftover (ip * us_per_day + iq) (S754_finite false m e))
            by lia;
          replace v with (IZR (ip * us_per_day + iq) + F2R (Zpos m) e)%R
            by (rewrite plus_IZR; ring)
      end.
      apply round_leftover_rne.
Qed.

(** ** Valid floats and their order *)

Lemma valid_fits (s : bool) (m : positive) (e : Z) :
  valid (S754_finite s m e) = true -> fits (S754_finite s m e).
Proof.
  unfold valid, valid_binary, bounded, canonical_mantissa. intros H.
  apply andb_true_iff in H. destruct H as [Hc He].
  apply Z.eqb_eq in Hc. apply Z.leb_le in He.
  change (Z.pos (digits2_pos m)) with (digits m) in Hc. rewrite fexp_eq in Hc.
  unfold emax, prec in He. cbn [fits]. lia.
Qed.

Lemma valid_canonical (s : bool) (m : positive) (e : Z) :
  valid (S754_finite s m e) = true -> e = Z.max (digits m + e - 53) (-1074).
Proof.
  unfold valid, valid_binary, bounded, canonical_mantissa. intros H.
  apply andb_true_iff in H. destruct H as [Hc _].
  apply Z.eqb_eq in Hc. change (Z.pos (digits2_pos m)) with (digits m) in Hc.
  rewrite fexp_eq in Hc. lia.
Qed.

Lemma leb_B2R (m1 m2 : positive) (e1 e2 : Z) :
  valid (S754_finite false m1 e1) = true ->
  valid (S754_finite false m2 e2) = true ->
  leb (S754_finite false m1 e1) (S754_finite false m2 e2) = true ->
  (F2R (Zpos m1) e1 <= F2R (Zpos m2) e2)%R.
Proof.
  intros H1 H2 Hle. apply valid_canonical in H1, H2.
  unfold leb, SFleb, SFcompare in Hle.
  destruct (e1 ?= e2) eqn:Hc.
  - rewrite Z.compare_eq_iff in Hc. subst e2. apply F2R_le.
    change (Pos.compare_cont Eq m1 m2) with (m1 ?= m2)%positive in Hle.
    destruct (m1 ?= m2)%positive eqn:Hm; try discriminate Hle.
    + rewrite Pos.compare_eq_iff in Hm. subst. lia.
    + rewrite Pos.compare_lt_iff in Hm. lia.
  - rewrite Z.compare_lt_iff in Hc.
    pose proof (mag_bounds m1 e1) as [_ Hhi]. pose proof (mag_bounds m2 e2) as [Hlo _].
    assert (Hb : (bpow (digits m1 + e1) <= bpow (digits m2 + e2 - 1))%R)
      by (apply bpow_le; lia).
    lra.
  - discriminate Hle.
Qed.

(** ** The decoder on a valid year fraction *)

Lemma to_int_pos_inv (a : float) (y : Z) :
  to_int a = Ok y -> 1 <= y ->
  exists m e, a = S754_finite false m e
              /\ (IZR y <= F2R (Zpos m) e < IZR y + 1)%R.
Proof.
  intros Hy Hpos. destruct a as [s|s| |s m e]; try discriminate Hy.
  - injection Hy as <-. lia.
  - cbn [to_int] in Hy. injection Hy as <-.
    pose proof (shiftl_floor m e) as [Hn Hfl].
    destruct s; cbn [cond_Zopp] in *; [lia|].
    exists m, e. split; [reflexivity|exact Hfl].
Qed.

Lemma of_int_finite (z : Z) :
  0 < z < 2 ^ 53 ->
  exists m e, of_int z = S754_finite false m e /\ F2R (Zpos m) e = IZR z.
Proof.
  intros Hz. destruct (of_int_spec z Hz) as (Hf & Hs & Hv).
  destruct (of_int z) as [s|s| |s m e]; try contradiction.
  - cbn [B2R] in Hv. assert (H : (0 < IZR z)%R) by (apply IZR_lt; lia). lra.
  - cbn [sign] in Hs. subst s. exists m, e. split; [reflexivity|exact Hv].
Qed.

Lemma IZR_le_bpow (z g : Z) : 0 <= g -> z <= 2 ^ g -> (IZR z <= bpow g)%R.
Proof. intros Hg Hz. rewrite bpow_IZR by exact Hg. apply IZR_le. exact Hz. Qed.

(** The product handed to [timedelta]: the rounded fraction of the year
    times the rounded number of days. *)
Lemma decode_product (m : positive) (e y : Z) :
  fits (S754_finite false m e) ->
  (IZR y <= F2R (Zpos m) e < IZR y + 1)%R -> 1 <= y <= 9999 ->
  exists frac,
    rounds_to (F2R (Zpos m) e - IZR y) frac
    /\ frac = sub (S754_finite false m e) (of_int y)
    /\ rounds_to (B2R frac * IZR (days_in_year y))
                 (mul frac (of_int (days_in_year y)))
    /\ (B2R (mul frac (of_int (days_in_year y))) <= IZR (days_in_year y))%R.
Proof.
  intros Hf Hfl Hy.
  destruct (of_int_finite y ltac:(lia)) as (my & ey & Hoy & Hvy).
  set (D := days_in_year y).
  assert (HD : D = 365 \/ D = 366) by (unfold D, days_in_year; destruct (is_leap y); lia).
  destruct (of_int_spec D ltac:(lia)) as (HfD & HsD & HvD).
  assert (Hy64 : (IZR y + 1 <= bpow 64)%R).
  { rewrite <- (plus_IZR y 1). apply IZR_le_bpow; [lia|].
    assert (2 ^ 14 <= 2 ^ 64) by (apply Z.pow_le_mono_r; lia). lia. }
  assert (Hfrac : rounds_to (F2R (Zpos m) e - IZR y)
                            (sub (S754_finite false m e) (of_int y))).
  { rewrite Hoy, <- Hvy. apply (sub_spec false); [rewrite Hvy; lra|lra]. }
  set (frac := sub (S754_finite false m e) (of_int y)) in *.
  exists frac. split; [exact Hfrac|]. split; [reflexivity|].
  pose proof (rounds_to_nonneg _ _ Hfrac) as Hfr0.
  assert (Hfr1 : (B2R frac <= 1)%R).
  { assert (H1 : F2R (Zpos 1) 0 = 1%R) by (unfold F2R; rewrite bpow_0; lra).
    rewrite <- H1.
    apply (rounds_to_le (F2R (Zpos m) e - IZR y)); [vm_compute; discriminate|lia|exact Hfrac|].
    rewrite H1. lra. }
  assert (HDpos : (0 < IZR D)%R) by (apply IZR_lt; lia).
  assert (Hprod : rounds_to (B2R frac * IZR D) (mul frac (of_int D))).
  { rewrite <- HvD. destruct Hfrac as (Hff & Hsf & _). apply mul_spec; try assumption.
    - pose proof (bpow_ge_1 64 ltac:(lia)). lra.
    - rewrite HvD. apply IZR_le_bpow; [lia|].
      assert (2 ^ 9 <= 2 ^ 64) by (apply Z.pow_le_mono_r; lia). lia. }
  split; [exact Hprod|].
  assert (HDrepr : IZR D = F2R (Zpos (Z.to_pos D)) 0).
  { unfold F2R. rewrite bpow_0, Z2Pos.id by lia. ring. }
  rewrite HDrepr.
  apply (rounds_to_le (B2R frac * IZR D)); [|lia|exact Hprod|rewrite <- HDrepr; nra].
  apply digits_le_53. rewrite Z2Pos.id by lia. lia.
Qed.

Lemma microseconds_to_delta_small (X : Z) :
  0 <= X <= 400 * us_per_day ->
  microseconds_to_delta X
  = Ok (mk_timedelta (X / us_per_day)
          ((X / us_per_second) mod seconds_per_day) (X mod us_per_second)).
Proof.
  intros HX. unfold microseconds_to_delta.
  unfold us_per_day, us_per_second, seconds_per_day in *.
  rewrite Z.div_div by lia. change (1000000 * (24 * 3600)) with 86400000000.
  assert (0 <= X / 86400000000 <= 400) by (split; [apply Z.div_pos|apply Z.div_le_upper_bound]; lia).
  replace (Z.abs (X / 86400000000) <=? 999999999) with true
    by (symmetry; apply Z.leb_le; lia).
  reflexivity.
Qed.

Lemma datetime_add_jan1 (o0 X : Z) :
  0 <= X -> 0 < o0 + X / us_per_day <= MAXORDINAL ->
  datetime_add (mk_datetime o0 0 0)
    (mk_timedelta (X / us_per_day)
       ((X / us_per_second) mod seconds_per_day) (X mod us_per_second))
  = Ok (jan1_plus_us o0 X).
Proof.
  intros HX Ho. unfold datetime_add, jan1_plus_us.
  cbn [dt_microsecond dt_second dt_ordinal td_microseconds td_seconds td_days].
  unfold us_per_day, us_per_second, seconds_per_day, MAXORDINAL in *.
  change (24 * 3600) with 86400.
  pose proof (Z.mod_pos_bound X 1000000 ltac:(lia)) as Hus.
  pose proof (Z.mod_pos_bound (X / 1000000) 86400 ltac:(lia)) as Hs.
  rewrite !Z.add_0_l.
  rewrite (Z.div_small (X mod 1000000)) by lia. rewrite Z.add_0_r.
  rewrite (Z.div_small ((X / 1000000) mod 86400)) by lia. rewrite Z.add_0_r.
  replace ((0 <? o0 + X / 86400000000) && (o0 + X / 86400000000 <=? 3652059)) with true.
  2:{ symmetry. apply andb_true_iff. split; [apply Z.ltb_lt|apply Z.leb_le]; lia. }
  rewrite (Z.mod_small ((X / 1000000) mod 86400)) by lia.
  rewrite (Z.mod_small (X mod 1000000)) by lia.
  reflexivity.
Qed.

Lemma jan1_plus_us_total (o0 X : Z) :
  dt_total_us (jan1_plus_us o0 X) = dt_total_us (mk_datetime o0 0 0) + X.
Proof.
  unfold dt_total_us, jan1_plus_us. cbn [dt_ordinal dt_second dt_microsecond].
  unfold us_per_day, us_per_second, seconds_per_day. change (24 * 3600) with 86400.
  pose proof (Z.div_mod X 1000000 ltac:(lia)) as H1.
  pose proof (Z.div_mod (X / 1000000) 86400 ltac:(lia)) as H2.
  assert (H3 : X / 86400000000 = X / 1000000 / 86400)
    by (rewrite Z.div_div by lia; reflexivity).
  rewrite H3. lia.
Qed.

Lemma jan1_plus_us_leb (o0 Xa Xb : Z) :
  0 <= Xa <= Xb -> dt_leb (jan1_plus_us o0 Xa) (jan1_plus_us o0 Xb) = true.
Proof.
  intros HX. unfold dt_leb, dt_cmp, jan1_plus_us.
  cbn [dt_ordinal dt_second dt_microsecond].
  unfold us_per_day, us_per_second, seconds_per_day. change (24 * 3600) with 86400.
  assert (Ha3 : Xa / 86400000000 = Xa / 1000000 / 86400)
    by (rewrite Z.div_div by lia; reflexivity).
  assert (Hb3 : Xb / 86400000000 = Xb / 1000000 / 86400)
    by (rewrite Z.div_div by lia; reflexivity).
  pose proof (Z.div_mod Xa 1000000 ltac:(lia)) as Ha1.
  pose proof (Z.div_mod Xb 1000000 ltac:(lia)) as Hb1.
  pose proof (Z.mod_pos_bound Xa 1000000 ltac:(lia)) as Ha1'.
  pose proof (Z.mod_pos_bound Xb 1000000 ltac:(lia)) as Hb1'.
  pose proof (Z.div_mod (Xa / 1000000) 86400 ltac:(lia)) as Ha2.
  pose proof (Z.div_mod (Xb / 1000000) 86400 ltac:(lia)) as Hb2.
  pose proof (Z.mod_pos_bound (Xa / 1000000) 86400 ltac:(lia)) as Ha2'.
  pose proof (Z.mod_pos_bound (Xb / 1000000) 86400 ltac:(lia)) as Hb2'.
  rewrite Ha3, Hb3.
  destruct (Z.compare_spec (o0 + Xa / 1000000 / 86400) (o0 + Xb / 1000000 / 86400));
    [|reflexivity|lia].
  destruct (Z.compare_spec ((Xa / 1000000) mod 86400) ((Xb / 1000000) mod 86400));
    [|reflexivity|lia].
  destruct (Z.compare_spec (Xa mod 1000000) (Xb mod 1000000));
    [reflexivity|reflexivity|lia].
Qed.

Lemma datetime_jan1_ok (year : Z) :
  1 <= year <= 9999 ->
  datetime_jan1 year = Ok (mk_datetime (days_before_year year + 1) 0 0).
Proof.
  intros Hy. unfold datetime_jan1.
  destruct (year <? - INT_MAX - 1) eqn:H1;
    [apply Z.ltb_lt in H1; unfold INT_MAX in H1; lia|].
  destruct (INT_MAX <? year) eqn:H2;
    [apply Z.ltb_lt in H2; unfold INT_MAX in H2; lia|].
  destruct (MINYEAR <=? year) eqn:H3;
    [|apply Z.leb_gt in H3; unfold MINYEAR in H3; lia].
  destruct (year <=? MAXYEAR) eqn:H4;
    [|apply Z.leb_gt in H4; unfold MAXYEAR in H4; lia].
  reflexivity.
Qed.

Lemma days_before_year_bounds (year : Z) :
  1 <= year <= 9999 ->
  0 <= days_before_year year
  /\ days_before_year year + 1 + 364 <= MAXORDINAL
  /\ (year <= 9998 -> days_before_year year + 1 + 366 <= MAXORDINAL).
Proof.
  intros Hy. unfold days_before_year, MAXORDINAL. cbn zeta.
  pose proof (Z.div_mod (year - 1) 4 ltac:(lia)).
  pose proof (Z.mod_pos_bound (year - 1) 4 ltac:(lia)).
  pose proof (Z.div_mod (year - 1) 100 ltac:(lia)).
  pose proof (Z.mod_pos_bound (year - 1) 100 ltac:(lia)).
  pose proof (Z.div_mod (year - 1) 400 ltac:(lia)).
  pose proof (Z.mod_pos_bound (year - 1) 400 ltac:(lia)).
  lia.
Qed.

(** The offset from January 1, in microseconds. *)
Lemma decode_offset (m : positive) (e y : Z) :
  fits (S754_finite false m e) ->
  (IZR y <= F2R (Zpos m) e < IZR y + 1)%R -> 1 <= y <= 9999 ->
  exists X,
    timedelta_days (mul (sub (S754_finite false m e) (of_int y))
                        (of_int (days_in_year y)))
    = microseconds_to_delta X
    /\ us_rel (B2R (mul (sub (S754_finite false m e) (of_int y))
                        (of_int (days_in_year y)))) X
    /\ 0 <= X <= days_in_year y * us_per_day.
Proof.
  intros Hf Hfl Hy.
  destruct (decode_product m e y Hf Hfl Hy) as (frac & _ & -> & Hp & HpD).
  set (p := mul _ _) in *.
  destruct Hp as (Hfp & Hsp & _).
  destruct (timedelta_days_us p Hfp Hsp) as (X & Htd & Hus).
  exists X. split; [exact Htd|]. split; [exact Hus|].
  destruct (us_rel_bounds _ _ Hus) as (ip & Hfloor & Hip & HX & Hexact).
  set (D := days_in_year y) in *.
  assert (HipD : ip <= D).
  { assert (H : (IZR ip < IZR (D + 1))%R) by (rewrite plus_IZR; lra).
    apply lt_IZR in H. lia. }
  unfold us_per_day in *.
  destruct (Z.eq_dec ip D) as [Heq|Hne].
  - subst ip. rewrite Hexact by lra. lia.
  - nia.
Qed.

Lemma decode_fold (a : float) (y X : Z) :
  to_int a = Ok y -> 1 <= y <= 9999 ->
  timedelta_days (mul (sub a (of_int y)) (of_int (days_in_year y)))
  = microseconds_to_delta X ->
  0 <= X <= 400 * us_per_day ->
  days_before_year y + 1 + X / us_per_day <= MAXORDINAL ->
  fractional_year_to_datetime a = Ok (jan1_plus_us (days_before_year y + 1) X).
Proof.
  intros Hint Hy Htd HX Hord. unfold fractional_year_to_datetime.
  rewrite Hint, bind_Ok. rewrite datetime_jan1_ok, bind_Ok by exact Hy.
  fold (days_in_year y). rewrite Htd, microseconds_to_delta_small, bind_Ok by exact HX.
  apply datetime_add_jan1; [lia|].
  pose proof (days_before_year_bounds y Hy) as [H0 _].
  assert (0 <= X / us_per_day) by (apply Z.div_pos; unfold us_per_day; lia).
  lia.
Qed.

(** The offset is monotone in the year fraction within a year. *)
Lemma decode_offset_mono (ma mb : positive) (ea eb y Xa Xb : Z) :
  fits (S754_finite false ma ea) -> fits (S754_finite false mb eb) ->
  (IZR y <= F2R (Zpos ma) ea)%R -> (F2R (Zpos ma) ea <= F2R (Zpos mb) eb)%R ->
  (F2R (Zpos mb) eb < IZR y + 1)%R -> 1 <= y <= 9999 ->
  us_rel (B2R (mul (sub (S754_finite false ma ea) (of_int y))
                   (of_int (days_in_year y)))) Xa ->
  us_rel (B2R (mul (sub (S754_finite false mb eb) (of_int y))
                   (of_int (days_in_year y)))) Xb ->
  Xa <= Xb.
Proof.
  intros Hfa Hfb Hlo Hab Hhi Hy Ha Hb.
  destruct (decode_product ma ea y Hfa ltac:(lra) Hy) as (fa & Hra & -> & Hpa & _).
  destruct (decode_product mb eb y Hfb ltac:(lra) Hy) as (fb & Hrb & -> & Hpb & _).
  refine (us_rel_mono _ _ Xa Xb _ Ha Hb).
  apply (rounds_to_mono _ _ _ _ Hpa Hpb).
  pose proof (rounds_to_mono _ _ _ _ Hra Hrb ltac:(lra)) as Hfr.
  assert (0 < IZR (days_in_year y))%R
    by (apply IZR_lt; unfold days_in_year; destruct (is_leap y); lia).
  nra.
Qed.

(** ** The last representable instant of year 9999 *)

Lemma below_10000 (m : positive) (e : Z) :
  fits (S754_finite false m e) -> (F2R (Zpos m) e < 10000)%R ->
  (F2R (Zpos m) e <= B2R last_9999)%R.
Proof.
  intros [Hd He] Hlt. cbn [last_9999 B2R cond_Zopp].
  assert (H10 : 10000%R = F2R 5497558138880000 (-39)).
  { change 5497558138880000 with (10000 * 2 ^ 39). rewrite F2R_scale by lia.
    unfold F2R. replace (-39 + 39) with 0 by lia. rewrite bpow_0. ring. }
  destruct (Z_le_gt_dec (-39) e) as [Hge|Hlt39].
  - assert (Hs : F2R (Zpos m) e = F2R (Zpos m * 2 ^ (e + 39)) (-39)).
    { rewrite F2R_scale by lia. f_equal. lia. }
    rewrite Hs in *. rewrite H10 in Hlt. apply F2R_lt_inv in Hlt.
    apply F2R_le. lia.
  - pose proof (mag_bounds m e) as [_ Hhi].
    assert (Hb : (bpow (digits m + e) <= bpow 13)%R) by (apply bpow_le; lia).
    assert (H13 : bpow 13 = F2R (2 ^ 13 * 2 ^ 39) (-39)).
    { rewrite F2R_scale by lia. rewrite F2R_bpow by lia. f_equal. }
    assert (Hc : (F2R (2 ^ 13 * 2 ^ 39) (-39) <= F2R 5497558138879999 (-39))%R)
      by (apply F2R_le; vm_compute; discriminate).
    lra.
Qed.

Lemma last_9999_offset :
  timedelta_days (mul (sub last_9999 (of_int 9999)) (of_int (days_in_year 9999)))
  = Ok (mk_timedelta 364 86399 999943).
Proof. vm_compute. reflexivity. Qed.

Lemma year_9999_offset (m : positive) (e X : Z) :
  fits (S754_finite false m e) ->
  (9999 <= F2R (Zpos m) e < 9999 + 1)%R ->
  us_rel (B2R (mul (sub (S754_finite false m e) (of_int 9999))
                   (of_int (days_in_year 9999)))) X ->
  X / us_per_day <= 364.
Proof.
  intros Hf Hfl Hus.
  assert (Hf0 : fits last_9999) by (cbn; split; [vm_compute; discriminate|lia]).
  assert (Hv0 : (9999 <= B2R last_9999 < 9999 + 1)%R).
  { cbn [last_9999 B2R cond_Zopp]. split.
    - replace 9999%R with (F2R (9999 * 2 ^ 39) (-39)).
      + apply F2R_le. vm_compute. discriminate.
      + rewrite F2R_scale by lia. unfold F2R. replace (-39 + 39) with 0 by lia.
        rewrite bpow_0. ring.
    - replace (9999 + 1)%R with (F2R (10000 * 2 ^ 39) (-39)).
      + apply F2R_lt. vm_compute. reflexivity.
      + rewrite F2R_scale by lia. unfold F2R. replace (-39 + 39) with 0 by lia.
        rewrite bpow_0. ring. }
  destruct (decode_offset 5497558138879999 (-39) 9999 Hf0 Hv0 ltac:(lia))
    as (X0 & Htd & Hus0 & HX0).
  fold last_9999 in Htd.
  rewrite last_9999_offset in Htd.
  rewrite microseconds_to_delta_small in Htd
    by (unfold days_in_year in HX0; simpl in HX0; unfold us_per_day in *; lia).
  injection Htd as Hd _ _.
  assert (HX : X <= X0).
  { cbn [last_9999 B2R cond_Zopp] in Hv0.
    apply (decode_offset_mono m 5497558138879999 e (-39) 9999 X X0).
    - exact Hf.
    - exact Hf0.
    - lra.
    - apply (below_10000 m e Hf). lra.
    - lra.
    - lia.
    - exact Hus.
    - exact Hus0. }
  unfold us_per_day in *.
  apply Z.le_trans with (X0 / 86400000000); [apply Z.div_le_mono; lia|lia].
Qed.

(** ** Accuracy of the offset *)

Lemma bpow_neg (n : Z) : 0 <= n -> bpow (- n) = (/ IZR (2 ^ n))%R.
Proof.
  intros Hn. pose proof (bpow_opp n) as H. rewrite (bpow_IZR n Hn) in H.
  assert (Hp : (0 < IZR (2 ^ n))%R)
    by (apply IZR_lt, Z.pow_pos_nonneg; lia).
  apply Rmult_eq_reg_r with (IZR (2 ^ n)); [|lra].
  rewrite H. field. lra.
Qed.

Lemma Rabs_le_inv (x a : R) : (Rabs x <= a)%R -> (- a <= x <= a)%R.
Proof. unfold Rabs. destruct (Rcase_abs x); lra. Qed.

Lemma rnd_error (m : positive) (e : Z) :
  (Rabs (F2R (rnd_mant m e) (cexp m e) - F2R (Zpos m) e) <= bpow (cexp m e) / 2)%R.
Proof.
  pose proof (rnd_mant_rne m e) as [[H1 H2] _].
  set (E := cexp m e) in *. set (K := rnd_mant m e) in *. set (v := F2R (Zpos m) e) in *.
  pose proof (bpow_gt_0 E) as HE. pose proof (bpow_opp E) as Ho.
  assert (Hv : v = (v * bpow (- E) * bpow E)%R).
  { transitivity (v * (bpow (- E) * bpow E))%R; [rewrite Ho; ring|ring]. }
  apply Rabs_le. unfold F2R at 1 2. split; nra.
Qed.

Lemma rounds_to_error (v : R) (x : float) (g : Z) :
  rounds_to v x -> (v <= bpow g)%R -> -1021 <= g ->
  (Rabs (B2R x - v) <= bpow (g - 53))%R.
Proof.
  intros (_ & _ & [[Hv Hx]|(m & e & Hv & Hx)]) Hb Hg.
  - rewrite Hv, Hx, Rminus_0_r, Rabs_R0. pose proof (bpow_gt_0 (g - 53)). lra.
  - rewrite Hx, Hv. rewrite Hv in Hb.
    pose proof (mag_le_bpow m e g Hb) as Hmag.
    pose proof (rnd_error m e) as Herr.
    assert (HE : cexp m e <= g - 52) by (unfold cexp; rewrite fexp_eq; lia).
    apply bpow_le in HE.
    replace (g - 52) with (g - 53 + 1) in HE by lia.
    rewrite bpow_add, bpow_1 in HE. lra.
Qed.

Lemma us_rel_error (v : R) (X : Z) :
  us_rel v X ->
  (Rabs (IZR X - IZR us_per_day * v) <= 1 / 2 + bpow (-16))%R.
Proof.
  intros (ip & f & Hv & Hip & Hf & [[Hf0 HX]|(Hfpos & q & Hq & [[HK1 HK2] _])]).
  - rewrite HX, Hv, Hf0, mult_IZR.
    replace (IZR ip * IZR us_per_day - IZR us_per_day * (IZR ip + 0))%R with 0%R by ring.
    rewrite Rabs_R0. pose proof (bpow_gt_0 (-16)). lra.
  - assert (HU : (0 < IZR us_per_day)%R) by (apply IZR_lt; reflexivity).
    assert (Hq37 : (IZR us_per_day * f <= bpow 37)%R).
    { apply Rle_trans with (IZR us_per_day); [nra|].
      apply IZR_le_bpow; [lia|]. vm_compute. discriminate. }
    pose proof (rounds_to_error _ _ 37 Hq Hq37 ltac:(lia)) as Herr.
    replace (37 - 53) with (-16) in Herr by lia.
    apply Rabs_le_inv in Herr. rewrite minus_IZR, mult_IZR in HK1, HK2.
    rewrite Hv. apply Rabs_le. split; lra.
Qed.

(** The offset is the exact product of the fraction, the days of the
    year and the microseconds of a day, to less than one microsecond. *)
Lemma decode_offset_error (m : positive) (e y X : Z) :
  fits (S754_finite false m e) ->
  (IZR y <= F2R (Zpos m) e < IZR y + 1)%R -> 1 <= y <= 9999 ->
  us_rel (B2R (mul (sub (S754_finite false m e) (of_int y))
                   (of_int (days_in_year y)))) X ->
  (Rabs (IZR X - (F2R (Zpos m) e - IZR y) * IZR (days_in_year y) * IZR us_per_day)
   < 1)%R.
Proof.
  intros Hf Hfl Hy Hus.
  destruct (decode_product m e y Hf Hfl Hy) as (frac & Hfr & -> & Hp & _).
  set (p := mul _ _) in *. set (D := days_in_year y) in *.
  assert (HD : D = 365 \/ D = 366) by (unfold D, days_in_year; destruct (is_leap y); lia).
  assert (HDR : (365 <= IZR D <= 366)%R)
    by (destruct HD as [-> | ->]; lra).
  set (frac := sub _ _) in *. set (vf := (F2R (Zpos m) e - IZR y)%R) in *.
  assert (Hvf : (0 <= vf < 1)%R) by (unfold vf; lra).
  assert (He1 : (Rabs (B2R frac - vf) <= bpow (-53))%R).
  { apply (rounds_to_error vf frac 0 Hfr); [rewrite bpow_0; lra|lia]. }
  pose proof (rounds_to_nonneg _ _ Hfr) as Hfr0.
  assert (Hfr1 : (B2R frac <= 1)%R).
  { apply Rabs_le_inv in He1. pose proof (bpow_gt_0 (-53)).
    assert (H1 : F2R (Zpos 1) 0 = 1%R) by (unfold F2R; rewrite bpow_0; lra).
    rewrite <- H1. apply (rounds_to_le vf); [vm_compute; discriminate|lia|exact Hfr|].
    rewrite H1. lra. }
  assert (He2 : (Rabs (B2R p - B2R frac * IZR D) <= bpow (-44))%R).
  { apply (rounds_to_error _ p 9 Hp); [|lia].
    rewrite (bpow_IZR 9) by lia. change (IZR (2 ^ 9)) with 512%R. nra. }
  pose proof (us_rel_error _ _ Hus) as He3.
  replace (bpow (-53)) with (/ IZR (2 ^ 53))%R in He1
    by (symmetry; apply (bpow_neg 53); lia).
  replace (bpow (-44)) with (/ IZR (2 ^ 44))%R in He2
    by (symmetry; apply (bpow_neg 44); lia).
  replace (bpow (-16)) with (/ IZR (2 ^ 16))%R in He3
    by (symmetry; apply (bpow_neg 16); lia).
  change (IZR (2 ^ 53)) with 9007199254740992%R in He1.
  change (IZR (2 ^ 44)) with 17592186044416%R in He2.
  change (IZR (2 ^ 16)) with 65536%R in He3.
  apply Rabs_le_inv in He1, He2, He3.
  unfold us_per_day in *. apply Rabs_def1; nra.
Qed.

(** * The time decoder *)

Lemma is_leap_gregorian (year : Z) :
  is_leap year = true
  <-> year mod 4 = 0 /\ (year mod 100 <> 0 \/ year mod 400 = 0).
Proof.
  unfold is_leap. rewrite andb_true_iff, orb_true_iff, negb_true_iff.
  rewrite !Z.eqb_eq, Z.eqb_neq. reflexivity.
Qed.

Lemma decode_in_year (a : float) (y : Z) :
  valid a = true -> to_int a = Ok y -> 1 <= y <= 9999 ->
  exists (m : positive) (e : Z) (X : Z),
    a = S754_finite false m e
    /\ fits a
    /\ (IZR y <= F2R (Zpos m) e < IZR y + 1)%R
    /\ fractional_year_to_datetime a
       = Ok (jan1_plus_us (days_before_year y + 1) X)
    /\ us_rel (B2R (mul (sub a (of_int y)) (of_int (days_in_year y)))) X
    /\ 0 <= X <= days_in_year y * us_per_day.
Proof.
  intros Hv Hint Hy.
  destruct (to_int_pos_inv a y Hint ltac:(lia)) as (m & e & -> & Hfl).
  pose proof (valid_fits false m e Hv) as Hf.
  destruct (decode_offset m e y Hf Hfl Hy) as (X & Htd & Hus & HX).
  assert (HD : days_in_year y = 365 \/ days_in_year y = 366)
    by (unfold days_in_year; destruct (is_leap y); lia).
  assert (HX400 : 0 <= X <= 400 * us_per_day) by (unfold us_per_day in *; lia).
  assert (Hord : days_before_year y + 1 + X / us_per_day <= MAXORDINAL).
  { pose proof (days_before_year_bounds y Hy) as (_ & H364 & H366).
    destruct (Z.eq_dec y 9999) as [->|Hne].
    - pose proof (year_9999_offset m e X Hf Hfl Hus). lia.
    - assert (X / us_per_day <= 366).
      { apply Z.div_le_upper_bound; unfold us_per_day in *; lia. }
      specialize (H366 ltac:(lia)). lia. }
  pose proof (decode_fold _ y X Hint Hy Htd HX400 Hord) as Hdt.
  exists m, e, X. repeat (split; [assumption || reflexivity|]). exact HX.
Qed.

Lemma decode_outside_calendar (year_frac : float) (year : Z) :
  to_int year_frac = Ok year ->
  ~ 1 <= year <= 9999 ->
  fractional_year_to_datetime year_frac
  = Err (if (year <? - INT_MAX - 1) || (INT_MAX <? year)
         then OverflowError else ValueError).
Proof.
  intros Hint Hy. unfold fractional_year_to_datetime.
  rewrite Hint, bind_Ok. unfold datetime_jan1, MINYEAR, MAXYEAR.
  destruct ((year <? - INT_MAX - 1) || (INT_MAX <? year)); [reflexivity|].
  replace ((1 <=? year) && (year <=? 9999)) with false; [reflexivity|].
  symmetry. apply andb_false_iff.
  destruct (Z_le_dec 1 year) as [H1|H1];
    [right; apply Z.leb_gt; lia|left; apply Z.leb_gt; lia].
Qed.

(** C3 (amended). For a year fraction whose integer part is a year of the
    calendar, 1 to 9999, the decoder tests the year by the Gregorian rule,
    takes 366 or 365 days, and returns January 1 of that year plus a whole
    number [X] of microseconds that is within one microsecond of
    fraction * days-in-year days; 2024.5 lands 183 days into 2024 and
    2023.5 lands 182.5 days into 2023.  For an integer part outside
    1..9999, year 0 included, the decoder raises: [ValueError] when the
    year is a C int, [OverflowError] otherwise. *)
Theorem decode_calendar_date :
  (forall (year_frac : float) (year : Z),
     valid year_frac = true ->
     to_int year_frac = Ok year ->
     1 <= year <= 9999 ->
     let days := if is_leap year then 366 else 365 in
     (is_leap year = true
      <-> year mod 4 = 0 /\ (year mod 100 <> 0 \/ year mod 400 = 0))
     /\ exists X : Z,
          fractional_year_to_datetime year_frac
          = Ok (jan1_plus_us (days_before_year year + 1) X)
          /\ 0 <= X <= days * us_per_day
          /\ (Rabs (IZR X
                    - (B2R year_frac - IZR year) * IZR days * IZR us_per_day)
              < 1)%R)
  /\ fractional_year_to_datetime y2024_5
     = Ok (jan1_plus_us (days_before_year 2024 + 1) (183 * us_per_day))
  /\ fractional_year_to_datetime y2023_5
     = Ok (jan1_plus_us (days_before_year 2023 + 1)
             (182 * us_per_day + us_per_day / 2))
  /\ (forall (year_frac : float) (year : Z),
        to_int year_frac = Ok year ->
        ~ 1 <= year <= 9999 ->
        fractional_year_to_datetime year_frac
        = Err (if (year <? - INT_MAX - 1) || (INT_MAX <? year)
               then OverflowError else ValueError)).
Proof.
  split; [|split; [vm_compute; reflexivity|split; [vm_compute; reflexivity|]]];
    [|exact decode_outside_calendar].
  intros year_frac year Hv Hint Hy. cbn zeta. split; [apply is_leap_gregorian|].
  destruct (decode_in_year year_frac year Hv Hint Hy)
    as (m & e & X & -> & Hf & Hfl & Hdt & Hus & HX).
  exists X. split; [exact Hdt|]. split; [exact HX|].
  apply (decode_offset_error m e year X Hf Hfl Hy Hus).
Qed.

Lemma decode_calendar_date_witness :
  (is_leap 2023 = true
   <-> 2023 mod 4 = 0 /\ (2023 mod 100 <> 0 \/ 2023 mod 400 = 0))
  /\ exists X : Z,
       fractional_year_to_datetime y2023_5
       = Ok (jan1_plus_us (days_before_year 2023 + 1) X)
       /\ 0 <= X <= (if is_leap 2023 then 366 else 365) * us_per_day
       /\ (Rabs (IZR X
                 - (B2R y2023_5 - IZR 2023)
                   * IZR (if is_leap 2023 then 366 else 365) * IZR us_per_day)
           < 1)%R.
Proof.
  apply (proj1 decode_calendar_date y2023_5 2023).
  - vm_compute. reflexivity.
  - vm_compute. reflexivity.
  - lia.
Defined.

(** The claim as stated fails at year 0: one half is finite and not
    negative, and the decoder raises. *)
Lemma decode_year_zero_raises :
  is_finite (of_dyadic 1 (-1)) = true
  /\ ltb (of_dyadic 1 (-1)) (S754_zero false) = false
  /\ fractional_year_to_datetime (of_dyadic 1 (-1)) = Err ValueError
  /\ ~ (exists dt, fractional_year_to_datetime (of_dyadic 1 (-1)) = Ok dt).
Proof.
  split; [reflexivity|]. split; [reflexivity|]. split; [vm_compute; reflexivity|].
  intros [dt H]. vm_compute in H. discriminate H.
Qed.

(** C8. Within a calendar year the decoded date is monotone in the year
    fraction: for year fractions a <= b with the same integer part y, a
    year of the calendar, both decode and decode(a) <= decode(b). *)
Theorem decode_monotone_in_year (a b : float) (y : Z) :
  valid a = true -> valid b = true ->
  to_int a = Ok y -> to_int b = Ok y ->
  1 <= y <= 9999 ->
  leb a b = true ->
  exists da db,
    fractional_year_to_datetime a = Ok da
    /\ fractional_year_to_datetime b = Ok db
    /\ dt_leb da db = true.
Proof.
  intros Hva Hvb Hia Hib Hy Hle.
  destruct (decode_in_year a y Hva Hia Hy)
    as (ma & ea & Xa & -> & Hfa & Hfla & Hda & Husa & HXa).
  destruct (decode_in_year b y Hvb Hib Hy)
    as (mb & eb & Xb & -> & Hfb & Hflb & Hdb & Husb & HXb).
  exists (jan1_plus_us (days_before_year y + 1) Xa),
         (jan1_plus_us (days_before_year y + 1) Xb).
  split; [exact Hda|]. split; [exact Hdb|].
  apply jan1_plus_us_leb.
  pose proof (leb_B2R ma mb ea eb Hva Hvb Hle) as Hab.
  pose proof (decode_offset_mono ma mb ea eb y Xa Xb Hfa Hfb
                ltac:(lra) Hab ltac:(lra) Hy Husa Husb).
  lia.
Qed.

Lemma decode_monotone_in_year_witness :
  exists da db,
    fractional_year_to_datetime (of_dyadic 8097 (-2)) = Ok da
    /\ fractional_year_to_datetime y2024_5 = Ok db
    /\ dt_leb da db = true.
Proof.
  apply (decode_monotone_in_year (of_dyadic 8097 (-2)) y2024_5 2024).
  - vm_compute. reflexivity.
  - vm_compute. reflexivity.
  - vm_compute. reflexivity.
  - vm_compute. reflexivity.
  - lia.
  - vm_compute. reflexivity.
Defined.

(** * Further properties of [main] *)

(** ** Indexing with wrapped and out-of-range indices *)

Lemma norm_index_wrap (n : nat) (i : Z) :
  - Z.of_nat n <= i < Z.of_nat n ->
  norm_index n i = Ok (Z.to_nat (i mod Z.of_nat n)).
Proof.
  intros Hi. unfold norm_index.
  destruct (0 <=? i) eqn:H0; cbn [andb].
  - apply Z.leb_le in H0.
    replace (i <? Z.of_nat n) with true by (symmetry; apply Z.ltb_lt; lia).
    rewrite Z.mod_small by lia. reflexivity.
  - apply Z.leb_gt in H0.
    replace (- Z.of_nat n <=? i) with true by (symmetry; apply Z.leb_le; lia).
    replace (i <? 0) with true by (symmetry; apply Z.ltb_lt; lia).
    cbn [andb]. do 2 f_equal.
    rewrite <- (Z.mod_small (i + Z.of_nat n) (Z.of_nat n)) by lia.
    rewrite <- (Z.mul_1_l (Z.of_nat n)) at 1. apply Z.mod_add. lia.
Qed.

Lemma norm_index_out (n : nat) (i : Z) :
  i < - Z.of_nat n \/ Z.of_nat n <= i -> norm_index n i = Err IndexError.
Proof.
  intros Hi. unfold norm_index.
  replace ((0 <=? i) && (i <? Z.of_nat n)) with false.
  - replace ((- Z.of_nat n <=? i) && (i <? 0)) with false; [reflexivity|].
    symmetry. apply andb_false_iff.
    destruct Hi; [left; apply Z.leb_gt|right; apply Z.ltb_ge]; lia.
  - symmetry. apply andb_false_iff.
    destruct Hi; [left; apply Z.leb_gt|right; apply Z.ltb_ge]; lia.
Qed.

Lemma norm_index_lt (n : nat) (i : Z) (i' : nat) :
  norm_index n i = Ok i' -> (i' < n)%nat.
Proof.
  unfold norm_index. intros H.
  destruct ((0 <=? i) && (i <? Z.of_nat n)) eqn:H1.
  - apply andb_true_iff in H1. destruct H1 as [Ha Hb].
    apply Z.leb_le in Ha. apply Z.ltb_lt in Hb. injection H as <-. lia.
  - destruct ((- Z.of_nat n <=? i) && (i <? 0)) eqn:H2; [|discriminate H].
    apply andb_true_iff in H2. destruct H2 as [Ha Hb].
    apply Z.leb_le in Ha. apply Z.ltb_lt in Hb. injection H as <-. lia.
Qed.

Lemma getitem2_wrap {A : Type} (d : A) (a : ndarray2 A) (r c : Z) :
  wf2 a ->
  - Z.of_nat (shape0 a) <= r < Z.of_nat (shape0 a) ->
  - Z.of_nat (shape1 a) <= c < Z.of_nat (shape1 a) ->
  getitem2 a r c = Ok (cell_wrapped d a r c).
Proof.
  intros Hwf Hr Hc. unfold getitem2, cell_wrapped, cell.
  pose proof (norm_index_wrap _ _ Hr) as Hnr. pose proof (norm_index_wrap _ _ Hc) as Hnc.
  pose proof (norm_index_lt _ _ _ Hnr) as Hlr. pose proof (norm_index_lt _ _ _ Hnc) as Hlc.
  rewrite Hnr, bind_Ok, Hnc, bind_Ok.
  rewrite (lookup_or_raise_nth []) by (destruct Hwf; lia). rewrite bind_Ok.
  apply lookup_or_raise_nth. rewrite wf2_row_length; assumption.
Qed.

Lemma getitem2_out {A : Type} (a : ndarray2 A) (r c : Z) :
  (r < - Z.of_nat (shape0 a) \/ Z.of_nat (shape0 a) <= r)
  \/ (c < - Z.of_nat (shape1 a) \/ Z.of_nat (shape1 a) <= c) ->
  getitem2 a r c = Err IndexError.
Proof.
  intros [Hr|Hc]; unfold getitem2.
  - rewrite (norm_index_out _ _ Hr). reflexivity.
  - rewrite (norm_index_out _ _ Hc).
    destruct (norm_index (shape0 a) r) as [r'|e] eqn:Hr; [reflexivity|].
    unfold norm_index in Hr. destruct (_ && _) in Hr; [discriminate|].
    destruct (_ && _) in Hr; [discriminate|]. injection Hr as <-. reflexivity.
Qed.

(** Whatever the arrays, indexing raises nothing but [IndexError]. *)
Lemma norm_index_raises (n : nat) (i : Z) (e : exn) :
  norm_index n i = Err e -> e = IndexError.
Proof.
  unfold norm_index. destruct (_ && _); [discriminate|].
  destruct (_ && _); [discriminate|]. congruence.
Qed.

Lemma lookup_or_raise_raises {A : Type} (l : list A) (i : nat) (e : exn) :
  lookup_or_raise l i = Err e -> e = IndexError.
Proof. unfold lookup_or_raise. destruct (l !! i); [discriminate|congruence]. Qed.

Lemma bind_Err_inv {A B : Type} (r : result A) (k : A -> result B) (e : exn) :
  r ≫= k = Err e -> r = Err e \/ exists a, r = Ok a /\ k a = Err e.
Proof.
  intros H. destruct r as [a|e']; [right; eauto|].
  left. injection H as ->. reflexivity.
Qed.

Lemma bind_Ok_inv {A B : Type} (r : result A) (k : A -> result B) (b : B) :
  r ≫= k = Ok b -> exists a, r = Ok a /\ k a = Ok b.
Proof. intros H. destruct r as [a|e']; [eauto|discriminate H]. Qed.

Lemma getitem2_raises {A : Type} (a : ndarray2 A) (r c : Z) (e : exn) :
  getitem2 a r c = Err e -> e = IndexError.
Proof.
  unfold getitem2. intros H.
  apply bind_Err_inv in H. destruct H as [H|(r' & _ & H)];
    [exact (norm_index_raises _ _ _ H)|].
  apply bind_Err_inv in H. destruct H as [H|(c' & _ & H)];
    [exact (norm_index_raises _ _ _ H)|].
  apply bind_Err_inv in H. destruct H as [H|(row & _ & H)];
    exact (lookup_or_raise_raises _ _ _ H).
Qed.

Lemma mapM_raises {A B : Type} (f : A -> result B) (l : list A) (e0 e : exn) :
  (forall x e', In x l -> f x = Err e' -> e' = e0) ->
  mapM (M := result) f l = Err e -> e = e0.
Proof.
  induction l as [|x l IH]; intros Hf H; cbn [mapM] in H; [discriminate H|].
  apply bind_Err_inv in H. destruct H as [H|(y & _ & H)].
  - exact (Hf x e (or_introl eq_refl) H).
  - apply bind_Err_inv in H. destruct H as [H|(ys & _ & H)]; [|discriminate H].
    apply IH; [|exact H]. intros x' e' Hx'. apply Hf. right. exact Hx'.
Qed.

Lemma mapM_fails {A B : Type} (f : A -> result B) (l : list A) (x : A) (e : exn) :
  In x l -> f x = Err e -> exists e', mapM (M := result) f l = Err e'.
Proof.
  induction l as [|x' l IH]; intros Hin Hx; [destruct Hin|].
  cbn [mapM]. destruct (f x') as [y|e'] eqn:Hfx; [|eexists; reflexivity].
  rewrite bind_Ok. destruct Hin as [->|Hin]; [congruence|].
  destruct (IH Hin Hx) as [e' He']. rewrite He'. eexists. reflexivity.
Qed.

Lemma isel_raises {A : Type} (a : ndarray3 A) (slot k : Z) (e : exn) :
  isel_ni_nk a slot k = Err e -> e = IndexError.
Proof.
  unfold isel_ni_nk. intros H.
  apply bind_Err_inv in H. destruct H as [H|(s' & _ & H)];
    [exact (norm_index_raises _ _ _ H)|].
  apply bind_Err_inv in H. destruct H as [H|(k' & _ & H)];
    [exact (norm_index_raises _ _ _ H)|].
  apply bind_Err_inv in H. destruct H as [H|(plane & _ & H)];
    [exact (lookup_or_raise_raises _ _ _ H)|].
  apply (mapM_raises _ _ IndexError e) in H; [exact H|].
  intros row e' _ He'. exact (lookup_or_raise_raises _ _ _ He').
Qed.

Lemma resolve_raises si sj (geo_lon geo_lat : ndarray2 float) (o k : nat) (e : exn) :
  resolve si sj geo_lon geo_lat o k = Err e -> e = IndexError.
Proof.
  unfold resolve. intros H.
  apply bind_Err_inv in H. destruct H as [H|(i & _ & H)];
    [exact (getitem2_raises _ _ _ _ H)|].
  apply bind_Err_inv in H. destruct H as [H|(j & _ & H)];
    [exact (getitem2_raises _ _ _ _ H)|].
  apply bind_Err_inv in H. destruct H as [H|(lon & _ & H)];
    [exact (getitem2_raises _ _ _ _ H)|].
  apply bind_Err_inv in H. destruct H as [H|(lat & _ & H)];
    [exact (getitem2_raises _ _ _ _ H)|discriminate H].
Qed.

Lemma resolve_wrapped (d : float) (si sj : ndarray2 Z)
    (geo_lon geo_lat : ndarray2 float) (o k : nat) :
  wf2 si -> wf2 sj -> shape0 sj = shape0 si -> shape1 sj = shape1 si ->
  wf2 geo_lon -> wf2 geo_lat ->
  shape0 geo_lat = shape0 geo_lon -> shape1 geo_lat = shape1 geo_lon ->
  (o < shape0 si)%nat -> (k < shape1 si)%nat ->
  - Z.of_nat (shape1 geo_lon) <= cell 0 si o k < Z.of_nat (shape1 geo_lon) ->
  - Z.of_nat (shape0 geo_lon) <= cell 0 sj o k < Z.of_nat (shape0 geo_lon) ->
  resolve si sj geo_lon geo_lat o k
  = Ok (cell_wrapped d geo_lon (cell 0 sj o k) (cell 0 si o k),
        cell_wrapped d geo_lat (cell 0 sj o k) (cell 0 si o k)).
Proof.
  intros Hwi Hwj H0 H1 Hwlon Hwlat Hr Hc Ho Hk Hi Hj. unfold resolve.
  rewrite (getitem2_cell 0 si) by assumption. rewrite bind_Ok.
  rewrite (getitem2_cell 0 sj) by (assumption || lia). rewrite bind_Ok.
  rewrite (getitem2_wrap d geo_lon) by assumption. rewrite bind_Ok.
  rewrite (getitem2_wrap d geo_lat) by (assumption || lia). rewrite bind_Ok.
  reflexivity.
Qed.

(** X2. For stored indices within [-n, n) on each axis the resolver
    returns the cell at row [j mod rows], column [i mod columns]: a
    negative index is read from the end of the axis. *)
Theorem resolve_wraps_negative (d : float) (si sj : ndarray2 Z)
    (geo_lon geo_lat : ndarray2 float) (o k : nat) :
  wf2 si -> wf2 sj -> shape0 sj = shape0 si -> shape1 sj = shape1 si ->
  wf2 geo_lon -> wf2 geo_lat ->
  shape0 geo_lat = shape0 geo_lon -> shape1 geo_lat = shape1 geo_lon ->
  (o < shape0 si)%nat -> (k < shape1 si)%nat ->
  - Z.of_nat (shape1 geo_lon) <= cell 0 si o k < Z.of_nat (shape1 geo_lon) ->
  - Z.of_nat (shape0 geo_lon) <= cell 0 sj o k < Z.of_nat (shape0 geo_lon) ->
  resolve si sj geo_lon geo_lat o k
  = Ok (cell_wrapped d geo_lon (cell 0 sj o k) (cell 0 si o k),
        cell_wrapped d geo_lat (cell 0 sj o k) (cell 0 si o k)).
Proof. apply resolve_wrapped. Qed.

Lemma resolve_wraps_negative_witness :
  resolve (storm_grid_coord_i ds_other_key) (storm_grid_coord_j ds_other_key)
    (geo 0) (geo 500) 1 0
  = Ok (of_int 72, of_int 572).
Proof.
  apply (resolve_wraps_negative S754_nan (storm_grid_coord_i ds_other_key)
           (storm_grid_coord_j ds_other_key) (geo 0) (geo 500) 1%nat 0%nat).
  - split; [reflexivity|repeat constructor].
  - split; [reflexivity|repeat constructor].
  - reflexivity.
  - reflexivity.
  - split; [reflexivity|repeat constructor].
  - split; [reflexivity|repeat constructor].
  - reflexivity.
  - reflexivity.
  - simpl. lia.
  - simpl. lia.
  - vm_compute. split; discriminate || reflexivity.
  - vm_compute. split; discriminate || reflexivity.
Defined.

(** ** What [main] raises *)

Lemma modf_raises (x : float) (e : exn) : modf x = Err e -> e <> IndexError.
Proof.
  destruct x as [s|s| |s m ex]; cbn [modf]; try discriminate; try congruence.
  destruct (0 <=? ex); discriminate.
Qed.

Lemma timedelta_days_raises (day : float) (e : exn) :
  timedelta_days day = Err e -> e <> IndexError.
Proof.
  unfold timedelta_days, accum. intros H.
  destruct (modf day) as [[fp ip]|e1] eqn:Hm.
  - rewrite bind_Ok in H.
    destruct (is_zero fp).
    + rewrite bind_Ok in H. unfold microseconds_to_delta in H.
      destruct (_ <=? _) in H; [discriminate H|congruence].
    + destruct (modf (mul (of_int us_per_day) fp)) as [[fp' ip']|e2] eqn:Hm2.
      * rewrite !bind_Ok in H. unfold microseconds_to_delta in H.
        destruct (_ <=? _) in H; [discriminate H|congruence].
      * injection H as <-. exact (modf_raises _ _ Hm2).
  - injection H as <-. exact (modf_raises _ _ Hm).
Qed.

Lemma decode_raises (year_frac : float) (e : exn) :
  fractional_year_to_datetime year_frac = Err e -> e <> IndexError.
Proof.
  unfold fractional_year_to_datetime. intros H.
  apply bind_Err_inv in H. destruct H as [H|(y & _ & H)].
  { destruct year_frac; cbn [to_int] in H; congruence. }
  apply bind_Err_inv in H. destruct H as [H|(j & _ & H)].
  { unfold datetime_jan1 in H. destruct (_ || _) in H; [congruence|].
    destruct (_ && _) in H; congruence. }
  apply bind_Err_inv in H. destruct H as [H|(t & _ & H)].
  { exact (timedelta_days_raises _ _ H). }
  unfold datetime_add in H. destruct (_ && _) in H; congruence.
Qed.

Lemma decode_entry_raises (tfill : option float) (tv : float) (e : exn) :
  decode_entry tfill tv = Err e -> e <> IndexError.
Proof.
  unfold decode_entry. intros H.
  assert (Hf : Some <$> fractional_year_to_datetime tv = Err e -> e <> IndexError).
  { destruct (fractional_year_to_datetime tv) as [d|e'] eqn:Hd; [discriminate|].
    intros Hx. injection Hx as <-. exact (decode_raises _ _ Hd). }
  destruct tfill as [f|]; [|exact (Hf H)].
  destruct (negb (eqb tv f)); [exact (Hf H)|discriminate H].
Qed.

Lemma mapM_raises_not {A B : Type} (f : A -> result B) (l : list A) (e0 e : exn) :
  (forall x e', In x l -> f x = Err e' -> e' <> e0) ->
  mapM (M := result) f l = Err e -> e <> e0.
Proof.
  induction l as [|x l IH]; intros Hf H; cbn [mapM] in H; [discriminate H|].
  apply bind_Err_inv in H. destruct H as [H|(y & _ & H)].
  - exact (Hf x e (or_introl eq_refl) H).
  - apply bind_Err_inv in H. destruct H as [H|(ys & _ & H)]; [|discriminate H].
    apply IH; [|exact H]. intros x' e' Hx'. apply Hf. right. exact Hx'.
Qed.

Lemma eqb_nan_l (f : float) : eqb S754_nan f = false.
Proof. destruct f; reflexivity. Qed.

Lemma decode_entry_nan (tfill : option float) :
  decode_entry tfill S754_nan = Err ValueError.
Proof.
  unfold decode_entry. destruct tfill as [f|]; [|reflexivity].
  rewrite eqb_nan_l. reflexivity.
Qed.

Lemma select_no_slots si sj (fill_i fill_j : option Z) :
  shape1 si = 0%nat -> select si sj fill_i fill_j = Err ValueError.
Proof.
  intros Hz. unfold select, sum_axis0.
  destruct (valid_mask_shape si sj fill_i fill_j) as [_ Hs1].
  rewrite Hs1, Hz. reflexivity.
Qed.

Section MainRaises.

Variable format_2f : float -> string.
Variable strftime_ymd : datetime -> string.

Lemma plot_profile_raises (ds : dataset) (k o : nat) (e : exn) :
  plot_profile format_2f ds k o = Err e -> e = IndexError.
Proof.
  unfold plot_profile. intros H.
  apply bind_Err_inv in H. destruct H as [H|(x & _ & H)];
    [exact (isel_raises _ _ _ _ H)|].
  apply bind_Err_inv in H. destruct H as [H|(y & _ & H)];
    [exact (isel_raises _ _ _ _ H)|].
  apply bind_Err_inv in H. destruct H as [H|([lon lat] & _ & H)];
    [exact (resolve_raises _ _ _ _ _ _ _ H)|discriminate H].
Qed.

Lemma plot_profile_out (ds : dataset) (k o : nat) :
  dataset_wf ds ->
  (o < shape0 (storm_grid_coord_i ds))%nat ->
  (k < shape1 (storm_grid_coord_i ds))%nat ->
  ~ in_grid_wrapped ds o k ->
  plot_profile format_2f ds k o = Err IndexError.
Proof.
  intros Hwf Ho Hk. destruct Hwf. unfold plot_profile.
  rewrite (isel_slice3 (A := float) S754_nan (sea_surface_temperature ds)) by (assumption || lia).
  rewrite bind_Ok.
  rewrite (isel_slice3 (A := float) S754_nan (observation_level_in_pressure ds)) by (assumption || lia).
  rewrite bind_Ok. unfold resolve.
  rewrite (getitem2_cell 0 (storm_grid_coord_i ds)) by assumption. rewrite bind_Ok.
  rewrite (getitem2_cell 0 (storm_grid_coord_j ds)) by (assumption || lia).
  rewrite bind_Ok.
  unfold in_grid_wrapped. intros Hout.
  rewrite (getitem2_out (lon2 ds)); [reflexivity|]. lia.
Qed.

(** X1. A dataset without any slot cannot be plotted: the per-slot
    counts are empty, [argmax] raises and [main] ends in [ValueError]. *)
Theorem main_no_slots_ValueError (prefix : string) (ds : dataset) :
  dataset_wf ds ->
  shape1 (storm_grid_coord_i ds) = 0%nat ->
  select (storm_grid_coord_i ds) (storm_grid_coord_j ds)
    (storm_grid_coord_i_attrs ds !! fill_key)
    (storm_grid_coord_j_attrs ds !! fill_key) = Err ValueError
  /\ main format_2f strftime_ymd prefix ds = Err ValueError.
Proof.
  intros Hwf Hz.
  pose proof (select_no_slots (storm_grid_coord_i ds) (storm_grid_coord_j ds)
                (storm_grid_coord_i_attrs ds !! fill_key)
                (storm_grid_coord_j_attrs ds !! fill_key) Hz) as Hsel.
  split; [exact Hsel|]. unfold main.
  pose proof (wf_time ds Hwf) as Hlen. rewrite Hz in Hlen.
  destruct (time_values ds) as [|tv tvs]; [|discriminate Hlen].
  cbn [decode_times mapM]. change (mret []) with (Ok (@nil (option datetime))).
  rewrite bind_Ok, Hsel. reflexivity.
Qed.

(** X3. When a selected observation stores an index outside [-n, n) of
    its axis of the geographic grid, the plotting loop raises and [main]
    ends in [IndexError]: no figure is produced. *)
Theorem main_index_outside_grid (prefix : string) (ds : dataset)
    (times : list (option datetime)) (k : nat) (obs : list nat) (o : nat) :
  dataset_wf ds ->
  decode_times (time_values ds) (time_attrs ds !! fill_key) = Ok times ->
  select (storm_grid_coord_i ds) (storm_grid_coord_j ds)
    (storm_grid_coord_i_attrs ds !! fill_key)
    (storm_grid_coord_j_attrs ds !! fill_key) = Ok (k, obs) ->
  In o obs ->
  ~ in_grid_wrapped ds o k ->
  main format_2f strftime_ymd prefix ds = Err IndexError.
Proof.
  intros Hwf Ht Hs Ho Hout. unfold main. rewrite Ht, bind_Ok, Hs, bind_Ok.
  destruct (select_inv _ _ _ _ _ _ (wf_si ds Hwf) (wf_sj ds Hwf)
              (wf_sj_ni ds Hwf) (wf_sj_nk ds Hwf) Hs) as [Hk Hobs].
  destruct (Hobs o Ho) as [HoN _].
  pose proof (plot_profile_out ds k o Hwf HoN Hk Hout) as Hp.
  destruct (mapM_fails _ obs o IndexError Ho Hp) as [e He].
  assert (e = IndexError) as ->.
  { apply (mapM_raises _ _ IndexError e) in He; [exact He|].
    intros x e' _ Hx. exact (plot_profile_raises _ _ _ _ Hx). }
  unfold assemble. rewrite He. reflexivity.
Qed.

(** X4. Every time value is decoded before anything else is done: one
    non-sentinel value that the decoder rejects, at any slot, makes
    [main] raise, with the decoder's kind of exception and whatever the
    rest of the dataset holds. *)
Theorem main_decodes_all_times_first (prefix : string) (ds : dataset)
    (tv : float) (e : exn) :
  In tv (time_values ds) ->
  decode_entry (time_attrs ds !! fill_key) tv = Err e ->
  exists e', main format_2f strftime_ymd prefix ds = Err e'
             /\ e' <> IndexError.
Proof.
  intros Hin He. unfold main, decode_times.
  destruct (mapM_fails _ _ _ _ Hin He) as [e' He'].
  exists e'. rewrite He'. split; [reflexivity|].
  apply (mapM_raises_not _ _ IndexError e') in He'; [exact He'|].
  intros x e'' _ Hx. exact (decode_entry_raises _ _ _ Hx).
Qed.

(** X5. A NaN never equals the fill value, not even a NaN fill value: a
    NaN time entry always reaches the decoder, which rejects it, so a
    time series holding a NaN makes [main] raise. *)
Theorem main_nan_time_raises (prefix : string) (ds : dataset) :
  In S754_nan (time_values ds) ->
  (forall tfill, decode_entry tfill S754_nan = Err ValueError)
  /\ exists e, main format_2f strftime_ymd prefix ds = Err e
               /\ e <> IndexError.
Proof.
  intros Hin. split; [exact decode_entry_nan|].
  assert (Hn : decode_entry (time_attrs ds !! fill_key) S754_nan = Err ValueError)
    by apply decode_entry_nan.
  unfold main, decode_times.
  destruct (mapM_fails (A := float) _ _ _ _ Hin Hn) as [e' He'].
  exists e'. rewrite He'. split; [reflexivity|].
  apply (mapM_raises_not _ _ IndexError e') in He'; [exact He'|].
  intros x e'' _ Hx. exact (decode_entry_raises _ _ _ Hx).
Qed.

End MainRaises.

Lemma main_no_slots_ValueError_witness :
  select (storm_grid_coord_i ds_no_slots) (storm_grid_coord_j ds_no_slots)
    (storm_grid_coord_i_attrs ds_no_slots !! fill_key)
    (storm_grid_coord_j_attrs ds_no_slots !! fill_key) = Err ValueError
  /\ main sample_format sample_strftime "storm" ds_no_slots = Err ValueError.
Proof.
  apply (main_no_slots_ValueError sample_format sample_strftime "storm" ds_no_slots).
  - solve_dataset_wf.
  - reflexivity.
Defined.

Lemma main_index_outside_grid_witness :
  main sample_format sample_strftime "storm" ds_out_of_grid = Err IndexError.
Proof.
  apply (main_index_outside_grid sample_format sample_strftime "storm"
           ds_out_of_grid times_sample 0%nat [0%nat] 0%nat).
  - solve_dataset_wf.
  - vm_compute. reflexivity.
  - vm_compute. reflexivity.
  - simpl. left. reflexivity.
  - unfold in_grid_wrapped. vm_compute. intros [[_ H] _]. discriminate H.
Defined.

Lemma main_decodes_all_times_first_witness :
  exists e', main sample_format sample_strftime "storm" ds_year_zero = Err e'
             /\ e' <> IndexError.
Proof.
  apply (main_decodes_all_times_first sample_format sample_strftime "storm"
           ds_year_zero (of_int 0) ValueError).
  - simpl. right. left. reflexivity.
  - vm_compute. reflexivity.
Defined.

Lemma main_nan_time_raises_witness :
  (forall tfill, decode_entry tfill S754_nan = Err ValueError)
  /\ exists e, main sample_format sample_strftime "storm" ds_nan_time = Err e
               /\ e <> IndexError.
Proof.
  apply (main_nan_time_raises sample_format sample_strftime "storm" ds_nan_time).
  simpl. right. left. reflexivity.
Defined.

(** ** More on the selector *)

Lemma mask_column_valid si sj fi fj (k : nat) :
  wf2 si -> wf2 sj -> shape0 sj = shape0 si -> shape1 sj = shape1 si ->
  (k < shape1 si)%nat ->
  map (fun row => nth k row false) (rows2 (valid_mask si sj fi fj))
  = map (fun o => cell_valid si sj fi fj o k) (seq 0 (shape0 si)).
Proof.
  intros Hwi Hwj H0 H1 Hk.
  pose proof (valid_mask_wf si sj fi fj Hwi Hwj H0 H1) as [Hlen _].
  destruct (valid_mask_shape si sj fi fj) as [Hs0 _]. rewrite Hs0 in Hlen.
  rewrite <- (map_nth_seq [] (rows2 (valid_mask si sj fi fj))) at 1.
  rewrite Hlen, map_map.
  apply map_ext_in. intros o Ho. apply in_seq in Ho.
  apply (valid_mask_cell si sj fi fj o k); try assumption; lia.
Qed.

Lemma select_column si sj fi fj (k : nat) (obs : list nat) :
  wf2 si -> wf2 sj -> shape0 sj = shape0 si -> shape1 sj = shape1 si ->
  select si sj fi fj = Ok (k, obs) ->
  obs = np_where (map (fun o => cell_valid si sj fi fj o k) (seq 0 (shape0 si))).
Proof.
  intros Hwi Hwj H0 H1 Hsel.
  destruct (select_inv si sj fi fj k obs Hwi Hwj H0 H1 Hsel) as [Hk _].
  unfold select in Hsel.
  apply bind_Ok_inv in Hsel. destruct Hsel as (k' & _ & Hsel).
  apply bind_Ok_inv in Hsel. destruct Hsel as (col & Hcol & Hsel).
  injection Hsel as -> <-.
  rewrite (column_nth false) in Hcol
    by (apply valid_mask_wf || exact Hk; assumption).
  injection Hcol as <-.
  rewrite <- mask_column_valid by assumption. reflexivity.
Qed.

Lemma count_true_where (i : nat) (l : list bool) :
  count_true l = Z.of_nat (length (where_from i l)).
Proof.
  revert i. induction l as [|b l IH]; intros i; [reflexivity|].
  cbn [count_true where_from]. rewrite (IH (S i)).
  destruct b; cbn [length]; lia.
Qed.

Lemma count_true_bounds (l : list bool) : 0 <= count_true l <= Z.of_nat (length l).
Proof.
  induction l as [|b l IH]; cbn [count_true length]; [lia|]. destruct b; lia.
Qed.

Lemma where_from_all_true (i : nat) (l : list bool) :
  (forall b, In b l -> b = true) -> where_from i l = seq i (length l).
Proof.
  revert i. induction l as [|b l IH]; intros i Hall; [reflexivity|].
  cbn [where_from length seq].
  rewrite (Hall b (or_introl eq_refl)). f_equal.
  apply IH. intros b' Hb'. apply Hall. right. exact Hb'.
Qed.

Lemma StronglySorted_lt_NoDup (l : list nat) : StronglySorted lt l -> NoDup l.
Proof.
  induction 1 as [|x l Hs IH Hall]; [apply NoDup_nil_2|].
  apply NoDup_cons_2; [|exact IH].
  rewrite list_elem_of_In. intros Hin.
  rewrite List.Forall_forall in Hall. specialize (Hall x Hin). lia.
Qed.

Lemma select_size si sj (fill_i fill_j : option Z) (k : nat) (obs : list nat) :
  wf2 si -> wf2 sj -> shape0 sj = shape0 si -> shape1 sj = shape1 si ->
  select si sj fill_i fill_j = Ok (k, obs) ->
  Z.of_nat (length obs) = valid_count si sj fill_i fill_j k.
Proof.
  intros Hwi Hwj H0 H1 Hsel.
  rewrite (select_column si sj fill_i fill_j k obs Hwi Hwj H0 H1 Hsel).
  unfold np_where, valid_count. rewrite <- count_true_filter.
  symmetry. apply count_true_where.
Qed.

(** X7. The number of observations the selector returns is the chosen
    slot's count of valid cells, which lies between 0 and the number of
    observations; no observation is returned twice. *)
Theorem select_size_is_count (si sj : ndarray2 Z) (fill_i fill_j : option Z)
    (k : nat) (obs : list nat) :
  wf2 si -> wf2 sj -> shape0 sj = shape0 si -> shape1 sj = shape1 si ->
  select si sj fill_i fill_j = Ok (k, obs) ->
  Z.of_nat (length obs) = valid_count si sj fill_i fill_j k
  /\ (length obs <= shape0 si)%nat
  /\ NoDup obs.
Proof.
  intros Hwi Hwj H0 H1 Hsel.
  pose proof (select_column si sj fill_i fill_j k obs Hwi Hwj H0 H1 Hsel) as Hobs.
  pose proof (select_size si sj fill_i fill_j k obs Hwi Hwj H0 H1 Hsel) as Hc.
  split; [exact Hc|]. split.
  - pose proof (count_true_bounds
                  (map (fun o => cell_valid si sj fill_i fill_j o k)
                       (seq 0 (shape0 si)))) as Hb.
    rewrite length_map, length_seq in Hb. unfold valid_count in Hc.
    rewrite <- count_true_filter in Hc. lia.
  - rewrite Hobs. apply StronglySorted_lt_NoDup. apply where_from_sorted.
Qed.

Lemma select_size_is_count_witness :
  Z.of_nat (length [0%nat; 1%nat])
  = valid_count (storm_grid_coord_i ds_other_key) (storm_grid_coord_j ds_other_key)
      None None 0
  /\ (length [0%nat; 1%nat] <= 2)%nat
  /\ NoDup [0%nat; 1%nat].
Proof.
  apply (select_size_is_count (storm_grid_coord_i ds_other_key)
           (storm_grid_coord_j ds_other_key) None None 0%nat [0%nat; 1%nat]).
  - split; [reflexivity|repeat constructor].
  - split; [reflexivity|repeat constructor].
  - reflexivity.
  - reflexivity.
  - vm_compute. reflexivity.
Defined.

(** X8. With no sentinel declared for either index array, the selector
    keeps slot 0 and returns every observation, in order. *)
Theorem select_no_fill_all_observations (si sj : ndarray2 Z) :
  wf2 si -> wf2 sj -> shape0 sj = shape0 si -> shape1 sj = shape1 si ->
  (1 <= shape1 si)%nat ->
  select si sj None None = Ok (0%nat, seq 0 (shape0 si)).
Proof.
  intros Hwi Hwj H0 H1 HM.
  destruct (select_correct si sj None None Hwi Hwj H0 H1 HM)
    as (k & obs & Hsel & Hk & Hmax & Hfirst & _ & _).
  assert (Hall : forall k', valid_count si sj None None k' = Z.of_nat (shape0 si)).
  { intros k'. unfold valid_count. rewrite <- count_true_filter.
    rewrite (count_true_where 0).
    rewrite where_from_all_true.
    - rewrite length_seq, length_map, length_seq. reflexivity.
    - intros b Hb. apply in_map_iff in Hb. destruct Hb as (o & <- & _). reflexivity. }
  assert (k = 0)%nat as ->.
  { destruct k as [|k]; [reflexivity|].
    specialize (Hfirst 0%nat ltac:(lia)). rewrite !Hall in Hfirst. lia. }
  rewrite Hsel. do 2 f_equal.
  rewrite (select_column si sj None None 0%nat obs Hwi Hwj H0 H1 Hsel).
  unfold np_where. rewrite where_from_all_true.
  - rewrite length_map, length_seq. reflexivity.
  - intros b Hb. apply in_map_iff in Hb. destruct Hb as (o & <- & _). reflexivity.
Qed.

Lemma select_no_fill_all_observations_witness :
  select (storm_grid_coord_i ds_other_key) (storm_grid_coord_j ds_other_key)
    None None = Ok (0%nat, seq 0 2).
Proof.
  apply (select_no_fill_all_observations (storm_grid_coord_i ds_other_key)
           (storm_grid_coord_j ds_other_key)).
  - split; [reflexivity|repeat constructor].
  - split; [reflexivity|repeat constructor].
  - reflexivity.
  - reflexivity.
  - simpl. lia.
Defined.

Lemma zip_with_swap {A B C : Type} (f : A -> B -> C) (g : B -> A -> C)
    (la : list A) (lb : list B) :
  (forall a b, f a b = g b a) -> zip_with f la lb = zip_with g lb la.
Proof.
  intros Hfg. revert lb. induction la as [|a la IH]; intros [|b lb];
    cbn [zip_with]; try reflexivity.
  rewrite Hfg, IH. reflexivity.
Qed.

(** X14. The selector treats the two index arrays alike: exchanging
    them, each with its sentinel, changes neither the slot nor the
    observations selected. *)
Theorem select_symmetric (si sj : ndarray2 Z) (fill_i fill_j : option Z) :
  shape0 sj = shape0 si -> shape1 sj = shape1 si ->
  select sj si fill_j fill_i = select si sj fill_i fill_j.
Proof.
  intros H0 H1.
  assert (Hm : valid_mask sj si fill_j fill_i = valid_mask si sj fill_i fill_j).
  { unfold valid_mask, mask_and, ne_scalar. cbn [shape0 shape1 rows2].
    rewrite H0, H1. f_equal.
    apply zip_with_swap. intros a b.
    apply zip_with_swap. intros x y. apply andb_comm. }
  unfold select. rewrite Hm. reflexivity.
Qed.

Lemma select_symmetric_witness :
  select grid_A_j grid_A (Some (-1)) (Some (-1))
  = select grid_A grid_A_j (Some (-1)) (Some (-1)).
Proof.
  apply (select_symmetric grid_A grid_A_j (Some (-1)) (Some (-1)));
    reflexivity.
Defined.

(** ** The decoded time series *)

Lemma decode_times_aligned_aux (tvals : list float) (tfill : option float)
    (times : list (option datetime)) :
  decode_times tvals tfill = Ok times ->
  length times = length tvals
  /\ forall n tv, tvals !! n = Some tv ->
       (exists f, tfill = Some f /\ eqb tv f = true /\ times !! n = Some None)
       \/ ((forall f, tfill = Some f -> eqb tv f = false)
           /\ exists dt, fractional_year_to_datetime tv = Ok dt
                         /\ times !! n = Some (Some dt)).
Proof.
  intros Hd. split; [exact (mapM_length _ _ _ Hd)|].
  intros n tv Hn.
  destruct (mapM_lookup _ _ _ n tv Hd Hn) as (y & Hy & Hty).
  unfold decode_entry in Hy.
  assert (Hdec : forall y, Some <$> fractional_year_to_datetime tv = Ok y ->
            exists dt, fractional_year_to_datetime tv = Ok dt /\ y = Some dt).
  { intros y' Hy'. destruct (fractional_year_to_datetime tv) as [dt|e];
      [|discriminate Hy'].
    injection Hy' as <-. exists dt. split; reflexivity. }
  destruct tfill as [f|].
  - destruct (eqb tv f) eqn:Heq; cbn [negb] in Hy.
    + injection Hy as <-. left. exists f. repeat split; assumption.
    + right. split; [intros f' Hf'; injection Hf' as <-; exact Heq|].
      destruct (Hdec y Hy) as (dt & Hdt & ->). exists dt. split; assumption.
  - right. split; [intros f Hf; discriminate Hf|].
    destruct (Hdec y Hy) as (dt & Hdt & ->). exists dt. split; assumption.
Qed.

(** X12. The decoded series is aligned with the stored one: it has the
    same length, an entry equal to the declared fill value is kept as no
    date, and every other entry holds what the decoder returns for the
    stored value at the same position. *)
Theorem decode_times_aligned (tvals : list float) (tfill : option float)
    (times : list (option datetime)) :
  decode_times tvals tfill = Ok times ->
  length times = length tvals
  /\ forall n tv, tvals !! n = Some tv ->
       (exists f, tfill = Some f /\ eqb tv f = true /\ times !! n = Some None)
       \/ ((forall f, tfill = Some f -> eqb tv f = false)
           /\ exists dt, fractional_year_to_datetime tv = Ok dt
                         /\ times !! n = Some (Some dt)).
Proof. apply decode_times_aligned_aux. Qed.

Lemma decode_times_aligned_witness :
  length [None; Some (mk_datetime 738703 43200 0)]
  = length (time_values ds_time_fill)
  /\ forall n tv, time_values ds_time_fill !! n = Some tv ->
       (exists f, Some (of_int (-9999)) = Some f /\ eqb tv f = true
                  /\ [None; Some (mk_datetime 738703 43200 0)] !! n = Some None)
       \/ ((forall f, Some (of_int (-9999)) = Some f -> eqb tv f = false)
           /\ exists dt, fractional_year_to_datetime tv = Ok dt
                /\ [None; Some (mk_datetime 738703 43200 0)] !! n
                   = Some (Some dt)).
Proof.
  apply (decode_times_aligned (time_values ds_time_fill) (Some (of_int (-9999)))
           [None; Some (mk_datetime 738703 43200 0)]).
  vm_compute. reflexivity.
Defined.

(** ** [main] as a whole *)

Section MainWhole.

Variable format_2f : float -> string.
Variable strftime_ymd : datetime -> string.

Lemma main_inv (prefix : string) (ds : dataset) (fig : figure) :
  main format_2f strftime_ymd prefix ds = Ok fig ->
  exists times k obs curves t,
    decode_times (time_values ds) (time_attrs ds !! fill_key) = Ok times
    /\ select (storm_grid_coord_i ds) (storm_grid_coord_j ds)
         (storm_grid_coord_i_attrs ds !! fill_key)
         (storm_grid_coord_j_attrs ds !! fill_key) = Ok (k, obs)
    /\ assemble format_2f ds k obs = Ok curves
    /\ times !! k = Some t
    /\ fig = mk_figure curves (200, 0) "Temperature (°C)" "Pressure (dbar)"
               (prefix +:+ ": " +:+ pretty (length obs) +:+ " profiles on "
                +:+ match t with Some d => strftime_ymd d | None => "unknown_date" end)
               [prefix +:+ "_profiles.pdf"; prefix +:+ "_profiles.png"].
Proof.
  unfold main. intros H.
  apply bind_Ok_inv in H. destruct H as (times & Ht & H).
  apply bind_Ok_inv in H. destruct H as ([k obs] & Hs & H).
  apply bind_Ok_inv in H. destruct H as (curves & Ha & H).
  apply bind_Ok_inv in H. destruct H as (t & Hl & H).
  exists times, k, obs, curves, t.
  split; [exact Ht|]. split; [exact Hs|]. split; [exact Ha|]. split.
  - unfold lookup_or_raise in Hl. destruct (times !! k) as [t'|]; congruence.
  - injection H as <-. reflexivity.
Qed.

Lemma plot_profile_wrapped (d : float) (ds : dataset) (k o : nat) :
  dataset_wf ds ->
  (o < shape0 (storm_grid_coord_i ds))%nat ->
  (k < shape1 (storm_grid_coord_i ds))%nat ->
  in_grid_wrapped ds o k ->
  plot_profile format_2f ds k o
  = Ok (mk_curve (slice3 d (sea_surface_temperature ds) o k)
                 (slice3 d (observation_level_in_pressure ds) o k)
                 (format_2f (fst (coordinate d ds o k)) +:+ ","
                  +:+ format_2f (snd (coordinate d ds o k)))).
Proof.
  intros Hwf Ho Hk [Hi Hj]. destruct Hwf. unfold plot_profile.
  rewrite (isel_slice3 d (sea_surface_temperature ds)) by (assumption || lia).
  rewrite bind_Ok.
  rewrite (isel_slice3 d (observation_level_in_pressure ds)) by (assumption || lia).
  rewrite bind_Ok.
  rewrite (resolve_wrapped d) by assumption. rewrite bind_Ok.
  reflexivity.
Qed.

Lemma assemble_wrapped (d : float) (ds : dataset)
    (fill_i fill_j : option Z) (k : nat) (obs : list nat) :
  dataset_wf ds ->
  select (storm_grid_coord_i ds) (storm_grid_coord_j ds) fill_i fill_j
    = Ok (k, obs) ->
  (forall o, In o obs -> in_grid_wrapped ds o k) ->
  assemble format_2f ds k obs
  = Ok (map (fun o =>
          mk_curve (slice3 d (sea_surface_temperature ds) o k)
                   (slice3 d (observation_level_in_pressure ds) o k)
                   (format_2f (fst (coordinate d ds o k)) +:+ ","
                    +:+ format_2f (snd (coordinate d ds o k)))) obs).
Proof.
  intros Hwf Hsel Hgrid.
  destruct (select_inv _ _ _ _ _ _ (wf_si ds Hwf) (wf_sj ds Hwf)
              (wf_sj_ni ds Hwf) (wf_sj_nk ds Hwf) Hsel) as [Hk Hobs].
  unfold assemble. apply mapM_ok. intros o Ho.
  apply plot_profile_wrapped; [exact Hwf|apply (Hobs o Ho)|exact Hk|].
  apply Hgrid. exact Ho.
Qed.

(** X13. For a selection whose stored indices lie within [-n, n) of the
    grid axes, the assembler labels the curve of each observation with
    the two coordinates read at row [j], column [i] (counted from the end
    when negative), longitude first, joined by a comma; the curves
    themselves are the unmodified slices. *)
Theorem assemble_labels_coordinates (d : float) (ds : dataset)
    (fill_i fill_j : option Z) (k : nat) (obs : list nat) :
  dataset_wf ds ->
  select (storm_grid_coord_i ds) (storm_grid_coord_j ds) fill_i fill_j
    = Ok (k, obs) ->
  (forall o, In o obs -> in_grid_wrapped ds o k) ->
  assemble format_2f ds k obs
  = Ok (map (fun o =>
          mk_curve (slice3 d (sea_surface_temperature ds) o k)
                   (slice3 d (observation_level_in_pressure ds) o k)
                   (format_2f (fst (coordinate d ds o k)) +:+ ","
                    +:+ format_2f (snd (coordinate d ds o k)))) obs).
Proof. apply assemble_wrapped. Qed.

(** X6. Whenever [main] completes, the count in the title is the number
    of curves drawn, which is the largest per-slot count of valid cells;
    the pressure axis is inverted from 200 to 0 and two files are saved
    under the prefix. *)
Theorem main_title_counts_curves (prefix : string) (ds : dataset) (fig : figure) :
  dataset_wf ds ->
  main format_2f strftime_ymd prefix ds = Ok fig ->
  exists k date_str,
    (k < shape1 (storm_grid_coord_i ds))%nat
    /\ Z.of_nat (length (fig_curves fig))
       = valid_count (storm_grid_coord_i ds) (storm_grid_coord_j ds)
           (storm_grid_coord_i_attrs ds !! fill_key)
           (storm_grid_coord_j_attrs ds !! fill_key) k
    /\ (forall k', (k' < shape1 (storm_grid_coord_i ds))%nat ->
          valid_count (storm_grid_coord_i ds) (storm_grid_coord_j ds)
            (storm_grid_coord_i_attrs ds !! fill_key)
            (storm_grid_coord_j_attrs ds !! fill_key) k'
          <= Z.of_nat (length (fig_curves fig)))
    /\ fig_title fig
       = prefix +:+ ": " +:+ pretty (length (fig_curves fig))
         +:+ " profiles on " +:+ date_str
    /\ fig_ylim fig = (200, 0)
    /\ fig_saved fig = [prefix +:+ "_profiles.pdf"; prefix +:+ "_profiles.png"].
Proof.
  intros Hwf Hmain.
  destruct (main_inv prefix ds fig Hmain)
    as (times & k & obs & curves & t & Ht & Hs & Ha & Hl & ->).
  pose proof (wf_si ds Hwf) as Hwi. pose proof (wf_sj ds Hwf) as Hwj.
  pose proof (wf_sj_ni ds Hwf) as H0. pose proof (wf_sj_nk ds Hwf) as H1.
  destruct (select_inv _ _ _ _ _ _ Hwi Hwj H0 H1 Hs) as [Hk _].
  pose proof (select_size _ _ _ _ _ _ Hwi Hwj H0 H1 Hs) as Hc.
  assert (Hlen : length curves = length obs) by exact (mapM_length _ _ _ Ha).
  exists k. eexists. cbn [fig_curves fig_title fig_ylim fig_saved].
  rewrite Hlen. split; [exact Hk|]. split; [exact Hc|]. split.
  - destruct (select_correct _ _ (storm_grid_coord_i_attrs ds !! fill_key)
                (storm_grid_coord_j_attrs ds !! fill_key) Hwi Hwj H0 H1
                ltac:(lia)) as (k2 & obs2 & Hs2 & _ & Hmax & _).
    rewrite Hs in Hs2. injection Hs2 as <- <-.
    intros k' Hk'. rewrite Hc. apply Hmax. exact Hk'.
  - repeat split.
Qed.


End MainWhole.

(** ** The domain and the range of the decoder *)

Lemma datetime_jan1_inv (year : Z) (d : datetime) :
  datetime_jan1 year = Ok d -> 1 <= year <= 9999.
Proof.
  unfold datetime_jan1, MINYEAR, MAXYEAR. intros H.
  destruct (_ || _) in H; [discriminate H|].
  destruct ((1 <=? year) && (year <=? 9999)) eqn:Hr; [|discriminate H].
  apply andb_true_iff in Hr. destruct Hr as [Ha Hb].
  apply Z.leb_le in Ha. apply Z.leb_le in Hb. lia.
Qed.

Lemma decode_fits (m : positive) (e y : Z) :
  fits (S754_finite false m e) ->
  (IZR y <= F2R (Zpos m) e < IZR y + 1)%R -> 1 <= y <= 9999 ->
  exists X,
    fractional_year_to_datetime (S754_finite false m e)
    = Ok (jan1_plus_us (days_before_year y + 1) X)
    /\ us_rel (B2R (mul (sub (S754_finite false m e) (of_int y))
                        (of_int (days_in_year y)))) X
    /\ 0 <= X <= days_in_year y * us_per_day.
Proof.
  intros Hf Hfl Hy.
  assert (Hint : to_int (S754_finite false m e) = Ok y).
  { cbn [to_int cond_Zopp]. f_equal.
    destruct (shiftl_floor m e) as [_ Hs].
    exact (floor_unique _ _ _ Hs Hfl). }
  destruct (decode_offset m e y Hf Hfl Hy) as (X & Htd & Hus & HX).
  assert (HD : days_in_year y = 365 \/ days_in_year y = 366)
    by (unfold days_in_year; destruct (is_leap y); lia).
  assert (HX400 : 0 <= X <= 400 * us_per_day) by (unfold us_per_day in *; lia).
  assert (Hord : days_before_year y + 1 + X / us_per_day <= MAXORDINAL).
  { pose proof (days_before_year_bounds y Hy) as (_ & H364 & H366).
    destruct (Z.eq_dec y 9999) as [->|Hne].
    - pose proof (year_9999_offset m e X Hf Hfl Hus). lia.
    - assert (X / us_per_day <= 366).
      { apply Z.div_le_upper_bound; unfold us_per_day in *; lia. }
      specialize (H366 ltac:(lia)). lia. }
  exists X. split; [|split; assumption].
  exact (decode_fold _ y X Hint Hy Htd HX400 Hord).
Qed.

Lemma rounds_to_0_inv (x : float) : rounds_to 0 x -> B2R x = 0%R.
Proof.
  intros (_ & _ & [[_ H]|(m & e & Hv & _)]); [exact H|].
  pose proof (F2R_pos_gt_0 m e). lra.
Qed.

Lemma us_rel_0_inv (X : Z) : us_rel 0 X -> X = 0.
Proof.
  intros H. destruct (us_rel_bounds _ _ H) as (ip & Hfl & _ & _ & Hex).
  assert (ip = 0) as -> by (apply (floor_unique 0 ip 0); [exact Hfl|simpl; lra]).
  rewrite Hex by reflexivity. reflexivity.
Qed.

Lemma jan1_plus_us_0 (o0 : Z) : jan1_plus_us o0 0 = mk_datetime o0 0 0.
Proof.
  unfold jan1_plus_us. change (0 / us_per_day) with 0.
  rewrite Z.add_0_r. reflexivity.
Qed.

Lemma days_before_year_succ (y : Z) :
  days_before_year (y + 1) = days_before_year y + days_in_year y.
Proof.
  unfold days_before_year, days_in_year, is_leap. cbn zeta.
  replace (y + 1 - 1) with y by lia.
  destruct (y mod 4 =? 0) eqn:H4; destruct (y mod 100 =? 0) eqn:H100;
    destruct (y mod 400 =? 0) eqn:H400; cbn [andb orb negb];
    rewrite ?Z.eqb_eq, ?Z.eqb_neq in *;
    Z.div_mod_to_equations; lia.
Qed.

Lemma jan1_plus_us_year (o0 y : Z) :
  jan1_plus_us o0 (days_in_year y * us_per_day)
  = mk_datetime (o0 + days_in_year y) 0 0.
Proof.
  unfold jan1_plus_us, days_in_year. destruct (is_leap y); reflexivity.
Qed.

(** X9. The decoder's domain: a double is decoded to a date exactly when
    its integer part is a year of the calendar, 1 to 9999. *)
Theorem decode_domain (year_frac : float) :
  valid year_frac = true ->
  (exists dt, fractional_year_to_datetime year_frac = Ok dt)
  <-> (exists year, to_int year_frac = Ok year /\ 1 <= year <= 9999).
Proof.
  intros Hv. split.
  - intros [dt H]. unfold fractional_year_to_datetime in H.
    apply bind_Ok_inv in H. destruct H as (y & Hy & H).
    apply bind_Ok_inv in H. destruct H as (j & Hj & _).
    exists y. split; [exact Hy|]. exact (datetime_jan1_inv y j Hj).
  - intros (y & Hint & Hy).
    destruct (decode_in_year year_frac y Hv Hint Hy)
      as (m & e & X & _ & _ & _ & Hdt & _).
    eexists. exact Hdt.
Qed.

Lemma decode_domain_witness :
  (exists dt, fractional_year_to_datetime y2024_5 = Ok dt)
  <-> (exists year, to_int y2024_5 = Ok year /\ 1 <= year <= 9999).
Proof.
  apply (decode_domain y2024_5). vm_compute. reflexivity.
Defined.

(** X10. A whole year of the calendar decodes to midnight of its
    January 1, the date [datetime(year, 1, 1)] itself. *)
Theorem decode_whole_year (year : Z) :
  1 <= year <= 9999 ->
  fractional_year_to_datetime (of_int year)
  = Ok (mk_datetime (days_before_year year + 1) 0 0)
  /\ fractional_year_to_datetime (of_int year) = datetime_jan1 year.
Proof.
  intros Hy.
  assert (Hr : 0 < year < 2 ^ 53) by lia.
  destruct (of_int_finite year Hr) as (m & e & Heq & Hval).
  destruct (of_int_spec year Hr) as (Hf & _ & _).
  rewrite Heq in Hf.
  assert (Hfl : (IZR year <= F2R (Zpos m) e < IZR year + 1)%R) by lra.
  destruct (decode_fits m e year Hf Hfl Hy) as (X & Hdt & Hus & _).
  destruct (decode_product m e year Hf Hfl Hy) as (frac & Hfr & -> & Hp & _).
  replace (F2R (Zpos m) e - IZR year)%R with 0%R in Hfr by lra.
  apply rounds_to_0_inv in Hfr. rewrite Hfr, Rmult_0_l in Hp.
  apply rounds_to_0_inv in Hp. rewrite Hp in Hus.
  apply us_rel_0_inv in Hus. subst X.
  rewrite jan1_plus_us_0 in Hdt. rewrite Heq, Hdt.
  split; [reflexivity|]. symmetry. apply datetime_jan1_ok. exact Hy.
Qed.

Lemma decode_whole_year_witness :
  fractional_year_to_datetime (of_int 2024)
  = Ok (mk_datetime (days_before_year 2024 + 1) 0 0)
  /\ fractional_year_to_datetime (of_int 2024) = datetime_jan1 2024.
Proof. apply (decode_whole_year 2024). lia. Defined.

(** X11. The number of days the decoder takes for a year is the number
    of days the calendar puts between January 1 of that year and of the
    next, so the decoded date lies between those two midnights. *)
Theorem decode_within_year (year_frac : float) (year : Z) :
  valid year_frac = true ->
  to_int year_frac = Ok year ->
  1 <= year <= 9999 ->
  days_before_year (year + 1)
  = days_before_year year + (if is_leap year then 366 else 365)
  /\ exists dt,
       fractional_year_to_datetime year_frac = Ok dt
       /\ dt_leb (mk_datetime (days_before_year year + 1) 0 0) dt = true
       /\ dt_leb dt (mk_datetime (days_before_year (year + 1) + 1) 0 0) = true.
Proof.
  intros Hv Hint Hy. split; [exact (days_before_year_succ year)|].
  destruct (decode_in_year year_frac year Hv Hint Hy)
    as (m & e & X & _ & _ & _ & Hdt & _ & HX).
  eexists. split; [exact Hdt|]. split.
  - rewrite <- jan1_plus_us_0. apply jan1_plus_us_leb. lia.
  - rewrite days_before_year_succ.
    replace (days_before_year year + days_in_year year + 1)
      with (days_before_year year + 1 + days_in_year year) by lia.
    rewrite <- jan1_plus_us_year. apply jan1_plus_us_leb. lia.
Qed.

Lemma decode_within_year_witness :
  days_before_year (2024 + 1)
  = days_before_year 2024 + (if is_leap 2024 then 366 else 365)
  /\ exists dt,
       fractional_year_to_datetime y2024_5 = Ok dt
       /\ dt_leb (mk_datetime (days_before_year 2024 + 1) 0 0) dt = true
       /\ dt_leb dt (mk_datetime (days_before_year (2024 + 1) + 1) 0 0) = true.
Proof.
  apply (decode_within_year y2024_5 2024).
  - vm_compute. reflexivity.
  - vm_compute. reflexivity.
  - lia.
Defined.

(** * The command line *)

Lemma rfind_range (c : ascii) (p : list ascii) :
  -1 <= rfind c p < Z.of_nat (length p).
Proof.
  induction p as [|a p IH]; cbn [rfind length]; [lia|].
  destruct (0 <=? rfind c p) eqn:Hr; [lia|].
  destruct (Ascii.eqb a c); lia.
Qed.

Lemma rfind_absent (c : ascii) (p : list ascii) : ~ In c p -> rfind c p = -1.
Proof.
  induction p as [|a p IH]; intros Hn; cbn [rfind]; [reflexivity|].
  rewrite IH by (intros H; apply Hn; right; exact H). cbn [Z.leb Z.compare].
  destruct (Ascii.eqb a c) eqn:Hac; [|reflexivity].
  apply Ascii.eqb_eq in Hac. exfalso. apply Hn. left. exact Hac.
Qed.

Lemma rfind_neg (c : ascii) (p : list ascii) : rfind c p < 0 -> ~ In c p.
Proof.
  induction p as [|a p IH]; cbn [rfind]; intros Hr Hin; [exact Hin|].
  pose proof (rfind_range c p) as Hrange.
  destruct (0 <=? rfind c p) eqn:H0; [apply Z.leb_le in H0; lia|].
  apply Z.leb_gt in H0.
  destruct (Ascii.eqb a c) eqn:Hac; [lia|].
  apply Ascii.eqb_neq in Hac. destruct Hin as [Hin|Hin]; [exact (Hac Hin)|].
  exact (IH H0 Hin).
Qed.

Lemma rfind_last (c : ascii) (h t : list ascii) :
  ~ In c t -> rfind c (h ++ c :: t) = Z.of_nat (length h).
Proof.
  intros Ht. induction h as [|a h IH]; cbn [app rfind length].
  - rewrite (rfind_absent c t Ht). cbn [Z.leb Z.compare].
    rewrite Ascii.eqb_refl. reflexivity.
  - rewrite IH.
    replace (0 <=? Z.of_nat (length h)) with true by (symmetry; apply Z.leb_le; lia).
    lia.
Qed.

Lemma rfind_tail (c : ascii) (p : list ascii) :
  ~ In c (skipn (Z.to_nat (rfind c p + 1)) p).
Proof.
  induction p as [|a p IH]; cbn [rfind]; [intros H; destruct H|].
  pose proof (rfind_range c p) as Hrange.
  destruct (0 <=? rfind c p) eqn:H0.
  - apply Z.leb_le in H0.
    replace (Z.to_nat (rfind c p + 1 + 1)) with (S (Z.to_nat (rfind c p + 1))) by lia.
    exact IH.
  - apply Z.leb_gt in H0. pose proof (rfind_neg c p H0) as Hp.
    destruct (Ascii.eqb a c) eqn:Hac.
    + exact Hp.
    + apply Ascii.eqb_neq in Hac. intros [H|H]; [exact (Hac H)|exact (Hp H)].
Qed.

Lemma basename_no_sep (p : list ascii) : ~ In "/"%char (basename p).
Proof. apply rfind_tail. Qed.

Lemma skipn_length_app {A : Type} (h t : list A) : skipn (length h) (h ++ t) = t.
Proof. induction h as [|a h IH]; [reflexivity|exact IH]. Qed.

Lemma firstn_length_app {A : Type} (h t : list A) : firstn (length h) (h ++ t) = h.
Proof. induction h as [|a h IH]; [destruct t; reflexivity|cbn; f_equal; exact IH]. Qed.

Lemma basename_join (dir name : list ascii) :
  ~ In "/"%char name -> basename (dir ++ "/"%char :: name) = name.
Proof.
  intros Hn. unfold basename. rewrite (rfind_last _ dir name Hn).
  replace (Z.to_nat (Z.of_nat (length dir) + 1)) with (length (dir ++ ["/"%char]))
    by (rewrite length_app; simpl; lia).
  replace (dir ++ "/"%char :: name) with ((dir ++ ["/"%char]) ++ name)
    by (rewrite <- app_assoc; reflexivity).
  apply skipn_length_app.
Qed.

Lemma basename_plain (name : list ascii) :
  ~ In "/"%char name -> basename name = name.
Proof. intros Hn. unfold basename. rewrite (rfind_absent _ _ Hn). reflexivity. Qed.

Lemma splitext_join (stem ext : list ascii) :
  ~ In "/"%char stem -> ~ In "/"%char ext -> ~ In "."%char ext ->
  existsb (fun a => negb (Ascii.eqb a ".")) stem = true ->
  splitext (stem ++ "."%char :: ext) = (stem, "."%char :: ext).
Proof.
  intros Hs He Hd Hnd. unfold splitext.
  assert (Hsep : rfind "/" (stem ++ "."%char :: ext) = -1).
  { apply rfind_absent. intros H. apply in_app_or in H.
    destruct H as [H|[H|H]]; [exact (Hs H)|discriminate H|exact (He H)]. }
  rewrite Hsep, (rfind_last _ stem ext Hd). cbn zeta.
  replace (-1 <? Z.of_nat (length stem)) with true by (symmetry; apply Z.ltb_lt; lia).
  replace (Z.to_nat (Z.of_nat (length stem) - (-1 + 1))) with (length stem) by lia.
  change (Z.to_nat (-1 + 1)) with 0%nat. rewrite skipn_O.
  rewrite Nat2Z.id, firstn_length_app, skipn_length_app, Hnd. reflexivity.
Qed.

Lemma splitext_no_dot (p : list ascii) : ~ In "."%char p -> splitext p = (p, []).
Proof.
  intros Hd. unfold splitext. rewrite (rfind_absent _ _ Hd). cbn zeta.
  pose proof (rfind_range "/" p).
  replace (rfind "/" p <? -1) with false by (symmetry; apply Z.ltb_ge; lia).
  reflexivity.
Qed.

Lemma splitext_concat (p : list ascii) : fst (splitext p) ++ snd (splitext p) = p.
Proof.
  unfold splitext. cbn zeta. destruct (_ && _); cbn [fst snd].
  - apply firstn_skipn.
  - apply app_nil_r.
Qed.

Lemma splitext_root_no_sep (p : list ascii) :
  ~ In "/"%char p -> ~ In "/"%char (fst (splitext p)).
Proof.
  intros Hp Hin. apply Hp. rewrite <- (splitext_concat p).
  apply in_or_app. left. exact Hin.
Qed.

Lemma list_ascii_of_string_app (s1 s2 : string) :
  list_ascii_of_string (s1 +:+ s2)
  = list_ascii_of_string s1 ++ list_ascii_of_string s2.
Proof. induction s1 as [|a s1 IH]; [reflexivity|simpl; f_equal; exact IH]. Qed.

Lemma prefix_of_no_sep (infile : string) :
  ~ In "/"%char (list_ascii_of_string (prefix_of infile)).
Proof.
  unfold prefix_of. rewrite list_ascii_of_string_of_list_ascii.
  apply splitext_root_no_sep. apply basename_no_sep.
Qed.

(** X16. The prefix is the file name of the input without its directory
    and without its last extension only: for a stem that holds no
    separator and some character other than a dot, and an extension
    without dot or separator, the prefix of [dir/stem.ext] and of
    [stem.ext] is [stem], whatever dots the stem itself holds. *)
Theorem prefix_of_path (dir stem ext : string) :
  ~ In "/"%char (list_ascii_of_string stem) ->
  ~ In "/"%char (list_ascii_of_string ext) ->
  ~ In "."%char (list_ascii_of_string ext) ->
  existsb (fun a => negb (Ascii.eqb a ".")) (list_ascii_of_string stem) = true ->
  prefix_of (dir +:+ "/" +:+ stem +:+ "." +:+ ext) = stem
  /\ prefix_of (stem +:+ "." +:+ ext) = stem.
Proof.
  intros Hs He Hd Hnd.
  assert (Hname : ~ In "/"%char (list_ascii_of_string stem
                                  ++ "."%char :: list_ascii_of_string ext)).
  { intros H. apply in_app_or in H.
    destruct H as [H|[H|H]]; [exact (Hs H)|discriminate H|exact (He H)]. }
  unfold prefix_of. rewrite !list_ascii_of_string_app. cbn [list_ascii_of_string app].
  rewrite (basename_join _ _ Hname), (basename_plain _ Hname).
  rewrite (splitext_join _ _ Hs He Hd Hnd). cbn [fst].
  split; apply string_of_list_ascii_of_string.
Qed.

Lemma prefix_of_path_witness :
  prefix_of ("/data/tc" +:+ "/" +:+ "2013180N11256.bin_julian_time" +:+ "." +:+ "nc")
  = "2013180N11256.bin_julian_time"
  /\ prefix_of ("2013180N11256.bin_julian_time" +:+ "." +:+ "nc")
     = "2013180N11256.bin_julian_time".
Proof.
  apply (prefix_of_path "/data/tc" "2013180N11256.bin_julian_time" "nc").
  - vm_compute. intuition discriminate.
  - vm_compute. intuition discriminate.
  - vm_compute. intuition discriminate.
  - vm_compute. reflexivity.
Defined.

Lemma existsb_repeat_dot (n : nat) :
  existsb (fun a => negb (Ascii.eqb a ".")) (repeat "."%char n) = false.
Proof. induction n as [|n IH]; [reflexivity|exact IH]. Qed.

Lemma splitext_leading_dots (n : nat) (rest : list ascii) :
  ~ In "/"%char rest -> ~ In "."%char rest ->
  splitext (repeat "."%char n ++ rest) = (repeat "."%char n ++ rest, []).
Proof.
  intros Hs Hd. destruct n as [|n].
  - apply splitext_no_dot. exact Hd.
  - assert (Hsep : rfind "/" (repeat "."%char (S n) ++ rest) = -1).
    { apply rfind_absent. intros H. apply in_app_or in H.
      destruct H as [H|H]; [|exact (Hs H)].
      apply repeat_spec in H. discriminate H. }
    assert (Hshape : repeat "."%char (S n) ++ rest
                     = repeat "."%char n ++ "."%char :: rest).
    { cbn [repeat]. rewrite repeat_cons, <- app_assoc. reflexivity. }
    unfold splitext. rewrite Hsep. rewrite Hshape at 1 2 3.
    rewrite (rfind_last _ (repeat "."%char n) rest Hd). cbn zeta.
    change (Z.to_nat (-1 + 1)) with 0%nat. rewrite skipn_O.
    replace (Z.to_nat (Z.of_nat (length (repeat "."%char n)) - (-1 + 1)))
      with (length (repeat "."%char n)) by lia.
    rewrite firstn_length_app, existsb_repeat_dot, andb_false_r. reflexivity.
Qed.

Lemma string_of_list_ascii_app (l1 l2 : list ascii) :
  string_of_list_ascii (l1 ++ l2)
  = string_of_list_ascii l1 +:+ string_of_list_ascii l2.
Proof.
  induction l1 as [|a l1 IH]; [reflexivity|].
  change (String a (string_of_list_ascii (l1 ++ l2))
          = String a (string_of_list_ascii l1 +:+ string_of_list_ascii l2)).
  f_equal. exact IH.
Qed.

(** X17. A file name with no extension to drop is kept whole: the
    prefix of a name without any dot, and of a name whose only dots are
    leading ones, is the name itself. *)
Theorem prefix_of_no_extension (dir rest : string) (dots : nat) :
  ~ In "/"%char (list_ascii_of_string rest) ->
  ~ In "."%char (list_ascii_of_string rest) ->
  prefix_of (dir +:+ "/" +:+ string_of_list_ascii (repeat "."%char dots) +:+ rest)
  = string_of_list_ascii (repeat "."%char dots) +:+ rest.
Proof.
  intros Hs Hd. unfold prefix_of.
  rewrite !list_ascii_of_string_app, list_ascii_of_string_of_list_ascii.
  cbn [list_ascii_of_string app].
  rewrite basename_join.
  - rewrite (splitext_leading_dots dots _ Hs Hd). cbn [fst].
    rewrite string_of_list_ascii_app, string_of_list_ascii_of_string. reflexivity.
  - intros H. apply in_app_or in H. destruct H as [H|H]; [|exact (Hs H)].
    apply repeat_spec in H. discriminate H.
Qed.

Lemma prefix_of_no_extension_witness :
  prefix_of ("/data" +:+ "/" +:+ string_of_list_ascii (repeat "."%char 1) +:+ "hidden")
  = string_of_list_ascii (repeat "."%char 1) +:+ "hidden".
Proof.
  apply (prefix_of_no_extension "/data" "hidden" 1).
  - vm_compute. intuition discriminate.
  - vm_compute. intuition discriminate.
Defined.

Section ScriptFacts.

Variable format_2f : float -> string.
Variable strftime_ymd : datetime -> string.
Variable open_dataset : string -> option dataset.


(** X19. When the script finishes it was given exactly one argument, the
    two files it saved are named after the prefix of that argument with
    the suffixes "_profiles.pdf" and "_profiles.png", and neither name
    holds a separator: the figure is written to the working directory,
    wherever the input lies. *)
Theorem run_saves_in_working_directory (argv0 : string) (args : list string)
    (fig : figure) (printed : string) :
  run format_2f strftime_ymd open_dataset argv0 args = Finished fig printed ->
  exists infile ds,
    args = [infile]
    /\ open_dataset infile = Some ds
    /\ main format_2f strftime_ymd (prefix_of infile) ds = Ok fig
    /\ fig_saved fig = [prefix_of infile +:+ "_profiles.pdf";
                        prefix_of infile +:+ "_profiles.png"]
    /\ printed = "Saved " +:+ prefix_of infile +:+ "_profiles.pdf and "
                 +:+ prefix_of infile +:+ "_profiles.png"
    /\ forall name, In name (fig_saved fig) ->
         ~ In "/"%char (list_ascii_of_string name).
Proof.
  intros H. destruct args as [|infile [|x args]]; try discriminate H.
  cbn [run] in H. destruct (open_dataset infile) as [ds|] eqn:Hopen; [|discriminate H].
  destruct (main format_2f strftime_ymd (prefix_of infile) ds) as [fig'|e] eqn:Hmain;
    [|discriminate H].
  injection H as <- <-.
  exists infile, ds. split; [reflexivity|]. split; [exact Hopen|].
  split; [exact Hmain|].
  destruct (main_inv _ _ _ _ _ Hmain) as (times & k & obs & curves & t & _ & _ & _ & _ & ->).
  cbn [fig_saved]. split; [reflexivity|]. split; [reflexivity|].
  intros name [<-|[<-|[]]]; rewrite list_ascii_of_string_app; intros Hin;
    apply in_app_or in Hin; destruct Hin as [Hin|Hin];
    try exact (prefix_of_no_sep infile Hin);
    cbn in Hin; intuition discriminate.
Qed.

End ScriptFacts.

(** * Instances of the properties of [main] and of the command line *)

Lemma assemble_labels_coordinates_witness :
  assemble sample_format ds_other_key 0 [0%nat; 1%nat]
  = Ok (map (fun o =>
          mk_curve (slice3 S754_nan (sea_surface_temperature ds_other_key) o 0)
                   (slice3 S754_nan (observation_level_in_pressure ds_other_key) o 0)
                   (sample_format (fst (coordinate S754_nan ds_other_key o 0)) +:+ ","
                    +:+ sample_format (snd (coordinate S754_nan ds_other_key o 0))))
          [0%nat; 1%nat]).
Proof.
  apply (assemble_labels_coordinates sample_format S754_nan ds_other_key
           None None 0%nat [0%nat; 1%nat]).
  - solve_dataset_wf.
  - vm_compute. reflexivity.
  - intros o [<-|[<-|[]]]; vm_compute; repeat split; discriminate.
Defined.

Lemma main_title_counts_curves_witness :
  exists k date_str,
    (k < shape1 (storm_grid_coord_i ds_A))%nat
    /\ Z.of_nat (length (fig_curves fig_A))
       = valid_count (storm_grid_coord_i ds_A) (storm_grid_coord_j ds_A)
           (storm_grid_coord_i_attrs ds_A !! fill_key)
           (storm_grid_coord_j_attrs ds_A !! fill_key) k
    /\ (forall k', (k' < shape1 (storm_grid_coord_i ds_A))%nat ->
          valid_count (storm_grid_coord_i ds_A) (storm_grid_coord_j ds_A)
            (storm_grid_coord_i_attrs ds_A !! fill_key)
            (storm_grid_coord_j_attrs ds_A !! fill_key) k'
          <= Z.of_nat (length (fig_curves fig_A)))
    /\ fig_title fig_A
       = "storm" +:+ ": " +:+ pretty (length (fig_curves fig_A))
         +:+ " profiles on " +:+ date_str
    /\ fig_ylim fig_A = (200, 0)
    /\ fig_saved fig_A = ["storm" +:+ "_profiles.pdf"; "storm" +:+ "_profiles.png"].
Proof.
  apply (main_title_counts_curves sample_format sample_strftime "storm" ds_A fig_A).
  - solve_dataset_wf.
  - vm_compute. reflexivity.
Defined.



Lemma run_saves_in_working_directory_witness :
  exists infile ds,
    ["/data/storm.nc"] = [infile]
    /\ sample_open infile = Some ds
    /\ main sample_format sample_strftime (prefix_of infile) ds = Ok fig_A
    /\ fig_saved fig_A = [prefix_of infile +:+ "_profiles.pdf";
                          prefix_of infile +:+ "_profiles.png"]
    /\ "Saved storm_profiles.pdf and storm_profiles.png"
       = "Saved " +:+ prefix_of infile +:+ "_profiles.pdf and "
         +:+ prefix_of infile +:+ "_profiles.png"
    /\ forall name, In name (fig_saved fig_A) ->
         ~ In "/"%char (list_ascii_of_string name).
Proof.
  apply (run_saves_in_working_directory sample_format sample_strftime sample_open
           "plot_profiles.py" ["/data/storm.nc"] fig_A
           "Saved storm_profiles.pdf and storm_profiles.png").
  vm_compute. reflexivity.
Defined.

(** * [plot.py] *)

(** X20. [plot.py] picks the middle of the track: on a track of at least
    one point the index [n_track // 2] is within the track, at most half
    a step from its centre, and the cross-track line and the highlighted
    point are those stored at that index; on an empty track the first
    indexing step raises [IndexError]. *)
Theorem plot_track_middle (d : float) (ds : PlotTrack.track_dataset) :
  PlotTrack.track_wf ds ->
  (PlotTrack.nii ds = 0%nat -> PlotTrack.select_middle ds = Err IndexError)
  /\ ((1 <= PlotTrack.nii ds)%nat ->
      exists (i0 : nat) (sel : PlotTrack.track_selection),
        PlotTrack.select_middle ds = Ok sel
        /\ PlotTrack.sel_i0 sel = Z.of_nat i0
        /\ (i0 < PlotTrack.nii ds)%nat
        /\ (2 * i0 <= PlotTrack.nii ds <= 2 * i0 + 1)%nat
        /\ PlotTrack.selected_point sel
           = (nth i0 (PlotTrack.lon1 ds) d, nth i0 (PlotTrack.lat1 ds) d)
        /\ PlotTrack.cross_line sel
           = (nth i0 (PlotTrack.lon2_nii ds) [], nth i0 (PlotTrack.lat2_nii ds) [])).
Proof.
  intros (Hlon1 & Hlat1 & Hlon2 & Hlat2). split.
  - intros Hz. unfold PlotTrack.select_middle, PlotTrack.isel_nii.
    rewrite Hz. reflexivity.
  - intros Hn. set (n := PlotTrack.nii ds) in *.
    assert (Hi0 : Z.of_nat n / 2 = Z.of_nat (Z.to_nat (Z.of_nat n / 2))).
    { rewrite Z2Nat.id; [reflexivity|]. apply Z.div_pos; lia. }
    set (i0 := Z.to_nat (Z.of_nat n / 2)) in *.
    assert (Hmid : (2 * i0 <= n <= 2 * i0 + 1)%nat).
    { pose proof (Z.div_mod (Z.of_nat n) 2 ltac:(lia)).
      pose proof (Z.mod_pos_bound (Z.of_nat n) 2 ltac:(lia)). lia. }
    assert (Hlt : (i0 < n)%nat) by lia.
    exists i0. eexists.
    unfold PlotTrack.select_middle, PlotTrack.isel_nii, PlotTrack.getitem1.
    cbn zeta. fold n. rewrite Hi0, Hlon1, Hlat1. fold n.
    rewrite !norm_index_of_nat by exact Hlt. rewrite !bind_Ok.
    rewrite (lookup_or_raise_nth [] (PlotTrack.lon2_nii ds)) by lia. rewrite bind_Ok.
    rewrite (lookup_or_raise_nth [] (PlotTrack.lat2_nii ds)) by lia. rewrite bind_Ok.
    rewrite (lookup_or_raise_nth d (PlotTrack.lon1 ds)) by lia. rewrite bind_Ok.
    rewrite (lookup_or_raise_nth d (PlotTrack.lat1 ds)) by lia. rewrite bind_Ok.
    split; [reflexivity|]. cbn. repeat split; assumption || lia.
Qed.

Lemma plot_track_middle_witness :
  (PlotTrack.nii PlotTrack.track_sample = 0%nat ->
   PlotTrack.select_middle PlotTrack.track_sample = Err IndexError)
  /\ ((1 <= PlotTrack.nii PlotTrack.track_sample)%nat ->
      exists (i0 : nat) (sel : PlotTrack.track_selection),
        PlotTrack.select_middle PlotTrack.track_sample = Ok sel
        /\ PlotTrack.sel_i0 sel = Z.of_nat i0
        /\ (i0 < PlotTrack.nii PlotTrack.track_sample)%nat
        /\ (2 * i0 <= PlotTrack.nii PlotTrack.track_sample <= 2 * i0 + 1)%nat
        /\ PlotTrack.selected_point sel
           = (nth i0 (PlotTrack.lon1 PlotTrack.track_sample) S754_nan,
              nth i0 (PlotTrack.lat1 PlotTrack.track_sample) S754_nan)
        /\ PlotTrack.cross_line sel
           = (nth i0 (PlotTrack.lon2_nii PlotTrack.track_sample) [],
              nth i0 (PlotTrack.lat2_nii PlotTrack.track_sample) [])).
Proof.
  apply (plot_track_middle S754_nan PlotTrack.track_sample).
  repeat split; reflexivity.
Defined.

(** * The fill-value key *)


Section FillKey.

Variable format_2f : float -> string.
Variable strftime_ymd : datetime -> string.



End FillKey.

